(** * Skytracer: a shallow embedding of the volumetric transport core

    The C++ sources compute in IEEE-754 single precision ([float]), with a
    few double-precision literals.  The embedding keeps that arithmetic:
    a [float] is a [spec_float] of the standard library's executable
    IEEE-754 specification at precision 24 / exponent bound 128, a
    [double] the same at 53 / 1024, and every operator of the source is
    the correctly rounded operation of that specification (round to
    nearest, ties to even; each operation rounds on its own, none is
    contracted into a fused multiply-add).  The integer
    code ([int], [uint32_t], [uint64_t]) is modelled on [Z] with the
    width written out.  Functions of the C library whose results are not
    fixed by IEEE-754 ([logf], [expf]) are parameters.

    Layout: arithmetic kernels, then one module per source file, then the
    lemmas and the theorems about them. *)

From Stdlib Require Import ZArith QArith List Bool String Ascii Lia.
From Stdlib Require Import Floats.SpecFloat.
Import ListNotations.

Local Open Scope Z_scope.

(* ------------------------------------------------------------------ *)
(** ** IEEE-754 binary formats *)

(** Conversion of an exact rational (a decimal literal of the source) to
    the nearest value of the format, ties to even: the quotient of
    numerator and denominator is computed with a sticky location and
    rounded once. *)
Definition SFof_Q (prec emax : Z) (q : Q) : spec_float :=
  match Qnum q with
  | Z0 => S754_zero false
  | Zpos n =>
      let '(m, e, l) := SFdiv_core_binary prec emax (Zpos n) 0 (Zpos (Qden q)) 0 in
      binary_round_aux prec emax false m e l
  | Zneg n =>
      let '(m, e, l) := SFdiv_core_binary prec emax (Zpos n) 0 (Zpos (Qden q)) 0 in
      binary_round_aux prec emax true m e l
  end.

(** Conversion between formats (widening is exact, narrowing rounds). *)
Definition SFconvert (prec emax : Z) (x : spec_float) : spec_float :=
  match x with
  | S754_finite s m e => binary_round prec emax s m e
  | _ => x
  end.

Definition SFis_nan (x : spec_float) : bool :=
  match x with S754_nan => true | _ => false end.

Definition SFis_finite (x : spec_float) : bool :=
  match x with S754_zero _ | S754_finite _ _ _ => true | _ => false end.

(** The real number a finite value stands for (0 for the others). *)
Definition SF2Q (x : spec_float) : Q :=
  match x with
  | S754_finite s m e =>
      let n := if s then Zneg m else Zpos m in
      match e with
      | Z0 => inject_Z n
      | Zpos p => inject_Z (n * 2 ^ Zpos p)
      | Zneg p => n # (2 ^ p)
      end
  | _ => 0%Q
  end.

(** [float]: IEEE-754 binary32. *)
Module F32.
Definition prec : Z := 24.
Definition emax : Z := 128.
Definition float : Type := spec_float.
Definition lit (q : Q) : float := SFof_Q prec emax q.
Definition of_Z (n : Z) : float := binary_normalize prec emax n 0 false.
Definition add : float -> float -> float := SFadd prec emax.
Definition sub : float -> float -> float := SFsub prec emax.
Definition mul : float -> float -> float := SFmul prec emax.
Definition div : float -> float -> float := SFdiv prec emax.
Definition sqrtf : float -> float := SFsqrt prec emax.
Definition neg : float -> float := SFopp.
Definition ltb : float -> float -> bool := SFltb.
Definition leb : float -> float -> bool := SFleb.
Definition eqb : float -> float -> bool := SFeqb.
Definition gtb (x y : float) : bool := SFltb y x.
Definition geb (x y : float) : bool := SFleb y x.
Definition zero : float := S754_zero false.
Definition one : float := Eval vm_compute in lit 1.
(** [fmaxf] as the C library computes it: the first argument unless the
    second is greater; a NaN argument yields the other one. *)
Definition fmaxf (x y : float) : float :=
  if geb x y then x else if SFis_nan y then x else y.
End F32.

(** [double]: IEEE-754 binary64; the sources only multiply in it. *)
Module F64.
Definition prec : Z := 53.
Definition emax : Z := 1024.
Definition double : Type := spec_float.
Definition lit (q : Q) : double := SFof_Q prec emax q.
Definition mul : double -> double -> double := SFmul prec emax.
Definition of_float (x : F32.float) : double := SFconvert prec emax x.
Definition to_float (x : double) : F32.float := SFconvert F32.prec F32.emax x.
End F64.

Declare Scope f32_scope.
Delimit Scope f32_scope with f32.
Bind Scope f32_scope with F32.float.
Infix "+" := F32.add : f32_scope.
Infix "-" := F32.sub : f32_scope.
Infix "*" := F32.mul : f32_scope.
Infix "/" := F32.div : f32_scope.
Notation "- x" := (F32.neg x) : f32_scope.
Infix "<?" := F32.ltb : f32_scope.
Infix "<=?" := F32.leb : f32_scope.
Infix ">?" := F32.gtb : f32_scope.
Infix ">=?" := F32.geb : f32_scope.
Infix "==?" := F32.eqb (at level 70) : f32_scope.

(* ------------------------------------------------------------------ *)
(** ** glm: the vector operations the sources use *)

Module glm.
Record vec3 : Type := Vec3 { x : F32.float; y : F32.float; z : F32.float }.

Definition vsub (a b : vec3) : vec3 :=
  Vec3 (x a - x b)%f32 (y a - y b)%f32 (z a - z b)%f32.
Definition vadd (a b : vec3) : vec3 :=
  Vec3 (x a + x b)%f32 (y a + y b)%f32 (z a + z b)%f32.
Definition vscale (a : vec3) (s : F32.float) : vec3 :=
  Vec3 (x a * s)%f32 (y a * s)%f32 (z a * s)%f32.
Definition vneg (a : vec3) : vec3 :=
  Vec3 (- x a)%f32 (- y a)%f32 (- z a)%f32.
(** [dot] multiplies componentwise and sums the components in order. *)
Definition dot (a b : vec3) : F32.float :=
  (x a * x b + y a * y b + z a * z b)%f32.
Definition length (a : vec3) : F32.float := F32.sqrtf (dot a a).
Definition distance (p0 p1 : vec3) : F32.float := length (vsub p1 p0).
End glm.
Definition vec3 : Type := glm.vec3.
Definition Vec3 : F32.float -> F32.float -> F32.float -> vec3 := glm.Vec3.

(* ------------------------------------------------------------------ *)
(** ** src/src/common.hxx *)

Definition M_INV_PI : F32.float :=
  Eval vm_compute in F64.to_float (F64.lit 0.31830988618379067154).
Definition M_INV_4PI : F32.float :=
  Eval vm_compute in F64.to_float (F64.lit 0.07957747154594766788).

Definition EARTH_RADIUS : F32.float := Eval vm_compute in F32.lit 6371e3.
Definition ATMOSPHERE_THICKNESS : F32.float := Eval vm_compute in F32.lit 1e5.
Definition ATMOSPHERE_RADIUS : F32.float :=
  Eval vm_compute in (EARTH_RADIUS + ATMOSPHERE_THICKNESS)%f32.
Definition EARTH_CENTER : vec3 :=
  Eval vm_compute in Vec3 F32.zero F32.zero (- EARTH_RADIUS)%f32.

Module Ray.
Record t : Type := mk { o : vec3; d : vec3 }.
End Ray.
Definition Ray : Type := Ray.t.

(* ------------------------------------------------------------------ *)
(** ** integrator.cxx (src/unnamed/part_001): geometry *)

(** Distance from the ray origin to the first intersection with the
    sphere of radius [sr] around [EARTH_CENTER], or -1. *)
Definition ray_sphere_intersection (ray : Ray) (sr : F32.float) : F32.float :=
  let oc := glm.vsub (Ray.o ray) EARTH_CENTER in
  let b := glm.dot oc (Ray.d ray) in
  let c := (glm.dot oc oc - sr * sr)%f32 in
  if (c >? F32.zero)%f32 && (b >? F32.zero)%f32 then (- F32.one)%f32 else
  let d := (b * b - c)%f32 in
  if (d <? F32.zero)%f32 then (- F32.one)%f32 else
  if (d >? b * b)%f32 then (- b + F32.sqrtf d)%f32 else
  (- b - F32.sqrtf d)%f32.

(** [scene_intersect] returns [t_max] and the flag it leaves in
    [intersected_earth].  [new_ray] is built in the source and not used. *)
Definition scene_intersect (ray : Ray) : F32.float * bool :=
  let atmos_t := ray_sphere_intersection ray ATMOSPHERE_RADIUS in
  if (glm.z (Ray.o ray) >=? ATMOSPHERE_THICKNESS)%f32 then
    if (atmos_t <? F32.zero)%f32 then ((- F32.one)%f32, false)
    else
      let new_ray :=
        Ray.mk (glm.vadd (Ray.o ray) (glm.vscale (Ray.d ray) atmos_t)) (Ray.d ray) in
      let earth_t := ray_sphere_intersection ray EARTH_RADIUS in
      if (earth_t <? F32.zero)%f32
      then (ray_sphere_intersection ray ATMOSPHERE_RADIUS, false)
      else (earth_t, true)
  else
    let earth_t := ray_sphere_intersection ray EARTH_RADIUS in
    if (earth_t <? F32.zero)%f32 then (atmos_t, false) else (earth_t, true).

(* ------------------------------------------------------------------ *)
(** ** Machine integers *)

(** [int]: signed overflow and division by zero are undefined in C++,
    so the checked operations return [None] there. *)
Module Int.
Definition min : Z := - 2 ^ 31.
Definition max : Z := 2 ^ 31 - 1.
Definition in_range (n : Z) : bool := (min <=? n) && (n <=? max).
Definition checked (n : Z) : option Z := if in_range n then Some n else None.
Definition add (a b : Z) : option Z := checked (a + b).
Definition sub (a b : Z) : option Z := checked (a - b).
Definition mul (a b : Z) : option Z := checked (a * b).
Definition div (a b : Z) : option Z :=
  if b =? 0 then None else checked (Z.quot a b).
End Int.

Definition bind {A B : Type} (m : option A) (f : A -> option B) : option B :=
  match m with Some a => f a | None => None end.
Notation "x <- m ;; k" := (bind m (fun x => k))
  (at level 61, m at next level, right associativity).

(** [uint32_t] and [uint64_t]: arithmetic modulo the width. *)
Definition u32 (n : Z) : Z := n mod 2 ^ 32.
Definition u64 (n : Z) : Z := n mod 2 ^ 64.

(* ------------------------------------------------------------------ *)
(** ** src/src/random.hxx: pcg32 *)

Module pcg32.
Record t : Type := mk { state : Z; inc : Z }.

Definition next_uint (g : t) : Z * t :=
  let oldstate := state g in
  let g' := mk (u64 (oldstate * 6364136223846793005 + inc g)) (inc g) in
  let xorshifted := u32 (Z.shiftr (Z.lxor (Z.shiftr oldstate 18) oldstate) 27) in
  let rot := u32 (Z.shiftr oldstate 59) in
  (Z.lor (Z.shiftr xorshifted rot)
         (u32 (Z.shiftl xorshifted (Z.land (u32 (- rot)) 31))),
   g').

Definition seed (initstate initseq : Z) : t :=
  let g := mk 0 (u64 (Z.lor (u64 (Z.shiftl initseq 1)) 1)) in
  let g := snd (next_uint g) in
  let g := mk (u64 (state g + initstate)) (inc g) in
  snd (next_uint g).

(** Sebastiano Vigna's conversion: the top 24 bits, scaled by
    [1.0f / (1 << 24)]. *)
Definition next_float (g : t) : F32.float * t :=
  let '(r, g') := next_uint g in
  ((F32.of_Z (Z.shiftr r 8) * (F32.one / F32.of_Z (u32 (Z.shiftl 1 24))))%f32, g').
End pcg32.

(* ------------------------------------------------------------------ *)
(** ** sampler.hxx (in src/src/lightsource.hxx) *)

Module Sampler.
Definition t : Type := pcg32.t.
Definition new (begin_ end_ : Z) : t := pcg32.seed (u64 begin_) (u64 end_).
Definition next_1d (s : t) : F32.float * t := pcg32.next_float s.
End Sampler.
Definition Sampler : Type := Sampler.t.

(* ------------------------------------------------------------------ *)
(** ** src/src/lut.cxx *)

(** The table type (lut.hxx is not among the sources): a sequence of
    (key, value) pairs, as the code of [lut_lerp] and the table
    initializers use it. *)
Definition LookupTable : Type := list (F32.float * F32.float).

Definition lut_of_literals (l : list (Q * Q)) : LookupTable :=
  map (fun kv => (F32.lit (fst kv), F32.lit (snd kv))) l.

(** [operator<] of [std::pair<float, float>]. *)
Definition pair_lt (a b : F32.float * F32.float) : bool :=
  (fst a <? fst b)%f32 || (negb (fst b <? fst a)%f32 && (snd a <? snd b)%f32).

(** [std::numeric_limits<float>::min()], the least positive normal value. *)
Definition FLT_MIN : F32.float := S754_finite false 8388608 (-149).

Definition lut_nth (table : LookupTable) (i : nat) : F32.float * F32.float :=
  nth i table (F32.zero, F32.zero).

(** [std::lower_bound]: bisection over [first, first + len). *)
Fixpoint lower_bound_loop (fuel : nat) (table : LookupTable)
    (val : F32.float * F32.float) (first len : nat) : nat :=
  match fuel with
  | O => first
  | S fuel' =>
      match len with
      | O => first
      | _ =>
          let half := Nat.div2 len in
          let middle := (first + half)%nat in
          if pair_lt (lut_nth table middle) val
          then lower_bound_loop fuel' table val (S middle) (len - half - 1)%nat
          else lower_bound_loop fuel' table val first half
      end
  end.

Definition lower_bound (table : LookupTable) (val : F32.float * F32.float) : nat :=
  lower_bound_loop (S (List.length table)) table val 0%nat (List.length table).

(** Linear interpolation in a sorted table, saturating outside its keys.
    The tables of the sources are not empty. *)
Definition lut_lerp (table : LookupTable) (x : F32.float) : F32.float :=
  let back := lut_nth table (List.length table - 1) in
  let front := lut_nth table 0 in
  if (x >? fst back)%f32 then snd back else
  if (x <? fst front)%f32 then snd front else
  let it := lower_bound table (x, FLT_MIN) in
  match it with
  | O => snd (lut_nth table it)
  | S it2 =>
      let e := lut_nth table it in
      let e2 := lut_nth table it2 in
      (snd e2 + (snd e - snd e2) * (x - fst e2) / (fst e - fst e2))%f32
  end.

(* ------------------------------------------------------------------ *)
(** ** src/src/phase.hxx, phase.cxx (in src/src/lightsource.hxx) *)

Definition RAYLEIGH_PHASE_SCALE : F32.float :=
  Eval vm_compute in (F32.lit 3.0 / F32.lit 16.0 * M_INV_PI)%f32.

(** Tabulated gamma term of the Chandrasekhar phase function. *)
Definition gamma_lut : LookupTable := Eval vm_compute in lut_of_literals [
   (200.0, 0.02326); (205.0, 0.02241); (210.0, 0.02100);
   (215.0, 0.02043); (220.0, 0.01986); (225.0, 0.01930);
   (240.0, 0.01872); (260.0, 0.01758); (270.0, 0.01729);
   (280.0, 0.01672); (290.0, 0.01643); (300.0, 0.01614);
   (310.0, 0.01614); (320.0, 0.01586); (330.0, 0.01557);
   (340.0, 0.01557); (350.0, 0.01528); (360.0, 0.01528);
   (370.0, 0.01528); (380.0, 0.01499); (390.0, 0.01499);
   (400.0, 0.01499); (450.0, 0.01471); (500.0, 0.01442);
   (550.0, 0.01442); (600.0, 0.01413); (650.0, 0.01413);
   (700.0, 0.01413); (750.0, 0.01413); (800.0, 0.01384);
   (850.0, 0.01384); (900.0, 0.01384); (950.0, 0.01384);
   (1000.0, 0.01384)
  ]%Q.

Inductive PhaseFunction : Type :=
  | Isotropic
  | HenyeyGreenstein (g gg : F32.float)
  | RayleighPhase
  | ChandrasekharPhase.

Definition HenyeyGreenstein_new (g_ : F32.float) : PhaseFunction :=
  HenyeyGreenstein g_ (g_ * g_)%f32.

Definition two : F32.float := Eval vm_compute in F32.lit 2.0.
Definition three : F32.float := Eval vm_compute in F32.lit 3.0.

Definition PhaseFunction_p (ph : PhaseFunction) (wo wi : vec3) (wl : F32.float)
  : F32.float :=
  match ph with
  | Isotropic => M_INV_4PI
  | HenyeyGreenstein g gg =>
      let cos_theta := glm.dot wo wi in
      let denom := (F32.one + gg + two * g * cos_theta)%f32 in
      (M_INV_4PI * (F32.one - gg) / (denom * F32.sqrtf denom))%f32
  | RayleighPhase =>
      let cos_theta := glm.dot wo wi in
      (RAYLEIGH_PHASE_SCALE * (F32.one + cos_theta * cos_theta))%f32
  | ChandrasekharPhase =>
      let cos_theta := glm.dot wo wi in
      let gamma := lut_lerp gamma_lut wl in
      (RAYLEIGH_PHASE_SCALE / (F32.one + two * gamma)
       * (F32.one + three * gamma + (F32.one - gamma) * cos_theta * cos_theta))%f32
  end.

(* ------------------------------------------------------------------ *)
(** ** aerosol.hxx (src/unnamed/part_004) *)

(** The functions of the C library are parameters of the model. *)
Record Libm : Type := mkLibm {
  logf : F32.float -> F32.float;
  expf : F32.float -> F32.float
}.

(** An [Aerosol] object: the four data members and the virtual functions
    its class provides. *)
Record Aerosol : Type := mkAerosol {
  _turbidity : F32.float;
  _base_density : F32.float;
  _background_divided_by_base_density : F32.float;
  _height_scale : F32.float;
  get_absorption_cross_section : F32.float -> F32.float;
  get_scattering_cross_section : F32.float -> F32.float;
  get_density : F32.float -> F32.float
}.

(** [float * double]: the product is formed in double precision and
    converted back when it is returned. *)
Definition mul_double_literal (x : F32.float) (c : Q) : F32.float :=
  F64.to_float (F64.mul (F64.of_float x) (F64.lit c)).

Module AerosolBase.
Definition get_absorption (a : Aerosol) (height wl : F32.float) : F32.float :=
  mul_double_literal
    (get_absorption_cross_section a wl * get_density a height * _turbidity a)%f32
    1e-3.
Definition get_scattering (a : Aerosol) (height wl : F32.float) : F32.float :=
  mul_double_literal
    (get_scattering_cross_section a wl * get_density a height * _turbidity a)%f32
    1e-3.
Definition get_extinction (a : Aerosol) (height wl : F32.float) : F32.float :=
  mul_double_literal
    ((get_absorption_cross_section a wl + get_scattering_cross_section a wl)
     * get_density a height * _turbidity a)%f32
    1e-3.
(** The density profile of the base class. *)
Definition get_density (libm : Libm)
    (base_density background_divided_by_base_density height_scale : F32.float)
    (height : F32.float) : F32.float :=
  let height := mul_double_literal height 1e-3 in
  (base_density * (expf libm (- height / height_scale)
                   + background_divided_by_base_density))%f32.
End AerosolBase.

Inductive AerosolKind : Type :=
  | BackgroundAerosol | DesertDustAerosol | MaritimeCleanAerosol
  | MaritimeMineralAerosol | PolarAntarcticAerosol | PolarArticAerosol
  | RemoteContinentalAerosol | RuralAerosol | UrbanAerosol.

(** What the nine subclasses define outside the header (aerosol.cxx is
    not among the sources): their cross-section functions and the
    density profile that [BackgroundAerosol] overrides. *)
Record AerosolSources : Type := mkAerosolSources {
  absorption_cross_section : AerosolKind -> F32.float -> F32.float;
  scattering_cross_section : AerosolKind -> F32.float -> F32.float;
  background_get_density : F32.float -> F32.float
}.

(** [Aerosol(turbidity, base_density, background_density, height_scale)]
    as each subclass constructor calls it. *)
Definition aerosol_constants (k : AerosolKind) : F32.float * F32.float * F32.float :=
  match k with
  | BackgroundAerosol => (F32.lit 2.584e17, F32.lit 2e6, F32.lit 0.0)
  | DesertDustAerosol => (F32.lit 1.8662e18, F32.lit 2e6, F32.lit 2.0)
  | MaritimeCleanAerosol => (F32.lit 2.0266e17, F32.lit 2e6, F32.lit 0.9)
  | MaritimeMineralAerosol => (F32.lit 2.0266e17, F32.lit 2e6, F32.lit 2.0)
  | PolarAntarcticAerosol => (F32.lit 2.3864e16, F32.lit 2e6, F32.lit 30.0)
  | PolarArticAerosol => (F32.lit 2.3864e16, F32.lit 2e6, F32.lit 30.0)
  | RemoteContinentalAerosol => (F32.lit 6.103e18, F32.lit 2e6, F32.lit 0.73)
  | RuralAerosol => (F64.to_float (F64.lit 8.544e18), F32.lit 2e6, F32.lit 0.73)
  | UrbanAerosol => (F32.lit 1.3681e20, F32.lit 2e6, F32.lit 0.73)
  end.

Definition Aerosol_new (libm : Libm) (src : AerosolSources) (k : AerosolKind)
    (turbidity : F32.float) : Aerosol :=
  let '(base_density, background_density, height_scale) := aerosol_constants k in
  let ratio := (background_density / base_density)%f32 in
  mkAerosol turbidity base_density ratio height_scale
    (absorption_cross_section src k)
    (scattering_cross_section src k)
    (match k with
     | BackgroundAerosol => background_get_density src
     | _ => AerosolBase.get_density libm base_density ratio height_scale
     end).

(* ------------------------------------------------------------------ *)
(** ** atmosphere.hxx (src/unnamed/part_002), atmosphere.cxx (src/unnamed/part_003) *)

Definition Ts : F32.float := Eval vm_compute in F32.lit 288.15.
Definition Ps : F32.float := Eval vm_compute in F32.lit 101325.0.

(** Rayleigh volume scattering coefficient (km^-1) by wavelength (nm). *)
Definition rayleigh_volume_scattering_lut : LookupTable :=
  Eval vm_compute in lut_of_literals [
   (200.0, 9.202e-1); (210.0, 7.225e-1); (220.0, 5.781e-1);
   (230.0, 4.691e-1); (240.0, 3.859e-1); (250.0, 3.208e-1);
   (260.0, 2.690e-1); (270.0, 2.277e-1); (280.0, 1.940e-1);
   (290.0, 1.665e-1); (300.0, 1.437e-1); (310.0, 1.249e-1);
   (320.0, 1.090e-1); (330.0, 9.557e-2); (340.0, 8.425e-2);
   (350.0, 7.450e-2); (360.0, 6.619e-2); (370.0, 5.901e-2);
   (380.0, 5.275e-2); (390.0, 4.734e-2); (400.0, 4.261e-2);
   (410.0, 3.845e-2); (420.0, 3.479e-2); (430.0, 3.156e-2);
   (440.0, 2.870e-2); (450.0, 2.616e-2); (460.0, 2.389e-2);
   (470.0, 2.187e-2); (480.0, 2.005e-2); (490.0, 1.842e-2);
   (500.0, 1.696e-2); (510.0, 1.564e-2); (520.0, 1.444e-2);
   (530.0, 1.336e-2); (540.0, 1.238e-2); (550.0, 1.149e-2);
   (560.0, 1.067e-2); (570.0, 9.927e-3); (580.0, 9.247e-3);
   (590.0, 8.624e-3); (600.0, 8.053e-3); (610.0, 7.530e-3);
   (620.0, 7.049e-3); (630.0, 6.605e-3); (640.0, 6.196e-3);
   (650.0, 5.819e-3); (660.0, 5.470e-3); (670.0, 5.146e-3);
   (680.0, 4.847e-3); (690.0, 4.568e-3); (700.0, 4.310e-3);
   (710.0, 4.069e-3); (720.0, 3.846e-3); (730.0, 3.637e-3);
   (740.0, 3.442e-3); (750.0, 3.261e-3); (760.0, 3.090e-3);
   (770.0, 2.931e-3); (780.0, 2.781e-3); (790.0, 2.641e-3);
   (800.0, 2.510e-3); (900.0, 1.561e-3); (1000.0, 1.022e-3);
   (1100.0, 6.964e-4); (1200.0, 4.909e-4); (1300.0, 3.560e-4);
   (1400.0, 2.644e-4); (1500.0, 2.005e-4); (1600.0, 1.548e-4);
   (1700.0, 1.214e-4); (1800.0, 9.656e-5); (1900.0, 7.775e-5);
   (2000.0, 6.331e-5); (2200.0, 4.322e-5); (2400.0, 3.050e-5);
   (2600.0, 2.214e-5); (2800.0, 1.646e-5); (3000.0, 1.249e-5);
   (3500.0, 6.737e-6); (4000.0, 3.948e-6)
  ]%Q.

(** Temperature (K) by height (km), US Standard Atmosphere. *)
Definition standard_atmosphere_temperature_lut : LookupTable :=
  Eval vm_compute in lut_of_literals [
   (0.0, 288.15); (1.0, 281.65); (2.0, 275.15);
   (3.0, 268.65); (4.0, 262.15); (5.0, 255.65);
   (6.0, 249.15); (7.0, 242.65); (8.0, 236.15);
   (9.0, 229.65); (10.0, 223.15); (11.0, 216.65);
   (12.0, 216.65); (13.0, 216.65); (14.0, 216.65);
   (15.0, 216.65); (16.0, 216.65); (17.0, 216.65);
   (18.0, 216.65); (19.0, 216.65); (20.0, 216.65);
   (21.0, 217.65); (22.0, 218.65); (23.0, 219.65);
   (24.0, 220.65); (25.0, 221.65); (26.0, 222.65);
   (27.0, 223.65); (28.0, 224.65); (29.0, 225.65);
   (30.0, 226.65); (31.0, 227.65); (32.0, 228.65);
   (33.0, 231.45); (34.0, 234.25); (35.0, 237.05);
   (36.0, 239.85); (37.0, 242.65); (38.0, 245.45);
   (39.0, 248.25); (40.0, 251.05); (41.0, 253.85);
   (42.0, 256.65); (43.0, 259.45); (44.0, 262.25);
   (45.0, 265.05); (46.0, 267.85); (47.0, 270.65);
   (48.0, 270.65); (49.0, 270.65); (50.0, 270.65);
   (51.0, 270.65); (52.0, 267.85); (53.0, 265.05);
   (54.0, 262.25); (55.0, 259.45); (56.0, 256.65);
   (57.0, 253.85); (58.0, 251.05); (59.0, 248.25);
   (60.0, 245.45); (61.0, 242.65); (62.0, 239.85);
   (63.0, 237.05); (64.0, 234.25); (65.0, 231.45);
   (66.0, 228.65); (67.0, 225.85); (68.0, 223.05);
   (69.0, 220.25); (70.0, 217.45); (71.0, 214.65);
   (72.0, 212.65); (73.0, 210.65); (74.0, 208.65);
   (75.0, 206.65); (76.0, 204.65); (77.0, 202.65);
   (78.0, 200.65); (79.0, 198.65); (80.0, 196.65);
   (81.0, 194.65); (82.0, 192.65); (83.0, 190.65);
   (84.0, 188.65); (85.0, 186.946); (86.0, 186.946)
  ]%Q.

(** Pressure (Pa) by height (km), US Standard Atmosphere. *)
Definition standard_atmosphere_pressure_lut : LookupTable :=
  Eval vm_compute in lut_of_literals [
   (0.0, 101325.0); (1.0, 89874.6); (2.0, 79495.2);
   (3.0, 70108.5); (4.0, 61640.2); (5.0, 54019.9);
   (6.0, 47181.0); (7.0, 41060.7); (8.0, 35599.8);
   (9.0, 30742.5); (10.0, 26436.3); (11.0, 22632.1);
   (12.0, 19330.4); (13.0, 16510.4); (14.0, 14101.8);
   (15.0, 12044.6); (16.0, 10287.5); (17.0, 8786.68);
   (18.0, 7504.84); (19.0, 6410.01); (20.0, 5474.89);
   (21.0, 4677.89); (22.0, 3999.79); (23.0, 3422.43);
   (24.0, 2930.49); (25.0, 2511.02); (26.0, 2153.09);
   (27.0, 1847.46); (28.0, 1586.29); (29.0, 1362.96);
   (30.0, 1171.87); (31.0, 1008.23); (32.0, 868.019);
   (33.0, 748.228); (34.0, 646.122); (35.0, 558.924);
   (36.0, 484.317); (37.0, 420.367); (38.0, 365.455);
   (39.0, 318.220); (40.0, 277.522); (41.0, 242.395);
   (42.0, 212.030); (43.0, 185.738); (44.0, 162.937);
   (45.0, 143.135); (46.0, 125.910); (47.0, 110.906);
   (48.0, 97.7545); (49.0, 86.1623); (50.0, 75.9448);
   (51.0, 66.9389); (52.0, 58.9622); (53.0, 51.8668);
   (54.0, 45.5632); (55.0, 39.9700); (56.0, 35.0137);
   (57.0, 30.6274); (58.0, 26.7509); (59.0, 23.3296);
   (60.0, 20.3143); (61.0, 17.6606); (62.0, 15.3287);
   (63.0, 13.2826); (64.0, 11.4900); (65.0, 9.92203);
   (66.0, 8.55275); (67.0, 7.35895); (68.0, 6.31992);
   (69.0, 5.41717); (70.0, 4.63422); (71.0, 3.95642);
   (72.0, 3.37176); (73.0, 2.86917); (74.0, 2.43773);
   (75.0, 2.06792); (76.0, 1.75140); (77.0, 1.48092);
   (78.0, 1.25012); (79.0, 1.05351); (80.0, 0.88628);
   (81.0, 0.74428); (82.0, 0.623905); (83.0, 0.522037);
   (84.0, 0.435981); (85.0, 0.36342); (86.0, 0.302723)
  ]%Q.

(** Ozone absorption cross-section (cm^2) by wavelength (nm). *)
Definition ozone_cross_section_lut : LookupTable :=
  Eval vm_compute in lut_of_literals [
   (244.0, 946e-20); (248.0, 1051e-20); (253.0, 1120e-20);
   (257.0, 1107e-20); (289.0, 151e-20); (296.0, 61.1e-20);
   (302.0, 29.6e-20); (365.0, 4.9e-23); (405.0, 1.46e-23);
   (455.0, 20.6e-23); (543.0, 3.08e-21); (576.0, 4.70e-21);
   (594.0, 4.63e-21); (604.0, 5.10e-21); (611.0, 4.54e-21);
   (632.0, 3.36e-21); (748.0, 4.38e-22); (755.0, 3.22e-22);
   (760.0, 2.77e-22); (765.0, 2.53e-22); (770.0, 2.49e-22);
   (779.0, 3.15e-22); (802.0, 1.45e-22); (817.0, 2.20e-22);
   (853.0, 1.46e-22); (877.0, 0.377e-22); (889.0, 0.510e-22);
   (898.0, 0.638e-22); (933.0, 0.162e-22); (944.0, 0.424e-22);
   (991.0, 0.407e-22); (1046.0, 0.0773e-22)
  ]%Q.

(** Monthly mean total ozone (Dobson), January first. *)
Definition ozone_mean_monthly_dobson : list F32.float :=
  Eval vm_compute in map F32.lit
    [347; 370; 381; 384; 372; 352; 333; 317; 298; 285; 290; 315]%Q.

Record GuimeraAtmosphere : Type := mkGuimeraAtmosphere {
  _month : Z;
  _phase_molecular : PhaseFunction;
  _phase_aerosol : PhaseFunction;
  _aerosol : option Aerosol
}.

Definition aerosol_of_name (aerosol_type : string) : option AerosolKind :=
  if String.eqb aerosol_type "background" then Some BackgroundAerosol
  else if String.eqb aerosol_type "desert-dust" then Some DesertDustAerosol
  else if String.eqb aerosol_type "maritime-clean" then Some MaritimeCleanAerosol
  else if String.eqb aerosol_type "maritime-mineral" then Some MaritimeMineralAerosol
  else if String.eqb aerosol_type "polar-antarctic" then Some PolarAntarcticAerosol
  else if String.eqb aerosol_type "polar-artic" then Some PolarArticAerosol
  else if String.eqb aerosol_type "remote-continental" then Some RemoteContinentalAerosol
  else if String.eqb aerosol_type "rural" then Some RuralAerosol
  else if String.eqb aerosol_type "urban" then Some UrbanAerosol
  else None.

(** What the constructor writes to [std::cerr]. *)
Inductive Diagnostic : Type :=
  | InvalidMonth (month : Z)
  | UnknownAerosolType (aerosol_type : string).

(** The constructor: the object built and the diagnostics printed, in
    order.  No path of it throws or exits. *)
Definition GuimeraAtmosphere_new (libm : Libm) (src : AerosolSources)
    (month : Z) (turbidity : F32.float) (aerosol_type : string)
  : GuimeraAtmosphere * list Diagnostic :=
  let '(month', err1) :=
    if (month <? 0) || (month >? 11) then (0, [InvalidMonth month])
    else (month, []) in
  let phase_molecular := ChandrasekharPhase in
  let phase_aerosol := HenyeyGreenstein_new (F64.to_float (F64.lit 0.8)) in
  let '(aerosol, err2) :=
    if String.eqb aerosol_type "none" then (None, [])
    else match aerosol_of_name aerosol_type with
         | Some k => (Some (Aerosol_new libm src k turbidity), [])
         | None => (None, [UnknownAerosolType aerosol_type])
         end in
  (mkGuimeraAtmosphere month' phase_molecular phase_aerosol aerosol, err1 ++ err2).

Definition height_at_point (p : vec3) : F32.float :=
  (glm.distance p EARTH_CENTER - EARTH_RADIUS)%f32.

Module Guimera.
Definition get_molecular_scattering (a : GuimeraAtmosphere) (height wl : F32.float)
  : F32.float :=
  let height := (height * F32.lit 1e-3)%f32 in
  let beta_s := lut_lerp rayleigh_volume_scattering_lut wl in
  let T := lut_lerp standard_atmosphere_temperature_lut height in
  let P := lut_lerp standard_atmosphere_pressure_lut height in
  let beta := (beta_s * (P / Ps) * (Ts / T))%f32 in
  (beta * F32.lit 1e-3)%f32.

Definition get_ozone_height_distribution (a : GuimeraAtmosphere) (height : F32.float)
  : F32.float :=
  if (height <=? F32.lit 9000.0)%f32 then (F32.lit 9.0 / F32.lit 210.0)%f32
  else if (height <=? F32.lit 18000.0)%f32 then (F32.lit 14.0 / F32.lit 210.0)%f32
  else if (height <=? F32.lit 27000.0)%f32 then (F32.lit 111.0 / F32.lit 210.0)%f32
  else if (height <=? F32.lit 36000.0)%f32 then (F32.lit 64.0 / F32.lit 210.0)%f32
  else if (height <=? F32.lit 45000.0)%f32 then (F32.lit 6.0 / F32.lit 210.0)%f32
  else if (height <=? F32.lit 54000.0)%f32 then (F32.lit 6.0 / F32.lit 210.0)%f32
  else F32.lit 0.0.

Definition get_molecular_absorption (a : GuimeraAtmosphere) (height wl : F32.float)
  : F32.float :=
  let sigma_a := (lut_lerp ozone_cross_section_lut wl * F32.lit 1e-4)%f32 in
  let total_ozone :=
    (nth (Z.to_nat (_month a)) ozone_mean_monthly_dobson F32.zero
     * F32.lit 2.6867e20)%f32 in
  let density := (get_ozone_height_distribution a height * total_ozone)%f32 in
  let density := (density / F32.lit 9e3)%f32 in
  (sigma_a * density)%f32.

Definition get_scattering (a : GuimeraAtmosphere) (height wl : F32.float) : F32.float :=
  let scattering := get_molecular_scattering a height wl in
  match _aerosol a with
  | Some aer => (scattering + AerosolBase.get_scattering aer height wl)%f32
  | None => scattering
  end.

Definition get_absorption (a : GuimeraAtmosphere) (height wl : F32.float) : F32.float :=
  let absorption := get_molecular_absorption a height wl in
  match _aerosol a with
  | Some aer => (absorption + AerosolBase.get_absorption aer height wl)%f32
  | None => absorption
  end.

Definition get_extinction (a : GuimeraAtmosphere) (height wl : F32.float) : F32.float :=
  let extinction :=
    (get_molecular_scattering a height wl + get_molecular_absorption a height wl)%f32 in
  match _aerosol a with
  | Some aer => (extinction + AerosolBase.get_extinction aer height wl)%f32
  | None => extinction
  end.

Definition phase_eval (a : GuimeraAtmosphere) (p : vec3) (sample : F32.float)
    (wo wi : vec3) (wl : F32.float) : F32.float :=
  match _aerosol a with
  | None => PhaseFunction_p (_phase_molecular a) wo wi wl
  | Some aer =>
      let height := height_at_point p in
      let molecular_scattering := get_molecular_scattering a height wl in
      let aerosol_scattering := AerosolBase.get_scattering aer height wl in
      let molecular_scattering_probability :=
        (molecular_scattering / (molecular_scattering + aerosol_scattering))%f32 in
      if (sample <? molecular_scattering_probability)%f32
      then PhaseFunction_p (_phase_molecular a) wo wi wl
      else PhaseFunction_p (_phase_aerosol a) wo wi wl
  end.
End Guimera.

(** The function-local statics of [Atmosphere::get_max_extinction]: one
    cache entry for the whole process. *)
Record max_extinction_cache : Type := mkCache {
  prev_wl : F32.float;
  prev_max_extinction : F32.float
}.
Definition cache_init : max_extinction_cache := mkCache F32.zero F32.zero.

(** The virtual interface of [Atmosphere]. *)
Record Atmosphere : Type := mkAtmosphere {
  phase_eval : vec3 -> F32.float -> vec3 -> vec3 -> F32.float -> F32.float;
  get_absorption : F32.float -> F32.float -> F32.float;
  get_scattering : F32.float -> F32.float -> F32.float;
  get_extinction : F32.float -> F32.float -> F32.float;
  get_max_extinction :
    F32.float -> max_extinction_cache -> F32.float * max_extinction_cache;
  get_scattering_albedo : F32.float -> F32.float -> F32.float
}.

Module AtmosphereBase.
(** Default body of [get_max_extinction]: the extinction at ground
    level, remembered for the last wavelength asked. *)
Definition get_max_extinction (get_extinction : F32.float -> F32.float -> F32.float)
    (wl : F32.float) (c : max_extinction_cache)
  : F32.float * max_extinction_cache :=
  if (prev_wl c ==? wl)%f32 then (prev_max_extinction c, c)
  else
    let max_extinction := get_extinction (F32.lit 0.0) wl in
    (max_extinction, mkCache wl max_extinction).

Definition get_scattering_albedo
    (get_absorption get_scattering : F32.float -> F32.float -> F32.float)
    (height wl : F32.float) : F32.float :=
  let scattering := get_scattering height wl in
  let extinction := (get_absorption height wl + scattering)%f32 in
  (scattering / extinction)%f32.

(** The helper overload taking a 3D point. *)
Definition get_extinction_at (atm : Atmosphere) (p : vec3) (wl : F32.float)
  : F32.float :=
  get_extinction atm (height_at_point p) wl.
End AtmosphereBase.

(** [GuimeraAtmosphere] seen through the interface. *)
Definition GuimeraAtmosphere_vtable (a : GuimeraAtmosphere) : Atmosphere :=
  mkAtmosphere
    (Guimera.phase_eval a)
    (Guimera.get_absorption a)
    (Guimera.get_scattering a)
    (Guimera.get_extinction a)
    (AtmosphereBase.get_max_extinction (Guimera.get_extinction a))
    (AtmosphereBase.get_scattering_albedo
       (Guimera.get_absorption a) (Guimera.get_scattering a)).

(* ------------------------------------------------------------------ *)
(** ** integrator.cxx (src/unnamed/part_001): tracking loops *)

Definition ray_at (ray : Ray) (t : F32.float) : vec3 :=
  glm.vadd (Ray.o ray) (glm.vscale (Ray.d ray) t).

(** The [do ... while (true)] loops may run for ever; [fuel] bounds the
    number of iterations and [None] means it ran out. *)
Fixpoint sample_interaction_loop (libm : Libm) (atm : Atmosphere) (ray : Ray)
    (t_max wl majorant : F32.float) (fuel : nat)
    (t : F32.float) (p : vec3) (sampler : Sampler)
  : option (F32.float * vec3 * Sampler) :=
  match fuel with
  | O => None
  | S fuel' =>
      let '(u, sampler) := Sampler.next_1d sampler in
      let t := (t - logf libm (F32.one - u) / majorant)%f32 in
      if (t >=? t_max)%f32 then Some ((- F32.one)%f32, p, sampler)
      else
        let p := ray_at ray t in
        let extinction := AtmosphereBase.get_extinction_at atm p wl in
        let '(u', sampler) := Sampler.next_1d sampler in
        if (u' <? F32.fmaxf F32.zero (extinction / majorant))%f32
        then Some (t, p, sampler)
        else sample_interaction_loop libm atm ray t_max wl majorant fuel' t p sampler
  end.

(** Delta tracking: the distance to the next interaction (or -1), the
    value left in [p], the sampler and the cache afterwards. *)
Definition sample_interaction (libm : Libm) (atm : Atmosphere) (fuel : nat)
    (sampler : Sampler) (cache : max_extinction_cache)
    (ray : Ray) (t_max wl : F32.float) (p : vec3)
  : option (F32.float * vec3 * Sampler) * max_extinction_cache :=
  let '(majorant, cache) := get_max_extinction atm wl cache in
  (sample_interaction_loop libm atm ray t_max wl majorant fuel F32.zero p sampler,
   cache).

Fixpoint transmittance_loop (libm : Libm) (atm : Atmosphere) (ray : Ray)
    (t_max wl majorant : F32.float) (fuel : nat)
    (Tr t : F32.float) (sampler : Sampler)
  : option (F32.float * Sampler) :=
  match fuel with
  | O => None
  | S fuel' =>
      let '(u, sampler) := Sampler.next_1d sampler in
      let t := (t - logf libm (F32.one - u) / majorant)%f32 in
      if (t >=? t_max)%f32 then Some (Tr, sampler)
      else
        let p := ray_at ray t in
        let extinction := AtmosphereBase.get_extinction_at atm p wl in
        let Tr := (Tr * (F32.one - F32.fmaxf F32.zero (extinction / majorant)))%f32 in
        transmittance_loop libm atm ray t_max wl majorant fuel' Tr t sampler
  end.

(** Ratio tracking. *)
Definition transmittance (libm : Libm) (atm : Atmosphere) (fuel : nat)
    (sampler : Sampler) (cache : max_extinction_cache)
    (ray : Ray) (t_max wl : F32.float)
  : option (F32.float * Sampler) * max_extinction_cache :=
  let '(majorant, cache) := get_max_extinction atm wl cache in
  (transmittance_loop libm atm ray t_max wl majorant fuel F32.one F32.zero sampler,
   cache).

(* ------------------------------------------------------------------ *)
(** ** src/src/renderer.hxx, src/src/renderer.cxx: tiles *)

Record Tile : Type := mkTile { x0 : Z; x1 : Z; y0 : Z; y1 : Z }.

(** [for (int i = start; i < start + n; ++i) body], over a state. *)
Fixpoint for_loop {S : Type} (n : nat) (i : Z) (body : Z -> S -> option S)
    (s : S) : option S :=
  match n with
  | O => Some s
  | Datatypes.S n' => s' <- body i s ;; for_loop n' (i + 1) body s'
  end.

Definition prepare_tiles (_image_width _image_height _tile_width _tile_height : Z)
  : option (list Tile) :=
  x_tiles <- (a <- Int.add _image_width _tile_width ;;
              b <- Int.sub a 1 ;; Int.div b _tile_width) ;;
  y_tiles <- (a <- Int.add _image_height _tile_height ;;
              b <- Int.sub a 1 ;; Int.div b _tile_height) ;;
  for_loop (Z.to_nat y_tiles) 0 (fun j tiles =>
    for_loop (Z.to_nat x_tiles) 0 (fun i tiles =>
      x0 <- Int.mul i _tile_width ;;
      x1 <- (c <- Int.sub x_tiles 1 ;;
             if i =? c then Some _image_width else Int.add x0 _tile_width) ;;
      y0 <- Int.mul j _tile_height ;;
      y1 <- (c <- Int.sub y_tiles 1 ;;
             if j =? c then Some _image_height else Int.add y0 _tile_height) ;;
      Some (tiles ++ [mkTile x0 x1 y0 y1])) tiles) [].

(** The values a counting loop takes: [n] consecutive integers from [i]. *)
Fixpoint zseq (i : Z) (n : nat) : list Z :=
  match n with
  | O => []
  | S n' => i :: zseq (i + 1) n'
  end.

(** Pixel (x, y) belongs to the tile: [x0 <= x < x1] and [y0 <= y < y1]. *)
Definition Tile_contains (tile : Tile) (x y : Z) : bool :=
  (x0 tile <=? x) && (x <? x1 tile) && (y0 tile <=? y) && (y <? y1 tile).

(* ------------------------------------------------------------------ *)
(** ** Inputs used in the examples below *)

(** A coarse C library: exact at the arguments whose results the C
    standard fixes (Annex F), of the right sign elsewhere.  It serves to
    run the model on inputs whose results do not depend on libm. *)
Definition logf_coarse (x : F32.float) : F32.float :=
  match x with
  | S754_nan => S754_nan
  | S754_zero _ => S754_infinity true
  | S754_infinity false => S754_infinity false
  | S754_infinity true | S754_finite true _ _ => S754_nan
  | S754_finite false _ _ =>
      match SFcompare x F32.one with
      | Some Lt => (- F32.one)%f32
      | Some Gt => F32.one
      | _ => F32.zero
      end
  end.

Definition expf_coarse (x : F32.float) : F32.float :=
  match x with
  | S754_nan => S754_nan
  | S754_zero _ => F32.one
  | S754_infinity false => S754_infinity false
  | S754_infinity true => F32.zero
  | S754_finite false _ _ => two
  | S754_finite true _ _ => (F32.one / two)%f32
  end.

Definition libm_coarse : Libm := mkLibm logf_coarse expf_coarse.

(** The observer at sea level looking at the zenith. *)
Definition ray_zenith : Ray :=
  Ray.mk (Vec3 F32.zero F32.zero F32.zero) (Vec3 F32.zero F32.zero F32.one).

(** A ray from 300 km above the ground that crosses the atmosphere
    without reaching the ground. *)
Definition ray_grazing : Ray :=
  Ray.mk (Vec3 F32.zero F32.zero (F32.lit 3e5))
         (Vec3 (F32.lit 0.96) F32.zero (F32.lit (-0.28))).

(** January, no aerosol. *)
Definition atmosphere_molecular : GuimeraAtmosphere :=
  mkGuimeraAtmosphere 0 ChandrasekharPhase
    (HenyeyGreenstein_new (F64.to_float (F64.lit 0.8))) None.

(** aerosol.cxx is not among the sources.  For the examples: an
    instance whose cross-sections do not depend on the wavelength
    (absorption 1e-22, scattering 6e-22). *)
Definition aerosol_sources_example : AerosolSources :=
  mkAerosolSources (fun _ _ => F32.lit 1e-22) (fun _ _ => F32.lit 6e-22)
                   (fun _ => F32.lit 2.584e17).

(** January, aerosol type "urban", turbidity 1. *)
Definition atmosphere_urban : GuimeraAtmosphere :=
  fst (GuimeraAtmosphere_new libm_coarse aerosol_sources_example 0 F32.one "urban").

(** The names the constructor recognizes. *)
Definition recognized_aerosol_types : list string :=
  ["none"; "background"; "desert-dust"; "maritime-clean"; "maritime-mineral";
   "polar-antarctic"; "polar-artic"; "remote-continental"; "rural"; "urban"]%string.

(* ------------------------------------------------------------------ *)
(** ** Notions used in the statements *)

(** The tile of column [i] and row [j] of the grid. *)
Definition tile_at (w h tw th i j : Z) : Tile :=
  mkTile (i * tw) (Z.min (i * tw + tw) w) (j * th) (Z.min (j * th + th) h).

Definition tile_grid (w h tw th : Z) (nx ny : nat) : list Tile :=
  flat_map (fun j => flat_map (fun i => [tile_at w h tw th i j]) (zseq 0 nx))
           (zseq 0 ny).


(** The binary32 value [n * 2^e], for 0 < n < 2^24 and a result in the
    normal range: the mantissa is [n] shifted left to 24 bits. *)
Definition lead (n : Z) : Z := 23 - Z.log2 n.
Definition dyadic24 (n e : Z) : F32.float :=
  S754_finite false (Z.to_pos (n * 2 ^ lead n)) (e - lead n).


(** What the loops need of [logf]: on (0, 1] its value is finite and at
    most zero. *)
Definition logf_nonpositive_on_unit_interval (libm : Libm) : Prop :=
  forall x : F32.float,
    (F32.zero <? x)%f32 = true -> (x <=? F32.one)%f32 = true ->
    SFis_finite (logf libm x) = true /\ (logf libm x <=? F32.zero)%f32 = true.


(** One exponential step of the tracking loops from [t]. *)
Definition tracking_step (libm : Libm) (majorant t : F32.float) (s : Sampler)
  : F32.float * Sampler :=
  let '(u, s1) := Sampler.next_1d s in
  ((t - logf libm (F32.one - u) / majorant)%f32, s1).

(** The walk of the tracking loops when no collision is accepted: the
    distance and the sampler after [n + 1] steps from [t], each step but
    the last followed by the draw of the acceptance test. *)
Fixpoint free_flight (libm : Libm) (majorant : F32.float) (n : nat)
    (t : F32.float) (s : Sampler) : F32.float * Sampler :=
  match n with
  | O => tracking_step libm majorant t s
  | S n' =>
      let '(t1, s1) := tracking_step libm majorant t s in
      free_flight libm majorant n' t1 (snd (Sampler.next_1d s1))
  end.


(** A zero, or a positive finite number whose mantissa has at most 24
    bits and whose value is at most 2^32. *)
Definition at_most_2_32 (t : F32.float) : bool :=
  match t with
  | S754_zero _ => true
  | S754_finite false m e =>
      (Zpos (digits2_pos m) <=? 24) && (-149 <=? e)
      && ((e <=? 8) || ((e =? 9) && (Zpos m =? 2 ^ 23)))
  | _ => false
  end.

(** A zero, or a negative finite number whose mantissa has at most 24
    bits and whose magnitude is at most 2^7. *)
Definition step_at_most_128 (q : F32.float) : bool :=
  match q with
  | S754_zero _ => true
  | S754_finite true m e =>
      (Zpos (digits2_pos m) <=? 24) && (-149 <=? e)
      && ((e <=? -17) || ((e =? -16) && (Zpos m =? 2 ^ 23)))
  | _ => false
  end.

(** Every step [logf x / majorant], for [x] in (0, 1], is a zero or a
    negative number of magnitude at most 128.  The C library's logf lies
    in [-104, 0] on the positive floats up to 1. *)
Definition steps_at_most_128 (libm : Libm) (majorant : F32.float) : Prop :=
  forall x : F32.float,
    (F32.zero <? x)%f32 = true -> (x <=? F32.one)%f32 = true ->
    step_at_most_128 (logf libm x / majorant)%f32 = true.

(** 2^33, a finite segment length. *)
Definition two_pow_33 : F32.float := Eval vm_compute in F32.lit 8589934592.


(** A medium without extinction, absorption or scattering whose
    [get_max_extinction] is overridden to return [majorant]. *)
Definition vacuum (majorant : F32.float) : Atmosphere :=
  mkAtmosphere
    (fun _ _ _ _ _ => M_INV_4PI)
    (fun _ _ => F32.zero)
    (fun _ _ => F32.zero)
    (fun _ _ => F32.zero)
    (fun _ c => (majorant, c))
    (AtmosphereBase.get_scattering_albedo (fun _ _ => F32.zero) (fun _ _ => F32.zero)).

(* ------------------------------------------------------------------ *)
(** ** src/src/lut.cxx: what [lut_lerp] expects of a table *)

(** Keys in strictly increasing order, as [std::lower_bound] expects. *)
Fixpoint keys_increasing (table : LookupTable) : bool :=
  match table with
  | [] => true
  | a :: rest =>
      match rest with
      | [] => true
      | b :: _ => (fst a <? fst b)%f32 && keys_increasing rest
      end
  end.

(** No value of the table is below [FLT_MIN], the second component of
    the pair [lut_lerp] searches for. *)
Definition values_not_below_FLT_MIN (table : LookupTable) : bool :=
  forallb (fun e => negb (snd e <? FLT_MIN)%f32) table.

(** The same datum (also the same zero, the same NaN). *)
Definition SFsame (a b : spec_float) : bool :=
  match a, b with
  | S754_zero s, S754_zero s' => Bool.eqb s s'
  | S754_infinity s, S754_infinity s' => Bool.eqb s s'
  | S754_nan, S754_nan => true
  | S754_finite s m e, S754_finite s' m' e' => Bool.eqb s s' && Pos.eqb m m' && Z.eqb e e'
  | _, _ => false
  end.

(** Every key of the table is looked up to its own value. *)
Definition lut_lerp_reproduces (table : LookupTable) : bool :=
  forallb (fun e => SFsame (lut_lerp table (fst e)) (snd e)) table.

(** The tables of the sources. *)
Definition source_tables : list LookupTable :=
  [gamma_lut; rayleigh_volume_scattering_lut; standard_atmosphere_temperature_lut;
   standard_atmosphere_pressure_lut; ozone_cross_section_lut].

(* ------------------------------------------------------------------ *)
(** ** sampler.hxx (in src/src/lightsource.hxx): two-dimensional samples *)

Module vec2.
Record t : Type := mk { x : F32.float; y : F32.float }.
Definition add (a b : t) : t := mk (x a + x b)%f32 (y a + y b)%f32.
Definition mul (a b : t) : t := mk (x a * x b)%f32 (y a * y b)%f32.
End vec2.

(** [glm::vec2(_random.next_float(), _random.next_float())]: the two
    calls are arguments of one constructor call, so C++ leaves their
    order open; [x_first] says whether the first draw becomes [x]. *)
Definition next_2d (x_first : bool) (s : Sampler) : vec2.t * Sampler :=
  let '(a, s) := pcg32.next_float s in
  let '(b, s) := pcg32.next_float s in
  (if x_first then vec2.mk a b else vec2.mk b a, s).

(** [pcg32(initstate, initseq)] and [pcg32()]. *)
Definition PCG32_DEFAULT_STATE : Z := 0xffc5d3a96def55f9.
Definition PCG32_DEFAULT_SEQ : Z := 0xc3579e39d9baf6b8.
Definition pcg32_new (initstate initseq : Z) : pcg32.t :=
  pcg32.seed initstate (u64 (2 * initseq + 1)).
Definition pcg32_default : pcg32.t :=
  pcg32.seed PCG32_DEFAULT_STATE PCG32_DEFAULT_SEQ.

(** A generator whose fields are 64-bit values, with the odd increment
    the generator needs. *)
Definition pcg32_wf (g : pcg32.t) : Prop :=
  0 <= pcg32.state g < 2 ^ 64 /\ 0 <= pcg32.inc g < 2 ^ 64 /\
  Z.odd (pcg32.inc g) = true.

(* ------------------------------------------------------------------ *)
(** ** integrator.cxx (src/unnamed/part_001): the walk of ratio tracking *)

(** The distance and the sampler after [n + 1] steps of [transmittance]
    from [t]: this loop draws one sample per step. *)
Fixpoint ratio_flight (libm : Libm) (majorant : F32.float) (n : nat)
    (t : F32.float) (s : Sampler) : F32.float * Sampler :=
  match n with
  | O => tracking_step libm majorant t s
  | S n' =>
      let '(t1, s1) := tracking_step libm majorant t s in
      ratio_flight libm majorant n' t1 s1
  end.

(* ------------------------------------------------------------------ *)
(** ** src/src/common.hxx, integrator.cxx (src/unnamed/part_001): sampling
       of directions *)

Definition M_TWO_PI : F32.float :=
  Eval vm_compute in F64.to_float (F64.lit 6.28318530717958647692).

(** [cosf] and [sinf] of the C library. *)
Record Trig : Type := mkTrig {
  cosf : F32.float -> F32.float;
  sinf : F32.float -> F32.float
}.

Definition sample_uniform_sphere (trig : Trig) (s : vec2.t) : vec3 :=
  let phi := (M_TWO_PI * vec2.x s)%f32 in
  let cos_theta := (vec2.y s * two - F32.one)%f32 in
  let sin_theta := F32.sqrtf (F32.one - cos_theta * cos_theta)%f32 in
  Vec3 (cosf trig phi * sin_theta)%f32 (sinf trig phi * sin_theta)%f32 cos_theta.

Definition sample_cosine_weighted_hemisphere (trig : Trig) (sample : vec2.t) : vec3 :=
  let phi := (M_TWO_PI * vec2.x sample)%f32 in
  let cos_theta := F32.sqrtf (vec2.y sample) in
  let sin_theta := F32.sqrtf (F32.one - cos_theta * cos_theta)%f32 in
  Vec3 (cosf trig phi * sin_theta)%f32 (sinf trig phi * sin_theta)%f32 cos_theta.

(** Deep space and the Sun's disc are not simulated: black. *)
Definition sample_background (ray : Ray) (wl : F32.float) : F32.float := F32.lit 0.0.

(* ------------------------------------------------------------------ *)
(** ** scene.hxx (src/unnamed/part_000), lightsource.hxx, camera.hxx *)

(** The virtual interface of [LightSource]; [sample] returns the radiance
    and the direction it writes to [wi]. *)
Record LightSource : Type := mkLightSource {
  light_eval : F32.float -> F32.float;
  light_sample : vec2.t -> F32.float -> F32.float * vec3
}.

(** The virtual interface of [Camera]: [sample_ray] returns the ray it
    wrote, or nothing where it returns [false]. *)
Record Camera : Type := mkCamera {
  sample_ray : vec2.t -> option Ray
}.

(** A [Scene].  Its [integrator] member is kept beside it (see
    [Integrator] below): the integrator's [Li] takes the scene. *)
Record Scene : Type := mkScene {
  atmosphere : Atmosphere;
  camera : Camera;
  light : LightSource;
  ground_albedo : F32.float
}.

(** What a call changes besides its result: the sampler it draws from
    and the cache of [get_max_extinction]. *)
Definition Drawn : Type := (Sampler * max_extinction_cache)%type.

(* ------------------------------------------------------------------ *)
(** ** integrator.cxx (src/unnamed/part_001): the integrators *)

(** What the integrators need of their platform: the C library, the
    bound on the iterations of each tracking loop ([None] is returned
    where it runs out) and the order in which [next_2d] draws. *)
Record Platform : Type := mkPlatform {
  libm_of : Libm;
  trig_of : Trig;
  fuel_of : nat;
  x_first_of : bool
}.

Definition run_transmittance (pf : Platform) (atm : Atmosphere) (st : Drawn)
    (ray : Ray) (t_max wl : F32.float) : option (F32.float * Drawn) :=
  match transmittance (libm_of pf) atm (fuel_of pf) (fst st) (snd st) ray t_max wl with
  | (Some (Tr, sampler), cache) => Some (Tr, (sampler, cache))
  | (None, _) => None
  end.

Definition run_sample_interaction (pf : Platform) (atm : Atmosphere) (st : Drawn)
    (ray : Ray) (t_max wl : F32.float) (p : vec3)
  : option (F32.float * vec3 * Drawn) :=
  match sample_interaction (libm_of pf) atm (fuel_of pf) (fst st) (snd st)
                           ray t_max wl p with
  | (Some (t, p, sampler), cache) => Some (t, p, (sampler, cache))
  | (None, _) => None
  end.

(** [sample_sun]: the direction, the transmittance of the beam and the
    radiance it writes to its three output parameters. *)
Definition sample_sun (pf : Platform) (scene : Scene) (st : Drawn) (p : vec3)
    (wl : F32.float) : option (vec3 * F32.float * F32.float * Drawn) :=
  let '(uv, sampler) := next_2d (x_first_of pf) (fst st) in
  let '(L, shadow_ray_dir) := light_sample (light scene) uv wl in
  let shadow_ray := Ray.mk p shadow_ray_dir in
  let earth_t := ray_sphere_intersection shadow_ray EARTH_RADIUS in
  if (earth_t <? F32.zero)%f32 then
    let t := ray_sphere_intersection shadow_ray ATMOSPHERE_RADIUS in
    match run_transmittance pf (atmosphere scene) (sampler, snd st) shadow_ray t wl with
    | Some (beam_transmittance, st) => Some (shadow_ray_dir, beam_transmittance, L, st)
    | None => None
    end
  else Some (shadow_ray_dir, F32.lit 0.0, L, (sampler, snd st)).

Definition TransmittanceIntegrator_Li (pf : Platform) (scene : Scene) (st : Drawn)
    (ray : Ray) (wl : F32.float) : option (F32.float * Drawn) :=
  let '(t_max, intersected_earth) := scene_intersect ray in
  if (t_max <? F32.zero)%f32 then Some (F32.lit 0.0, st)
  else run_transmittance pf (atmosphere scene) st ray t_max wl.

(** [glm::normalize] ([v * inversesqrt(dot(v, v))], the inverse square
    root being [1 / sqrt]) and [glm::cross]. *)
Definition normalize (v : vec3) : vec3 :=
  glm.vscale v (F32.one / F32.sqrtf (glm.dot v v))%f32.

Definition cross (a b : vec3) : vec3 :=
  Vec3 (glm.y a * glm.z b - glm.y b * glm.z a)%f32
       (glm.z a * glm.x b - glm.z b * glm.x a)%f32
       (glm.x a * glm.y b - glm.x b * glm.y a)%f32.

Definition fabsf (x : F32.float) : F32.float := SFabs x.

(** Where an iteration of the loop of [PathTracingIntegrator::Li] ends:
    at a [break], or at the end of the body with the next ray. *)
Inductive Path : Type :=
  | Break (L : F32.float) (st : Drawn)
  | Next (ray : Ray) (L throughput : F32.float) (st : Drawn).

(** The reflection at the ground: the direct light and the next ray. *)
Definition surface_interaction (pf : Platform) (scene : Scene)
    (_only_ms : bool) (order : Z) (ray : Ray) (t_max wl L throughput : F32.float)
    (st : Drawn) : option (Ray * F32.float * F32.float * Drawn) :=
  let bsdf := (ground_albedo scene * M_INV_PI)%f32 in
  let shading_point := glm.vadd (Ray.o ray) (glm.vscale (Ray.d ray) t_max) in
  let n := normalize (glm.vsub shading_point EARTH_CENTER) in
  let shading_point := glm.vadd shading_point n in
  match sample_sun pf scene st shading_point wl with
  | None => None
  | Some (shadow_ray_dir, beam_transmittance, sun_L, st) =>
      let ndotl := glm.dot n shadow_ray_dir in
      let L :=
        if negb _only_ms || (order >? 1)
        then (L + throughput * sun_L * bsdf * beam_transmittance * ndotl)%f32
        else L in
      let throughput := (throughput * bsdf)%f32 in
      let '(uv, sampler) := next_2d (x_first_of pf) (fst st) in
      let wi := sample_cosine_weighted_hemisphere (trig_of pf) uv in
      let t :=
        if (fabsf (glm.x n) >? fabsf (glm.y n))%f32 then
          let inv_len :=
            (F32.one / F32.sqrtf (glm.x n * glm.x n + glm.z n * glm.z n))%f32 in
          Vec3 (glm.z n * inv_len)%f32 (F32.lit 0.0) (- glm.x n * inv_len)%f32
        else
          let inv_len :=
            (F32.one / F32.sqrtf (glm.y n * glm.y n + glm.z n * glm.z n))%f32 in
          Vec3 (F32.lit 0.0) (glm.z n * inv_len)%f32 (- glm.y n * inv_len)%f32 in
      let s := cross t n in
      let wi :=
        normalize (glm.vadd (glm.vadd (glm.vscale s (glm.x wi))
                                      (glm.vscale t (glm.y wi)))
                            (glm.vscale n (glm.z wi))) in
      Some (Ray.mk shading_point wi, L, throughput, (sampler, snd st))
  end.

(** The collision in the medium: an absorption, which ends the path, or
    a scattering with the direct light and the next ray. *)
Inductive Collision : Type :=
  | Absorbed (st : Drawn)
  | Scattered (ray : Ray) (L : F32.float) (st : Drawn).

Definition medium_interaction (pf : Platform) (scene : Scene)
    (_only_ms : bool) (order : Z) (ray : Ray) (interaction_point : vec3)
    (wl L throughput : F32.float) (st : Drawn) : option Collision :=
  let atm := atmosphere scene in
  let scattering_albedo :=
    get_scattering_albedo atm (height_at_point interaction_point) wl in
  let '(u, sampler) := Sampler.next_1d (fst st) in
  if (u <? scattering_albedo)%f32 then
    match sample_sun pf scene (sampler, snd st) interaction_point wl with
    | None => None
    | Some (shadow_ray_dir, beam_transmittance, sun_L, st) =>
        let '(sample, sampler) := Sampler.next_1d (fst st) in
        let phase :=
          phase_eval atm interaction_point sample (glm.vneg (Ray.d ray))
                     shadow_ray_dir wl in
        let L :=
          if negb _only_ms || (order >? 1)
          then (L + throughput * sun_L * phase * beam_transmittance
                    * scattering_albedo)%f32
          else L in
        let '(uv, sampler) := next_2d (x_first_of pf) sampler in
        let wi := sample_uniform_sphere (trig_of pf) uv in
        Some (Scattered (Ray.mk interaction_point wi) L (sampler, snd st))
    end
  else Some (Absorbed (sampler, snd st)).

(** Russian roulette and the test of the throughput that close the body
    of the loop. *)
Definition path_roulette (order : Z) (ray : Ray) (L throughput : F32.float)
    (st : Drawn) : Path :=
  let continue_with throughput st :=
    if (throughput <=? F32.zero)%f32 then Break L st
    else Next ray L throughput st in
  if order >? 5 then
    let q := F32.fmaxf (F32.lit 0.05) (F32.one - throughput)%f32 in
    let '(u, sampler) := Sampler.next_1d (fst st) in
    if (u <? q)%f32 then Break L (sampler, snd st)
    else continue_with (throughput / (F32.one - q))%f32 (sampler, snd st)
  else continue_with throughput st.

(** One iteration.  [interaction_point] is the value the uninitialized
    local happens to hold; it is read only after [sample_interaction]
    has written it. *)
Definition path_step (pf : Platform) (scene : Scene) (_only_ms : bool)
    (interaction_point : vec3) (order : Z) (ray : Ray)
    (wl L throughput : F32.float) (st : Drawn) : option Path :=
  let '(t_max, intersected_earth) := scene_intersect ray in
  if (t_max <? F32.zero)%f32
  then Some (Break (L + sample_background ray wl)%f32 st)
  else
    match run_sample_interaction pf (atmosphere scene) st ray t_max wl
                                 interaction_point with
    | None => None
    | Some (t, interaction_point, st) =>
        if (t <? F32.zero)%f32 then
          if negb intersected_earth
          then Some (Break (L + sample_background ray wl)%f32 st)
          else
            match surface_interaction pf scene _only_ms order ray t_max wl
                                      L throughput st with
            | None => None
            | Some (ray, L, throughput, st) =>
                Some (path_roulette order ray L throughput st)
            end
        else
          match medium_interaction pf scene _only_ms order ray interaction_point
                                   wl L throughput st with
          | None => None
          | Some (Absorbed st) => Some (Break L st)
          | Some (Scattered ray L st) =>
              Some (path_roulette order ray L throughput st)
          end
    end.

(** [for (int order = 1; order <= _max_order; ++order)]: [n] bounds the
    iterations left; the increment of [order] is checked. *)
Fixpoint path_loop (pf : Platform) (scene : Scene) (_max_order : Z)
    (_only_ms : bool) (interaction_point : vec3) (wl : F32.float) (n : nat)
    (order : Z) (ray : Ray) (L throughput : F32.float) (st : Drawn)
  : option (F32.float * Drawn) :=
  if order <=? _max_order then
    match n with
    | O => None
    | S n' =>
        match path_step pf scene _only_ms interaction_point order ray wl
                        L throughput st with
        | None => None
        | Some (Break L st) => Some (L, st)
        | Some (Next ray L throughput st) =>
            order <- Int.add order 1 ;;
            path_loop pf scene _max_order _only_ms interaction_point wl n'
                      order ray L throughput st
        end
    end
  else Some (L, st).

Definition PathTracingIntegrator_Li (pf : Platform) (_max_order : Z) (_only_ms : bool)
    (interaction_point : vec3) (scene : Scene) (st : Drawn) (ray_ : Ray)
    (wl : F32.float) : option (F32.float * Drawn) :=
  path_loop pf scene _max_order _only_ms interaction_point wl (Z.to_nat _max_order)
            1 ray_ (F32.lit 0.0) F32.one st.

(* ------------------------------------------------------------------ *)
(** ** src/src/renderer.hxx, src/src/renderer.cxx: pixels *)

(** The virtual [Integrator::Li] (integrator.hxx is not among the
    sources; the two integrators above are its implementations). *)
Definition Integrator : Type :=
  Scene -> Drawn -> Ray -> F32.float -> option (F32.float * Drawn).

(** The members of [Renderer] that rendering reads; [_buffer] is
    threaded through the functions that write it. *)
Record Renderer : Type := mkRenderer {
  _image_width : Z;
  _image_height : Z;
  _tile_width : Z;
  _tile_height : Z;
  _wavelength : F32.float;
  _samples_per_pixel : Z;
  _inv_image_size : vec2.t;
  _scene : Scene;
  _integrator : Integrator
}.

(** The samples of one pixel: the loop of [render_pixel]. *)
Fixpoint render_pixel_loop (x_first : bool) (r : Renderer) (pixel_coord : vec2.t)
    (wl : F32.float) (n : nat) (accum : F32.float) (st : Drawn)
  : option (F32.float * Drawn) :=
  match n with
  | O => Some (accum, st)
  | S n' =>
      let '(xi, sampler) := next_2d x_first (fst st) in
      let uv := vec2.mul (vec2.add pixel_coord xi) (_inv_image_size r) in
      match sample_ray (camera (_scene r)) uv with
      | None => render_pixel_loop x_first r pixel_coord wl n' accum (sampler, snd st)
      | Some ray =>
          match _integrator r (_scene r) (sampler, snd st) ray wl with
          | None => None
          | Some (Li, st) =>
              render_pixel_loop x_first r pixel_coord wl n' (accum + Li)%f32 st
          end
      end
  end.

Definition render_pixel (x_first : bool) (r : Renderer) (st : Drawn)
    (x y : Z) (wl : F32.float) : option (F32.float * Drawn) :=
  let pixel_coord := vec2.mk (F32.of_Z x) (F32.of_Z y) in
  match render_pixel_loop x_first r pixel_coord wl
          (Z.to_nat (_samples_per_pixel r)) (F32.lit 0.0) st with
  | None => None
  | Some (accum, st) => Some ((accum / F32.of_Z (_samples_per_pixel r))%f32, st)
  end.

(** [v[i] = value] on a vector. *)
Fixpoint assign {A : Type} (l : list A) (i : nat) (value : A) : list A :=
  match l, i with
  | [], _ => []
  | _ :: rest, O => value :: rest
  | a :: rest, S i' => a :: assign rest i' value
  end.

(** [y * _image_width + x], computed in [int], as the [size_t] it is
    converted to. *)
Definition pixel_index (_image_width x y : Z) : option Z :=
  a <- Int.mul y _image_width ;; b <- Int.add a x ;; Some (u64 b).

(** [place_pixel]: an index outside the buffer is undefined. *)
Definition place_pixel (_image_width : Z) (buffer : list F32.float)
    (x y : Z) (value : F32.float) : option (list F32.float) :=
  i <- pixel_index _image_width x y ;;
  if i <? Z.of_nat (List.length buffer)
  then Some (assign buffer (Z.to_nat i) value) else None.

(** The radiance an iteration leaves. *)
Definition Path_L (r : Path) : F32.float :=
  match r with
  | Break L _ => L
  | Next _ L _ _ => L
  end.

(* ------------------------------------------------------------------ *)
(** ** src/src/args.hxx, src/src/args.cxx *)

(** The members, each prefixed with [arg_]. *)
Record CommandLineArguments : Type := mkArgs {
  arg_filename : string;
  arg_width : Z;
  arg_height : Z;
  arg_tile_width : Z;
  arg_tile_height : Z;
  arg_wavelength : F32.float;
  arg_integrator : Z;
  arg_samples : Z;
  arg_camera : Z;
  arg_atmospheric_model : Z;
  arg_aerosol_type : string;
  arg_turbidity : F32.float;
  arg_month : Z;
  arg_max_order : Z;
  arg_only_ms : bool;
  arg_albedo : F32.float;
  arg_sun_elevation : F32.float;
  arg_sun_azimuth : F32.float;
  arg_eye_altitude : F32.float
}.

(** The values of the in-class initializers. *)
Definition default_arguments : CommandLineArguments :=
  mkArgs "out.exr" 256 256 32 32 (F32.lit 550.0) 0 512 1 0 "urban" (F32.lit 1.0) 0
         10000 false (F32.lit 0.3) (F32.lit 0.0) (F32.lit 0.0) (F32.lit 0.0).

Definition set_filename (v : string) (a : CommandLineArguments)
  : CommandLineArguments :=
  mkArgs v (arg_width a) (arg_height a) (arg_tile_width a) (arg_tile_height
    a) (arg_wavelength a) (arg_integrator a) (arg_samples a) (arg_camera a)
    (arg_atmospheric_model a) (arg_aerosol_type a) (arg_turbidity a)
    (arg_month a) (arg_max_order a) (arg_only_ms a) (arg_albedo a)
    (arg_sun_elevation a) (arg_sun_azimuth a) (arg_eye_altitude a).
Definition set_width (v : Z) (a : CommandLineArguments)
  : CommandLineArguments :=
  mkArgs (arg_filename a) v (arg_height a) (arg_tile_width a)
    (arg_tile_height a) (arg_wavelength a) (arg_integrator a) (arg_samples
    a) (arg_camera a) (arg_atmospheric_model a) (arg_aerosol_type a)
    (arg_turbidity a) (arg_month a) (arg_max_order a) (arg_only_ms a)
    (arg_albedo a) (arg_sun_elevation a) (arg_sun_azimuth a)
    (arg_eye_altitude a).
Definition set_height (v : Z) (a : CommandLineArguments)
  : CommandLineArguments :=
  mkArgs (arg_filename a) (arg_width a) v (arg_tile_width a)
    (arg_tile_height a) (arg_wavelength a) (arg_integrator a) (arg_samples
    a) (arg_camera a) (arg_atmospheric_model a) (arg_aerosol_type a)
    (arg_turbidity a) (arg_month a) (arg_max_order a) (arg_only_ms a)
    (arg_albedo a) (arg_sun_elevation a) (arg_sun_azimuth a)
    (arg_eye_altitude a).
Definition set_tile_width (v : Z) (a : CommandLineArguments)
  : CommandLineArguments :=
  mkArgs (arg_filename a) (arg_width a) (arg_height a) v (arg_tile_height a)
    (arg_wavelength a) (arg_integrator a) (arg_samples a) (arg_camera a)
    (arg_atmospheric_model a) (arg_aerosol_type a) (arg_turbidity a)
    (arg_month a) (arg_max_order a) (arg_only_ms a) (arg_albedo a)
    (arg_sun_elevation a) (arg_sun_azimuth a) (arg_eye_altitude a).
Definition set_tile_height (v : Z) (a : CommandLineArguments)
  : CommandLineArguments :=
  mkArgs (arg_filename a) (arg_width a) (arg_height a) (arg_tile_width a) v
    (arg_wavelength a) (arg_integrator a) (arg_samples a) (arg_camera a)
    (arg_atmospheric_model a) (arg_aerosol_type a) (arg_turbidity a)
    (arg_month a) (arg_max_order a) (arg_only_ms a) (arg_albedo a)
    (arg_sun_elevation a) (arg_sun_azimuth a) (arg_eye_altitude a).
Definition set_wavelength (v : F32.float) (a : CommandLineArguments)
  : CommandLineArguments :=
  mkArgs (arg_filename a) (arg_width a) (arg_height a) (arg_tile_width a)
    (arg_tile_height a) v (arg_integrator a) (arg_samples a) (arg_camera a)
    (arg_atmospheric_model a) (arg_aerosol_type a) (arg_turbidity a)
    (arg_month a) (arg_max_order a) (arg_only_ms a) (arg_albedo a)
    (arg_sun_elevation a) (arg_sun_azimuth a) (arg_eye_altitude a).
Definition set_integrator (v : Z) (a : CommandLineArguments)
  : CommandLineArguments :=
  mkArgs (arg_filename a) (arg_width a) (arg_height a) (arg_tile_width a)
    (arg_tile_height a) (arg_wavelength a) v (arg_samples a) (arg_camera a)
    (arg_atmospheric_model a) (arg_aerosol_type a) (arg_turbidity a)
    (arg_month a) (arg_max_order a) (arg_only_ms a) (arg_albedo a)
    (arg_sun_elevation a) (arg_sun_azimuth a) (arg_eye_altitude a).
Definition set_samples (v : Z) (a : CommandLineArguments)
  : CommandLineArguments :=
  mkArgs (arg_filename a) (arg_width a) (arg_height a) (arg_tile_width a)
    (arg_tile_height a) (arg_wavelength a) (arg_integrator a) v (arg_camera
    a) (arg_atmospheric_model a) (arg_aerosol_type a) (arg_turbidity a)
    (arg_month a) (arg_max_order a) (arg_only_ms a) (arg_albedo a)
    (arg_sun_elevation a) (arg_sun_azimuth a) (arg_eye_altitude a).
Definition set_camera (v : Z) (a : CommandLineArguments)
  : CommandLineArguments :=
  mkArgs (arg_filename a) (arg_width a) (arg_height a) (arg_tile_width a)
    (arg_tile_height a) (arg_wavelength a) (arg_integrator a) (arg_samples
    a) v (arg_atmospheric_model a) (arg_aerosol_type a) (arg_turbidity a)
    (arg_month a) (arg_max_order a) (arg_only_ms a) (arg_albedo a)
    (arg_sun_elevation a) (arg_sun_azimuth a) (arg_eye_altitude a).
Definition set_atmospheric_model (v : Z) (a : CommandLineArguments)
  : CommandLineArguments :=
  mkArgs (arg_filename a) (arg_width a) (arg_height a) (arg_tile_width a)
    (arg_tile_height a) (arg_wavelength a) (arg_integrator a) (arg_samples
    a) (arg_camera a) v (arg_aerosol_type a) (arg_turbidity a) (arg_month a)
    (arg_max_order a) (arg_only_ms a) (arg_albedo a) (arg_sun_elevation a)
    (arg_sun_azimuth a) (arg_eye_altitude a).
Definition set_aerosol_type (v : string) (a : CommandLineArguments)
  : CommandLineArguments :=
  mkArgs (arg_filename a) (arg_width a) (arg_height a) (arg_tile_width a)
    (arg_tile_height a) (arg_wavelength a) (arg_integrator a) (arg_samples
    a) (arg_camera a) (arg_atmospheric_model a) v (arg_turbidity a)
    (arg_month a) (arg_max_order a) (arg_only_ms a) (arg_albedo a)
    (arg_sun_elevation a) (arg_sun_azimuth a) (arg_eye_altitude a).
Definition set_turbidity (v : F32.float) (a : CommandLineArguments)
  : CommandLineArguments :=
  mkArgs (arg_filename a) (arg_width a) (arg_height a) (arg_tile_width a)
    (arg_tile_height a) (arg_wavelength a) (arg_integrator a) (arg_samples
    a) (arg_camera a) (arg_atmospheric_model a) (arg_aerosol_type a) v
    (arg_month a) (arg_max_order a) (arg_only_ms a) (arg_albedo a)
    (arg_sun_elevation a) (arg_sun_azimuth a) (arg_eye_altitude a).
Definition set_month (v : Z) (a : CommandLineArguments)
  : CommandLineArguments :=
  mkArgs (arg_filename a) (arg_width a) (arg_height a) (arg_tile_width a)
    (arg_tile_height a) (arg_wavelength a) (arg_integrator a) (arg_samples
    a) (arg_camera a) (arg_atmospheric_model a) (arg_aerosol_type a)
    (arg_turbidity a) v (arg_max_order a) (arg_only_ms a) (arg_albedo a)
    (arg_sun_elevation a) (arg_sun_azimuth a) (arg_eye_altitude a).
Definition set_max_order (v : Z) (a : CommandLineArguments)
  : CommandLineArguments :=
  mkArgs (arg_filename a) (arg_width a) (arg_height a) (arg_tile_width a)
    (arg_tile_height a) (arg_wavelength a) (arg_integrator a) (arg_samples
    a) (arg_camera a) (arg_atmospheric_model a) (arg_aerosol_type a)
    (arg_turbidity a) (arg_month a) v (arg_only_ms a) (arg_albedo a)
    (arg_sun_elevation a) (arg_sun_azimuth a) (arg_eye_altitude a).
Definition set_only_ms (v : bool) (a : CommandLineArguments)
  : CommandLineArguments :=
  mkArgs (arg_filename a) (arg_width a) (arg_height a) (arg_tile_width a)
    (arg_tile_height a) (arg_wavelength a) (arg_integrator a) (arg_samples
    a) (arg_camera a) (arg_atmospheric_model a) (arg_aerosol_type a)
    (arg_turbidity a) (arg_month a) (arg_max_order a) v (arg_albedo a)
    (arg_sun_elevation a) (arg_sun_azimuth a) (arg_eye_altitude a).
Definition set_albedo (v : F32.float) (a : CommandLineArguments)
  : CommandLineArguments :=
  mkArgs (arg_filename a) (arg_width a) (arg_height a) (arg_tile_width a)
    (arg_tile_height a) (arg_wavelength a) (arg_integrator a) (arg_samples
    a) (arg_camera a) (arg_atmospheric_model a) (arg_aerosol_type a)
    (arg_turbidity a) (arg_month a) (arg_max_order a) (arg_only_ms a) v
    (arg_sun_elevation a) (arg_sun_azimuth a) (arg_eye_altitude a).
Definition set_sun_elevation (v : F32.float) (a : CommandLineArguments)
  : CommandLineArguments :=
  mkArgs (arg_filename a) (arg_width a) (arg_height a) (arg_tile_width a)
    (arg_tile_height a) (arg_wavelength a) (arg_integrator a) (arg_samples
    a) (arg_camera a) (arg_atmospheric_model a) (arg_aerosol_type a)
    (arg_turbidity a) (arg_month a) (arg_max_order a) (arg_only_ms a)
    (arg_albedo a) v (arg_sun_azimuth a) (arg_eye_altitude a).
Definition set_sun_azimuth (v : F32.float) (a : CommandLineArguments)
  : CommandLineArguments :=
  mkArgs (arg_filename a) (arg_width a) (arg_height a) (arg_tile_width a)
    (arg_tile_height a) (arg_wavelength a) (arg_integrator a) (arg_samples
    a) (arg_camera a) (arg_atmospheric_model a) (arg_aerosol_type a)
    (arg_turbidity a) (arg_month a) (arg_max_order a) (arg_only_ms a)
    (arg_albedo a) (arg_sun_elevation a) v (arg_eye_altitude a).
Definition set_eye_altitude (v : F32.float) (a : CommandLineArguments)
  : CommandLineArguments :=
  mkArgs (arg_filename a) (arg_width a) (arg_height a) (arg_tile_width a)
    (arg_tile_height a) (arg_wavelength a) (arg_integrator a) (arg_samples
    a) (arg_camera a) (arg_atmospheric_model a) (arg_aerosol_type a)
    (arg_turbidity a) (arg_month a) (arg_max_order a) (arg_only_ms a)
    (arg_albedo a) (arg_sun_elevation a) (arg_sun_azimuth a) v.

(** [std::stoi] and [std::stof]: the value, or nothing where they throw
    ([std::invalid_argument], [std::out_of_range]). *)
Record Conversions : Type := mkConversions {
  stoi : string -> option Z;
  stof : string -> option F32.float
}.

(** Conversion of a [float] to [int]: truncation; undefined for a value
    whose integral part is no [int] (also for NaN and the infinities). *)
Definition float_to_int (x : F32.float) : option Z :=
  match x with
  | S754_zero _ => Some 0
  | S754_finite s m e =>
      let n := match e with
               | Zneg p => Z.quot (Zpos m) (2 ^ Zpos p)
               | _ => Zpos m * 2 ^ e
               end in
      Int.checked (if s then - n else n)
  | _ => None
  end.

(** What [print_help] and [list_aerosol_types] write before the program
    exits. *)
Inductive Printed : Type :=
  | Help (arg0 : string)
  | AerosolTypes.

(** How [parse_args] ends. *)
Inductive Parse : Type :=
  | Parsed (a : CommandLineArguments) (filename_given : bool)
  | Exited (printed : Printed)
  | RuntimeError (what : string)
  | ConversionError (value : string)
  | UndefinedConversion (value : F32.float).

(** [if (++i >= argc) throw ...; else member = conversion(argv[i]);] *)
Definition int_argument (cv : Conversions) (name : string) (rest : list string)
    (k : Z -> list string -> Parse) : Parse :=
  match rest with
  | [] => RuntimeError (name ++ " needs an argument")
  | value :: rest' =>
      match stoi cv value with
      | Some n => k n rest'
      | None => ConversionError value
      end
  end.

Definition float_argument (cv : Conversions) (name : string) (rest : list string)
    (k : F32.float -> list string -> Parse) : Parse :=
  match rest with
  | [] => RuntimeError (name ++ " needs an argument")
  | value :: rest' =>
      match stof cv value with
      | Some x => k x rest'
      | None => ConversionError value
      end
  end.

Definition string_argument (name : string) (rest : list string)
    (k : string -> list string -> Parse) : Parse :=
  match rest with
  | [] => RuntimeError (name ++ " needs an argument")
  | value :: rest' => k value rest'
  end.

(** [arg[0] != '-']; the first character of an empty string is the
    terminating null character. *)
Definition not_an_option (arg : string) : bool :=
  match arg with
  | String c _ => negb (Ascii.eqb c "-")
  | EmptyString => true
  end.

Local Open Scope string_scope.

(** The loop of [parse_args] over [argv[i]], [argv[i + 1]], ... *)
Fixpoint parse_loop (cv : Conversions) (arg0 : string) (argv : list string)
    (a : CommandLineArguments) (filename_given : bool) {struct argv} : Parse :=
  match argv with
  | [] => Parsed a filename_given
  | arg :: rest =>
    let continue a rest := parse_loop cv arg0 rest a filename_given in
    if arg =? "--help" then Exited (Help arg0)
    else if (arg =? "--width") || (arg =? "-w") then
      int_argument cv "--width" rest (fun n => continue (set_width n a))
    else if (arg =? "--height") || (arg =? "-h") then
      int_argument cv "--height" rest (fun n => continue (set_height n a))
    else if (arg =? "--tile-width") || (arg =? "-tw") then
      int_argument cv "--tile-width" rest (fun n => continue (set_tile_width n a))
    else if (arg =? "--tile-height") || (arg =? "-th") then
      int_argument cv "--tile-height" rest (fun n => continue (set_tile_height n a))
    else if (arg =? "--wavelength") || (arg =? "-l") then
      float_argument cv "--wavelength" rest (fun x => continue (set_wavelength x a))
    else if (arg =? "--integrator") || (arg =? "-i") then
      int_argument cv "--integrator" rest (fun n => continue (set_integrator n a))
    else if (arg =? "--samples") || (arg =? "-s") then
      int_argument cv "--samples" rest (fun n => continue (set_samples n a))
    else if (arg =? "--camera") || (arg =? "-c") then
      int_argument cv "--camera" rest (fun n => continue (set_camera n a))
    else if arg =? "--atmospheric-model" then
      int_argument cv "--atmospheric-model" rest
        (fun n => continue (set_atmospheric_model n a))
    else if arg =? "--aerosol-type" then
      string_argument "--aerosol-type" rest (fun s => continue (set_aerosol_type s a))
    else if arg =? "--list-aerosol-types" then Exited AerosolTypes
    else if arg =? "--turbidity" then
      float_argument cv "--turbidity" rest (fun x => continue (set_turbidity x a))
    else if arg =? "--month" then
      float_argument cv "--month" rest (fun x rest =>
        match float_to_int x with
        | Some n => continue (set_month n a) rest
        | None => UndefinedConversion x
        end)
    else if (arg =? "--max-order") || (arg =? "-o") then
      int_argument cv "--max-order" rest (fun n => continue (set_max_order n a))
    else if arg =? "--only-ms" then continue (set_only_ms true a) rest
    else if arg =? "--albedo" then
      float_argument cv "--albedo" rest (fun x => continue (set_albedo x a))
    else if arg =? "--elevation" then
      float_argument cv "--elevation" rest (fun x => continue (set_sun_elevation x a))
    else if arg =? "--azimuth" then
      float_argument cv "--azimuth" rest (fun x => continue (set_sun_azimuth x a))
    else if (arg =? "--eye-altitude") || (arg =? "-a") then
      float_argument cv "--eye-altitude" rest (fun x => continue (set_eye_altitude x a))
    else if not_an_option arg then
      if filename_given then RuntimeError "Only one output filename allowed"
      else parse_loop cv arg0 rest (set_filename arg a) true
    else
      RuntimeError ("Unknown option '" ++ arg
                    ++ "'. Use --help to see all available options")
  end.

(** [parse_args(argc, argv)] on an object [a]: [argv[0]] is the program
    name. *)
Definition parse_args (cv : Conversions) (a : CommandLineArguments)
    (argv : list string) : Parse :=
  parse_loop cv (hd "" argv) (tl argv) a false.

(** The options that take an argument, each with the name its error
    message uses, and the others. *)
Definition options_with_argument : list (string * string) :=
  [("--width", "--width"); ("-w", "--width");
   ("--height", "--height"); ("-h", "--height");
   ("--tile-width", "--tile-width"); ("-tw", "--tile-width");
   ("--tile-height", "--tile-height"); ("-th", "--tile-height");
   ("--wavelength", "--wavelength"); ("-l", "--wavelength");
   ("--integrator", "--integrator"); ("-i", "--integrator");
   ("--samples", "--samples"); ("-s", "--samples");
   ("--camera", "--camera"); ("-c", "--camera");
   ("--atmospheric-model", "--atmospheric-model");
   ("--aerosol-type", "--aerosol-type");
   ("--turbidity", "--turbidity");
   ("--month", "--month");
   ("--max-order", "--max-order"); ("-o", "--max-order");
   ("--albedo", "--albedo");
   ("--elevation", "--elevation");
   ("--azimuth", "--azimuth");
   ("--eye-altitude", "--eye-altitude"); ("-a", "--eye-altitude")].

Definition options_without_argument : list string :=
  ["--help"; "--list-aerosol-types"; "--only-ms"].


Definition known_options : list string :=
  options_without_argument ++ map fst options_with_argument.


Local Close Scope string_scope.

(* ------------------------------------------------------------------ *)
(** ** Further inputs used in the examples *)

(** A homogeneous medium that only scatters, isotropically: extinction
    and scattering [sigma] at every height, and [get_max_extinction]
    overridden to return [majorant]. *)
Definition uniform_medium (sigma majorant : F32.float) : Atmosphere :=
  mkAtmosphere
    (fun _ _ _ _ _ => M_INV_4PI)
    (fun _ _ => F32.zero)
    (fun _ _ => sigma)
    (fun _ _ => sigma)
    (fun _ c => (majorant, c))
    (AtmosphereBase.get_scattering_albedo (fun _ _ => F32.zero) (fun _ _ => sigma)).

(** A light of radiance 1 at the zenith, whatever the sample. *)
Definition light_zenith : LightSource :=
  mkLightSource (fun _ => F32.one)
                (fun _ _ => (F32.one, Vec3 F32.zero F32.zero F32.one)).

(** A camera that rejects every sample, and one that looks at the
    zenith from sea level. *)
Definition camera_blind : Camera := mkCamera (fun _ => None).
Definition camera_zenith : Camera := mkCamera (fun _ => Some ray_zenith).

(** Coarse [cosf] and [sinf]: the values at zero. *)
Definition trig_coarse : Trig := mkTrig (fun _ => F32.one) (fun _ => F32.zero).

Definition platform_example : Platform := mkPlatform libm_coarse trig_coarse 64 true.

Definition scene_example : Scene :=
  mkScene (uniform_medium (F32.lit 1e-4) (F32.lit 2e-4)) camera_zenith light_zenith
          (F32.lit 0.3).

Definition drawn_example : Drawn := (Sampler.new 0 1, cache_init).

(** Decimal conversion of the few strings the examples use. *)
Definition conversions_example : Conversions :=
  mkConversions
    (fun s => if String.eqb s "64" then Some 64
              else if String.eqb s "128" then Some 128 else None)
    (fun s => if String.eqb s "490" then Some (F32.lit 490) else None).

(** A renderer of single samples over [scene_example] with the path
    tracer, and the same with a camera that rejects every sample. *)
Definition renderer_example (samples : Z) (cam : Camera) (integrator : Integrator)
  : Renderer :=
  mkRenderer 4 4 2 2 (F32.lit 550) samples
    (vec2.mk (F32.one / F32.of_Z 4)%f32 (F32.one / F32.of_Z 4)%f32)
    (mkScene (uniform_medium (F32.lit 1e-4) (F32.lit 2e-4)) cam light_zenith
             (F32.lit 0.3))
    integrator.

(* ================================================================== *)
(** * Properties *)

(** Statements about one concrete input are settled by running the
    model. *)
Ltac by_evaluation := vm_compute; repeat split; reflexivity.

(** ** The kernels on known values *)

(** 0.1f is 0x3DCCCCCD, sqrtf(2.0f) is 0x3FB504F3, and the double
    literal 0.8 converts to 0x3F4CCCCD. *)
Example lit_tenth : F32.lit 0.1 = S754_finite false 13421773 (-27).
Proof. by_evaluation. Qed.

Example sqrtf_two : F32.sqrtf two = S754_finite false 11863283 (-23).
Proof. by_evaluation. Qed.

Example double_literal_to_float :
  F64.to_float (F64.lit 0.8) = S754_finite false 13421773 (-24).
Proof. by_evaluation. Qed.

(** The first two outputs of the generator seeded with state 42 and
    sequence 54 are those of the PCG reference implementation,
    0xa15c02b7 and 0x7b47f409. *)
Example pcg32_reference_outputs :
  let g := pcg32.seed 42 54 in
  fst (pcg32.next_uint g) = 2707161783 /\
  fst (pcg32.next_uint (snd (pcg32.next_uint g))) = 2068313097.
Proof. by_evaluation. Qed.

(** Interpolation at a key, between two keys, and outside the table. *)
Example lut_lerp_gamma :
  lut_lerp gamma_lut (F32.lit 550) = F32.lit 0.01442 /\
  lut_lerp gamma_lut (F32.lit 100) = F32.lit 0.02326 /\
  lut_lerp gamma_lut (F32.lit 5000) = F32.lit 0.01384 /\
  (F32.lit 0.02100 <? lut_lerp gamma_lut (F32.lit 207))%f32 = true /\
  (lut_lerp gamma_lut (F32.lit 207) <? F32.lit 0.02241)%f32 = true.
Proof. by_evaluation. Qed.

(** ** Geometry *)

(** Whatever the ray, when [scene_intersect] takes the branch "outside
    the atmosphere, atmosphere hit, ground missed" its result is the
    value [ray_sphere_intersection] gave for the atmosphere sphere from
    the original origin. *)
Lemma scene_intersect_outside_branch (ray : Ray) :
  (glm.z (Ray.o ray) >=? ATMOSPHERE_THICKNESS)%f32 = true ->
  (ray_sphere_intersection ray ATMOSPHERE_RADIUS <? F32.zero)%f32 = false ->
  (ray_sphere_intersection ray EARTH_RADIUS <? F32.zero)%f32 = true ->
  scene_intersect ray = (ray_sphere_intersection ray ATMOSPHERE_RADIUS, false).
Proof.
  intros Hout Hatm Hearth. unfold scene_intersect.
  rewrite Hout, Hatm, Hearth. reflexivity.
Qed.

(** C1 (evaluation at a failing input).  The ray [ray_grazing] starts
    above the atmosphere, hits the atmosphere sphere and misses the
    ground.  With [b] and [dd] the half linear coefficient and the
    discriminant of the atmosphere-sphere equation, [scene_intersect]
    returns the near root [-b - sqrt dd], the distance at which the ray
    enters the atmosphere, with the ground flag false; the exit distance
    [-b + sqrt dd] is strictly larger. *)
Theorem scene_intersect_grazing_returns_entry :
  let oc := glm.vsub (Ray.o ray_grazing) EARTH_CENTER in
  let b := glm.dot oc (Ray.d ray_grazing) in
  let c := (glm.dot oc oc - ATMOSPHERE_RADIUS * ATMOSPHERE_RADIUS)%f32 in
  let dd := (b * b - c)%f32 in
  (glm.z (Ray.o ray_grazing) >=? ATMOSPHERE_THICKNESS)%f32 = true /\
  (ray_sphere_intersection ray_grazing ATMOSPHERE_RADIUS >=? F32.zero)%f32 = true /\
  (ray_sphere_intersection ray_grazing EARTH_RADIUS <? F32.zero)%f32 = true /\
  scene_intersect ray_grazing = ((- b - F32.sqrtf dd)%f32, false) /\
  (- b - F32.sqrtf dd <? - b + F32.sqrtf dd)%f32 = true /\
  fst (scene_intersect ray_grazing) = S754_finite false 15043311 (-4) /\
  (- b + F32.sqrtf dd)%f32 = S754_finite false 11182212 (-2).
Proof. by_evaluation. Qed.

(** C4 (evaluation at a failing input).  For the observer at sea level
    looking at the zenith and the ground sphere: the origin is on the
    sphere ([c] is zero), the ray points away from it ([b] is positive),
    and [ray_sphere_intersection] returns -12742000, a negative value
    that is not the sentinel -1. *)
Theorem ray_sphere_intersection_zenith_from_ground :
  let oc := glm.vsub (Ray.o ray_zenith) EARTH_CENTER in
  let b := glm.dot oc (Ray.d ray_zenith) in
  let c := (glm.dot oc oc - EARTH_RADIUS * EARTH_RADIUS)%f32 in
  glm.dot (Ray.d ray_zenith) (Ray.d ray_zenith) = F32.one /\
  c = F32.zero /\
  (b >? F32.zero)%f32 = true /\
  ray_sphere_intersection ray_zenith EARTH_RADIUS = F32.lit (-12742000) /\
  (ray_sphere_intersection ray_zenith EARTH_RADIUS <? F32.zero)%f32 = true /\
  (ray_sphere_intersection ray_zenith EARTH_RADIUS ==? - F32.one)%f32 = false.
Proof. by_evaluation. Qed.

(** ** The majorant *)

(** The constructor builds [atmosphere_molecular] for January and the
    aerosol type "none", and prints nothing. *)
Lemma atmosphere_molecular_constructed (libm : Libm) (src : AerosolSources) :
  GuimeraAtmosphere_new libm src 0 F32.one "none" = (atmosphere_molecular, []).
Proof. reflexivity. Qed.

(** C2 (evaluation at a failing input).  January, no aerosol, wavelength
    300 nm, first call (empty cache): [get_max_extinction] returns the
    extinction at ground level, 11098348 * 2^-36 (1.615e-4 per metre);
    at the height of 20 km, inside the atmosphere, the extinction is
    15797749 * 2^-36 (2.299e-4 per metre), strictly greater. *)
Theorem get_max_extinction_below_extinction_at_20km :
  let atm := GuimeraAtmosphere_vtable atmosphere_molecular in
  let wl := F32.lit 300 in
  let h := F32.lit 20000 in
  (F32.zero <=? h)%f32 = true /\
  (h <=? ATMOSPHERE_THICKNESS)%f32 = true /\
  fst (get_max_extinction atm wl cache_init) = get_extinction atm (F32.lit 0) wl /\
  fst (get_max_extinction atm wl cache_init) = S754_finite false 11098348 (-36) /\
  get_extinction atm h wl = S754_finite false 15797749 (-36) /\
  (fst (get_max_extinction atm wl cache_init) <? get_extinction atm h wl)%f32 = true.
Proof. by_evaluation. Qed.

(** ** Floating-point addition *)


(** ** Extinction, absorption and scattering *)



(** ** Phase function selection *)

(** C5.  With an aerosol, [phase_eval] returns the value of the molecular
    phase function when the sample is below the ratio of molecular to
    total scattering at the point, and the value of the aerosol phase
    function otherwise; without an aerosol it returns the molecular
    value.  (The hypothesis of the claim that the total scattering is
    positive is not needed.) *)
Theorem phase_eval_selects_lobe
    (a : GuimeraAtmosphere) (p : vec3) (sample : F32.float) (wo wi : vec3)
    (wl : F32.float) :
  let molecular := PhaseFunction_p (_phase_molecular a) wo wi wl in
  let aerosol := PhaseFunction_p (_phase_aerosol a) wo wi wl in
  match _aerosol a with
  | None => Guimera.phase_eval a p sample wo wi wl = molecular
  | Some aer =>
      let ms := Guimera.get_molecular_scattering a (height_at_point p) wl in
      let as_ := AerosolBase.get_scattering aer (height_at_point p) wl in
      ((sample <? ms / (ms + as_))%f32 = true ->
       Guimera.phase_eval a p sample wo wi wl = molecular) /\
      ((sample <? ms / (ms + as_))%f32 = false ->
       Guimera.phase_eval a p sample wo wi wl = aerosol)
  end.
Proof.
  unfold Guimera.phase_eval. destruct (_aerosol a) as [aer |]; cbv zeta.
  - split; intros ->; reflexivity.
  - reflexivity.
Qed.

(** ** Construction *)

Lemma aerosol_of_name_unrecognized (aerosol_type : string) :
  ~ In aerosol_type recognized_aerosol_types ->
  String.eqb aerosol_type "none" = false /\ aerosol_of_name aerosol_type = None.
Proof.
  intros Hn. unfold recognized_aerosol_types in Hn. cbn [In] in Hn.
  assert (Hne : forall s : string,
             (s = aerosol_type -> False) -> String.eqb aerosol_type s = false).
  { intros s Hs. apply String.eqb_neq. intros E. apply Hs. symmetry. exact E. }
  unfold aerosol_of_name.
  rewrite !Hne by (intros E; apply Hn; tauto). split; reflexivity.
Qed.

(** C8.  The constructor returns an object for every input.  When the
    aerosol type is none of the ten recognized names, the object has no
    aerosol and the unknown-type diagnostic is printed; when the month is
    outside 0..11, the object's month is 0 and the invalid-month
    diagnostic is printed. *)
Theorem GuimeraAtmosphere_new_recovers
    (libm : Libm) (src : AerosolSources)
    (month : Z) (turbidity : F32.float) (aerosol_type : string) :
  let atm := fst (GuimeraAtmosphere_new libm src month turbidity aerosol_type) in
  let printed := snd (GuimeraAtmosphere_new libm src month turbidity aerosol_type) in
  (~ In aerosol_type recognized_aerosol_types ->
   _aerosol atm = None /\ In (UnknownAerosolType aerosol_type) printed) /\
  (month < 0 \/ 11 < month ->
   _month atm = 0 /\ In (InvalidMonth month) printed).
Proof.
  cbv zeta. unfold GuimeraAtmosphere_new. split.
  - intros Hn. destruct (aerosol_of_name_unrecognized _ Hn) as [-> ->].
    destruct ((month <? 0) || (month >? 11)); cbn; auto.
  - intros Hm.
    assert (E : (month <? 0) || (month >? 11) = true).
    { apply orb_true_iff. destruct Hm; [left | right]; lia. }
    rewrite E.
    destruct (String.eqb aerosol_type "none"); [cbn; auto |].
    destruct (aerosol_of_name aerosol_type); cbn; auto.
Qed.

(** ** Tiles *)

Lemma zseq_length (i : Z) (n : nat) : List.length (zseq i n) = n.
Proof. revert i. induction n as [| n IH]; intros i; cbn; [reflexivity | now rewrite IH]. Qed.

Lemma zseq_In (i : Z) (n : nat) (k : Z) :
  In k (zseq i n) <-> i <= k < i + Z.of_nat n.
Proof.
  revert i. induction n as [| n IH]; intros i; cbn [zseq In].
  - lia.
  - rewrite IH. lia.
Qed.

Section ForLoop.
Context {A : Type}.
Variable body : Z -> list A -> option (list A).
Variable f : Z -> list A.

Lemma for_loop_appends (n : nat) : forall (i : Z) (s : list A),
  (forall k s', i <= k < i + Z.of_nat n -> body k s' = Some (s' ++ f k)) ->
  for_loop n i body s = Some (s ++ flat_map f (zseq i n)).
Proof.
  induction n as [| n IH]; intros i s Hbody.
  - cbn. now rewrite app_nil_r.
  - cbn [for_loop zseq flat_map]. rewrite Hbody by lia. cbn [bind].
    rewrite IH by (intros; apply Hbody; lia).
    now rewrite <- app_assoc.
Qed.
End ForLoop.

Section Counting.
Context {A : Type}.
Variable P : A -> bool.
Variable g : Z -> list A.

Lemma filter_flat_map_nil (n : nat) : forall i : Z,
  (forall k, i <= k < i + Z.of_nat n -> filter P (g k) = []) ->
  filter P (flat_map g (zseq i n)) = [].
Proof.
  induction n as [| n IH]; intros i H; cbn [zseq flat_map]; [reflexivity |].
  rewrite filter_app, H by lia. rewrite IH by (intros; apply H; lia). reflexivity.
Qed.

Lemma filter_flat_map_unique (n : nat) : forall (i star : Z),
  i <= star < i + Z.of_nat n ->
  (forall k, i <= k < i + Z.of_nat n -> k <> star -> filter P (g k) = []) ->
  filter P (flat_map g (zseq i n)) = filter P (g star).
Proof.
  induction n as [| n IH]; intros i star Hs H; [lia |].
  cbn [zseq flat_map]. rewrite filter_app.
  destruct (Z.eq_dec i star) as [-> | Hne].
  - rewrite filter_flat_map_nil by (intros; apply H; lia). now rewrite app_nil_r.
  - rewrite H by lia. cbn [app]. apply IH; [lia |]. intros; apply H; lia.
Qed.

Lemma nth_error_flat_map_rows (w : nat) (n : nat) : forall (i : Z) (k c : nat),
  (forall j, i <= j < i + Z.of_nat n -> List.length (g j) = w) ->
  (k < n)%nat -> (c < w)%nat ->
  nth_error (flat_map g (zseq i n)) (k * w + c) = nth_error (g (i + Z.of_nat k)) c.
Proof.
  induction n as [| n IH]; intros i k c Hlen Hk Hc; [lia |].
  cbn [zseq flat_map]. destruct k as [| k].
  - cbn [Nat.mul Nat.add]. rewrite nth_error_app1 by (rewrite Hlen; lia).
    f_equal. f_equal. lia.
  - rewrite nth_error_app2 by (rewrite Hlen; lia). rewrite Hlen by lia.
    replace (S k * w + c - w)%nat with (k * w + c)%nat by lia.
    rewrite IH by (try lia; intros; apply Hlen; lia). f_equal. f_equal. lia.
Qed.

Lemma flat_map_rows_length (w : nat) (n : nat) : forall i : Z,
  (forall j, i <= j < i + Z.of_nat n -> List.length (g j) = w) ->
  List.length (flat_map g (zseq i n)) = (n * w)%nat.
Proof.
  induction n as [| n IH]; intros i Hlen; cbn [zseq flat_map]; [reflexivity |].
  rewrite length_app, Hlen by lia. rewrite IH by (intros; apply Hlen; lia). lia.
Qed.
End Counting.

Lemma Int_checked_in_range (n : Z) :
  Int.min <= n <= Int.max -> Int.checked n = Some n.
Proof.
  intros H. unfold Int.checked, Int.in_range.
  replace (Int.min <=? n) with true by (symmetry; apply Z.leb_le; lia).
  replace (n <=? Int.max) with true by (symmetry; apply Z.leb_le; lia).
  reflexivity.
Qed.

Lemma Int_max_value : Int.max = 2147483647.
Proof. reflexivity. Qed.
Lemma Int_min_value : Int.min = -2147483648.
Proof. reflexivity. Qed.

(** Number of tiles along one axis, and what it bounds. *)
Lemma tile_count_bounds (w tw : Z) :
  0 < w -> 0 < tw ->
  let n := (w + tw - 1) / tw in
  0 < n /\ (n - 1) * tw < w /\ w <= n * tw /\ n <= w.
Proof.
  intros Hw Htw n.
  pose proof (Z.div_mod (w + tw - 1) tw ltac:(lia)) as E.
  pose proof (Z.mod_pos_bound (w + tw - 1) tw Htw) as B.
  fold n in E. nia.
Qed.

Lemma prepare_tiles_grid (w h tw th : Z) :
  0 < w -> 0 < h -> 0 < tw -> 0 < th ->
  w + tw <= Int.max -> h + th <= Int.max ->
  prepare_tiles w h tw th
  = Some (tile_grid w h tw th (Z.to_nat ((w + tw - 1) / tw))
                              (Z.to_nat ((h + th - 1) / th))).
Proof.
  intros Hw Hh Htw Hth Hx Hy.
  pose proof Int_max_value as Emax. pose proof Int_min_value as Emin.
  destruct (tile_count_bounds w tw Hw Htw) as (Hnx & Hxl & Hxu & Hxw).
  destruct (tile_count_bounds h th Hh Hth) as (Hny & Hyl & Hyu & Hyh).
  set (nx := (w + tw - 1) / tw) in *. set (ny := (h + th - 1) / th) in *.
  unfold prepare_tiles, Int.add, Int.sub, Int.mul, Int.div.
  rewrite (Int_checked_in_range (w + tw)) by lia. cbn [bind].
  rewrite (Int_checked_in_range (w + tw - 1)) by lia. cbn [bind].
  replace (tw =? 0) with false by (symmetry; apply Z.eqb_neq; lia).
  rewrite (Z.quot_div_nonneg (w + tw - 1) tw) by lia. fold nx.
  rewrite (Int_checked_in_range nx) by lia. cbn [bind].
  rewrite (Int_checked_in_range (h + th)) by lia. cbn [bind].
  rewrite (Int_checked_in_range (h + th - 1)) by lia. cbn [bind].
  replace (th =? 0) with false by (symmetry; apply Z.eqb_neq; lia).
  rewrite (Z.quot_div_nonneg (h + th - 1) th) by lia. fold ny.
  rewrite (Int_checked_in_range ny) by lia. cbn [bind].
  unfold tile_grid.
  rewrite (for_loop_appends _
             (fun j => flat_map (fun i => [tile_at w h tw th i j])
                                (zseq 0 (Z.to_nat nx)))); [reflexivity |].
  intros j s Hj.
  apply (for_loop_appends _ (fun i => [tile_at w h tw th i j])).
  intros i s' Hi.
  assert (Hix : i <> nx - 1 -> 0 <= i * tw + tw <= w) by nia.
  assert (Hix' : i = nx - 1 -> w <= i * tw + tw) by nia.
  assert (Hjy : j <> ny - 1 -> 0 <= j * th + th <= h) by nia.
  assert (Hjy' : j = ny - 1 -> h <= j * th + th) by nia.
  assert (Hi0 : 0 <= i * tw <= w) by nia.
  assert (Hj0 : 0 <= j * th <= h) by nia.
  rewrite (Int_checked_in_range (i * tw)) by lia. cbn [bind].
  rewrite (Int_checked_in_range (nx - 1)) by lia. cbn [bind].
  assert (Ex1 : (if i =? nx - 1 then Some w else Int.checked (i * tw + tw))
                = Some (Z.min (i * tw + tw) w)).
  { destruct (Z.eqb_spec i (nx - 1)) as [Ei | Ei].
    - f_equal. lia.
    - rewrite Int_checked_in_range by lia. f_equal. lia. }
  rewrite Ex1. cbn [bind].
  rewrite (Int_checked_in_range (j * th)) by lia. cbn [bind].
  rewrite (Int_checked_in_range (ny - 1)) by lia. cbn [bind].
  assert (Ey1 : (if j =? ny - 1 then Some h else Int.checked (j * th + th))
                = Some (Z.min (j * th + th) h)).
  { destruct (Z.eqb_spec j (ny - 1)) as [Ej | Ej].
    - f_equal. lia.
    - rewrite Int_checked_in_range by lia. f_equal. lia. }
  rewrite Ey1. cbn [bind]. reflexivity.
Qed.

Lemma Tile_contains_iff (t : Tile) (x y : Z) :
  Tile_contains t x y = true <-> x0 t <= x < x1 t /\ y0 t <= y < y1 t.
Proof.
  unfold Tile_contains. rewrite !andb_true_iff, !Z.leb_le, !Z.ltb_lt. lia.
Qed.

Lemma tile_grid_contains_unique (w h tw th : Z) (x y : Z) :
  0 < w -> 0 < h -> 0 < tw -> 0 < th -> 0 <= x < w -> 0 <= y < h ->
  List.length
    (filter (fun t => Tile_contains t x y)
       (tile_grid w h tw th (Z.to_nat ((w + tw - 1) / tw))
                            (Z.to_nat ((h + th - 1) / th)))) = 1%nat.
Proof.
  intros Hw Hh Htw Hth Hx Hy.
  destruct (tile_count_bounds w tw Hw Htw) as (Hnx & Hxl & Hxu & Hxw).
  destruct (tile_count_bounds h th Hh Hth) as (Hny & Hyl & Hyu & Hyh).
  set (nx := (w + tw - 1) / tw) in *. set (ny := (h + th - 1) / th) in *.
  pose proof (Z.div_mod x tw ltac:(lia)) as Ex.
  pose proof (Z.mod_pos_bound x tw Htw) as Bx.
  pose proof (Z.div_mod y th ltac:(lia)) as Ey.
  pose proof (Z.mod_pos_bound y th Hth) as By.
  set (i := x / tw) in *. set (j := y / th) in *.
  assert (Hi : 0 <= i < nx) by nia.
  assert (Hj : 0 <= j < ny) by nia.
  assert (Hcell : forall i' j', 0 <= i' < nx -> 0 <= j' < ny ->
            Tile_contains (tile_at w h tw th i' j') x y = true -> i' = i /\ j' = j).
  { intros i' j' Hi' Hj' Hc. apply Tile_contains_iff in Hc. cbn in Hc. split; nia. }
  assert (Hhere : Tile_contains (tile_at w h tw th i j) x y = true).
  { apply Tile_contains_iff. cbn. split; nia. }
  unfold tile_grid.
  rewrite (filter_flat_map_unique _ _ _ _ j); [| lia |].
  - rewrite (filter_flat_map_unique _ _ _ _ i); [| lia |].
    + cbn [filter]. rewrite Hhere. reflexivity.
    + intros i' Hi' Hne. cbn [filter].
      destruct (Tile_contains (tile_at w h tw th i' j) x y) eqn:E; [| reflexivity].
      apply Hcell in E; [| lia | lia]. tauto.
  - intros j' Hj' Hne. apply filter_flat_map_nil. intros i' Hi'. cbn [filter].
    destruct (Tile_contains (tile_at w h tw th i' j') x y) eqn:E; [| reflexivity].
    apply Hcell in E; [| lia | lia]. tauto.
Qed.

(** C9 (as amended).  For positive image and tile dimensions such that
    [width + tile_width] and [height + tile_height] fit in an [int],
    [prepare_tiles] produces a list of [nx * ny] tiles, row by row; the
    tile of column [i] and row [j] starts at [(i * tile_width,
    j * tile_height)], has the configured width unless it is in the last
    column, where it ends at the image width (and is non-empty and no
    wider than a tile), and likewise for rows; every pixel of the image
    lies in exactly one tile of the list. *)
Theorem prepare_tiles_partition (w h tw th : Z) :
  0 < w -> 0 < h -> 0 < tw -> 0 < th ->
  w + tw <= Int.max -> h + th <= Int.max ->
  let nx := (w + tw - 1) / tw in
  let ny := (h + th - 1) / th in
  exists tiles,
    prepare_tiles w h tw th = Some tiles /\
    List.length tiles = Z.to_nat (nx * ny) /\
    (forall i j, 0 <= i < nx -> 0 <= j < ny ->
       exists t, nth_error tiles (Z.to_nat (j * nx + i)) = Some t /\
         x0 t = i * tw /\ y0 t = j * th /\
         (if i <? nx - 1 then x1 t = x0 t + tw
          else x1 t = w /\ x0 t < w <= x0 t + tw) /\
         (if j <? ny - 1 then y1 t = y0 t + th
          else y1 t = h /\ y0 t < h <= y0 t + th)) /\
    (forall x y, 0 <= x < w -> 0 <= y < h ->
       List.length (filter (fun t => Tile_contains t x y) tiles) = 1%nat).
Proof.
  intros Hw Hh Htw Hth Hx Hy nx ny.
  exists (tile_grid w h tw th (Z.to_nat nx) (Z.to_nat ny)).
  destruct (tile_count_bounds w tw Hw Htw) as (Hnx & Hxl & Hxu & Hxw).
  destruct (tile_count_bounds h th Hh Hth) as (Hny & Hyl & Hyu & Hyh).
  fold nx in Hnx, Hxl, Hxu, Hxw. fold ny in Hny, Hyl, Hyu, Hyh.
  assert (Hrow : forall j, 0 <= j < 0 + Z.of_nat (Z.to_nat ny) ->
            List.length (flat_map (fun i => [tile_at w h tw th i j])
                                  (zseq 0 (Z.to_nat nx))) = Z.to_nat nx).
  { intros j _. rewrite (flat_map_rows_length _ 1) by reflexivity. lia. }
  split; [now apply prepare_tiles_grid |]. split; [| split].
  - unfold tile_grid. rewrite (flat_map_rows_length _ (Z.to_nat nx)) by exact Hrow.
    lia.
  - intros i j Hi Hj. exists (tile_at w h tw th i j). split.
    + unfold tile_grid.
      replace (Z.to_nat (j * nx + i))
        with (Z.to_nat j * Z.to_nat nx + Z.to_nat i)%nat by nia.
      rewrite (nth_error_flat_map_rows _ (Z.to_nat nx)) by (try exact Hrow; lia).
      replace (Z.to_nat i) with (Z.to_nat i * 1 + 0)%nat by lia.
      rewrite (nth_error_flat_map_rows _ 1%nat) by (try reflexivity; lia).
      cbn. do 2 f_equal; lia.
    + cbn. split; [reflexivity |]. split; [reflexivity |].
      destruct (Z.ltb_spec i (nx - 1)); destruct (Z.ltb_spec j (ny - 1)); nia.
  - intros x y Hx' Hy'. now apply tile_grid_contains_unique.
Qed.

(** ** Exact floating-point steps *)

(** ** Mantissas *)

Lemma digits2_pos_size (p : positive) : digits2_pos p = Pos.size p.
Proof. induction p as [p IH | p IH |]; cbn; now rewrite ?IH. Qed.

Lemma digits2_pos_log2 (p : positive) :
  Zpos (digits2_pos p) = Z.log2 (Zpos p) + 1.
Proof.
  rewrite digits2_pos_size. destruct p as [p | p |]; cbn; lia.
Qed.

Lemma iter_pos_iter {A : Type} (f : A -> A) (n : positive) :
  forall x, iter_pos f n x = Pos.iter f x n.
Proof.
  induction n as [n IH | n IH |]; intros x; cbn; [| | reflexivity].
  - rewrite !IH. now rewrite <- !Pos.iter_swap.
  - now rewrite !IH.
Qed.

Lemma Zpos_iter_xO (m n : positive) :
  Zpos (Pos.iter xO m n) = Zpos m * 2 ^ Zpos n.
Proof.
  induction n as [| n IH] using Pos.peano_ind.
  - cbn. lia.
  - rewrite Pos.iter_succ, Pos2Z.inj_xO, IH, Pos2Z.inj_succ, Z.pow_succ_r by lia.
    lia.
Qed.

(** Shifting out [n] zero bits leaves an exact record. *)
Lemma shr_1_exact (n m : positive) :
  iter_pos shr_1 n (Build_shr_record (Zpos (Pos.iter xO m n)) false false)
  = Build_shr_record (Zpos m) false false.
Proof.
  rewrite iter_pos_iter.
  induction n as [| n IH] using Pos.peano_ind.
  - reflexivity.
  - rewrite !Pos.iter_succ, <- Pos.iter_swap. cbn [shr_1 orb]. exact IH.
Qed.

Lemma shr_1_exact_value (n v m : positive) :
  Zpos v = Zpos m * 2 ^ Zpos n ->
  iter_pos shr_1 n (Build_shr_record (Zpos v) false false)
  = Build_shr_record (Zpos m) false false.
Proof.
  intros E. rewrite <- Zpos_iter_xO in E. injection E as ->. apply shr_1_exact.
Qed.

(** ** Rounding a value that needs none (binary32) *)

Lemma fexp32 (e : Z) : fexp 24 128 e = Z.max (e - 24) (-149).
Proof. reflexivity. Qed.

(** A mantissa of exactly 24 bits with an exponent in range is kept. *)
Lemma binary_round_aux_canonical (s : bool) (m : positive) (e : Z) :
  Zpos (digits2_pos m) = 24 -> -149 <= e <= 104 ->
  binary_round_aux 24 128 s (Zpos m) e loc_Exact = S754_finite s m e.
Proof.
  intros Hd He. unfold binary_round_aux, shr_fexp. cbn [Zdigits2].
  rewrite Hd, fexp32. replace (Z.max (24 + e - 24) (-149) - e) with 0 by lia.
  cbn [shr shr_record_of_loc shr_m loc_of_shr_record round_nearest_even Zdigits2].
  rewrite Hd, fexp32. replace (Z.max (24 + e - 24) (-149) - e) with 0 by lia.
  cbn [shr shr_record_of_loc shr_m].
  replace (e <=? 128 - 24) with true by (symmetry; apply Z.leb_le; lia).
  reflexivity.
Qed.

(** A mantissa that is a 24-bit one followed by zero bits is shifted
    back to it. *)
Lemma binary_round_aux_exact (s : bool) (v m : positive) (e e' : Z) :
  e <= e' -> Zpos v = Zpos m * 2 ^ (e' - e) ->
  Zpos (digits2_pos m) = 24 -> -149 <= e' <= 104 ->
  binary_round_aux 24 128 s (Zpos v) e loc_Exact = S754_finite s m e'.
Proof.
  intros Hle Hv Hd He'.
  destruct (Z.eq_dec e e') as [<- | Hne].
  - rewrite Z.sub_diag, Z.pow_0_r, Z.mul_1_r in Hv. injection Hv as ->.
    now apply binary_round_aux_canonical.
  - assert (Hdv : Zpos (digits2_pos v) = 24 + (e' - e)).
    { rewrite digits2_pos_log2, Hv, Z.log2_mul_pow2 by lia.
      rewrite digits2_pos_log2 in Hd. lia. }
    destruct (e' - e) as [| n | n] eqn:En; try lia.
    unfold binary_round_aux, shr_fexp. cbn [Zdigits2].
    rewrite Hdv, fexp32.
    replace (Z.max (24 + Zpos n + e - 24) (-149) - e) with (Zpos n) by lia.
    cbn [shr shr_record_of_loc].
    rewrite (shr_1_exact_value n v m Hv).
    cbn [shr_m loc_of_shr_record round_nearest_even Zdigits2].
    rewrite Hd, fexp32.
    replace (Z.max (24 + (e + Zpos n) - 24) (-149) - (e + Zpos n)) with 0 by lia.
    cbn [shr shr_m].
    replace (e + Zpos n <=? 128 - 24) with true by (symmetry; apply Z.leb_le; lia).
    f_equal. lia.
Qed.

(** [binary_round] of a value that a 24-bit mantissa [m] and an exponent
    [e'] in range represent exactly. *)
Lemma binary_round_exact (s : bool) (v m : positive) (e e' : Z) :
  (e' <= e /\ Zpos m = Zpos v * 2 ^ (e - e')) \/
  (e <= e' /\ Zpos v = Zpos m * 2 ^ (e' - e)) ->
  Zpos (digits2_pos m) = 24 -> -149 <= e' <= 104 ->
  binary_round 24 128 s v e = S754_finite s m e'.
Proof.
  intros Hv Hd He'. unfold binary_round.
  assert (Hf : fexp 24 128 (Zpos (digits2_pos v) + e) = e').
  { rewrite fexp32. rewrite digits2_pos_log2 in Hd |- *.
    destruct Hv as [[Hle Hv] | [Hle Hv]].
    - rewrite Hv, Z.log2_mul_pow2 in Hd by lia. lia.
    - rewrite Hv, Z.log2_mul_pow2 by lia. lia. }
  rewrite Hf. unfold shl_align.
  destruct Hv as [[Hle Hv] | [Hle Hv]].
  - destruct (e' - e) as [| n | n] eqn:En; try lia.
    + replace (e - e') with 0 in Hv by lia.
      rewrite Z.pow_0_r, Z.mul_1_r in Hv. injection Hv as ->.
      replace e with e' by lia. now apply binary_round_aux_canonical.
    + replace (e - e') with (Zpos n) in Hv by lia.
      rewrite <- Zpos_iter_xO in Hv. injection Hv as <-.
      now apply binary_round_aux_canonical.
  - destruct (e' - e) as [| n | n] eqn:En; try lia.
    + apply binary_round_aux_exact; try assumption. now rewrite En.
    + apply binary_round_aux_exact; try assumption. now rewrite En.
Qed.

(** ** Multiples of 2^e with at most 24 significant bits *)

Lemma lead_spec (n : Z) :
  0 < n < 2 ^ 24 -> 0 <= lead n <= 23 /\ 2 ^ 23 <= n * 2 ^ lead n < 2 ^ 24.
Proof.
  intros Hn. unfold lead.
  pose proof (Z.log2_spec n ltac:(lia)) as [Hlo Hhi].
  pose proof (Z.log2_nonneg n) as H0.
  assert (Hl : Z.log2 n < 24).
  { apply Z.log2_lt_pow2; lia. }
  split; [lia |].
  assert (E23 : 2 ^ 23 = 2 ^ Z.log2 n * 2 ^ (23 - Z.log2 n)).
  { rewrite <- Z.pow_add_r by lia. f_equal. lia. }
  assert (E24 : 2 ^ 24 = 2 ^ Z.succ (Z.log2 n) * 2 ^ (23 - Z.log2 n)).
  { rewrite <- Z.pow_add_r by lia. f_equal. lia. }
  assert (Hp : 0 < 2 ^ (23 - Z.log2 n)) by (apply Z.pow_pos_nonneg; lia).
  revert Hlo Hhi E23 E24 Hp.
  generalize (2 ^ (23 - Z.log2 n)) (2 ^ Z.log2 n) (2 ^ Z.succ (Z.log2 n)).
  intros P A B Hlo Hhi E23 E24 Hp. nia.
Qed.

Lemma dyadic24_mantissa (n : Z) :
  0 < n < 2 ^ 24 ->
  Zpos (Z.to_pos (n * 2 ^ lead n)) = n * 2 ^ lead n /\
  Zpos (digits2_pos (Z.to_pos (n * 2 ^ lead n))) = 24.
Proof.
  intros Hn. destruct (lead_spec n Hn) as [Hl Hm].
  assert (E : Zpos (Z.to_pos (n * 2 ^ lead n)) = n * 2 ^ lead n)
    by (apply Z2Pos.id; lia).
  split; [exact E |].
  rewrite digits2_pos_log2, E. rewrite (Z.log2_unique _ 23); lia.
Qed.

(** Conversion of an integer below 2^24 is exact. *)
Lemma of_Z_dyadic24 (k : Z) :
  0 < k < 2 ^ 24 -> F32.of_Z k = dyadic24 k 0.
Proof.
  intros Hk. destruct (lead_spec k Hk) as [Hl Hm].
  destruct (dyadic24_mantissa k Hk) as [Em Ed].
  destruct k as [| p | p]; try lia.
  unfold F32.of_Z, F32.prec, F32.emax, binary_normalize, dyadic24.
  apply binary_round_exact; [| exact Ed | lia].
  left. split; [lia |]. rewrite Em. f_equal. f_equal. lia.
Qed.

(** The scale factor [1.0f / (1 << 24)] is 2^-24. *)
Lemma inv_2_24 :
  (F32.one / F32.of_Z (u32 (Z.shiftl 1 24)))%f32 = S754_finite false 8388608 (-47).
Proof. reflexivity. Qed.

(** Scaling by 2^-24 is exact. *)
Lemma dyadic24_scale (n : Z) :
  0 < n < 2 ^ 24 ->
  (dyadic24 n 0 * S754_finite false 8388608 (-47))%f32 = dyadic24 n (-24).
Proof.
  intros Hn. destruct (lead_spec n Hn) as [Hl Hm].
  destruct (dyadic24_mantissa n Hn) as [Em Ed].
  unfold dyadic24, F32.mul, F32.prec, F32.emax, SFmul. cbn [xorb].
  apply binary_round_aux_exact; [lia | | exact Ed | lia].
  rewrite Pos2Z.inj_mul. f_equal.
  replace (-24 - lead n - (0 - lead n + -47)) with 23 by lia. reflexivity.
Qed.

(** The complement to one is exact. *)
Lemma one_minus_dyadic24 (k : Z) :
  0 < k < 2 ^ 24 ->
  (F32.one - dyadic24 k (-24))%f32 = dyadic24 (2 ^ 24 - k) (-24).
Proof.
  intros Hk. remember (2 ^ 24 - k) as w eqn:Hwdef.
  assert (Hw : 0 < w < 2 ^ 24) by lia.
  destruct (lead_spec k Hk) as [Hl Hm].
  destruct (dyadic24_mantissa k Hk) as [Em Ed].
  destruct (lead_spec w Hw) as [Hlw Hmw].
  destruct (dyadic24_mantissa w Hw) as [Emw Edw].
  unfold dyadic24 at 1. unfold F32.sub, F32.one, F32.prec, F32.emax, SFsub.
  set (E := -24 - lead k).
  replace (Z.min (-23) E) with E by (unfold E; lia).
  assert (Ha : Zpos (fst (shl_align 8388608 (-23) E)) = 2 ^ (24 + lead k)).
  { unfold shl_align. destruct (E - -23) as [| n | n] eqn:En; try (unfold E in En; lia).
    cbn [fst]. rewrite Zpos_iter_xO.
    replace (Zpos n) with (1 + lead k) by (unfold E in En; lia).
    change (Zpos 8388608) with (2 ^ 23). rewrite <- Z.pow_add_r by lia.
    f_equal. lia. }
  assert (Hb : fst (shl_align (Z.to_pos (k * 2 ^ lead k)) E E)
               = Z.to_pos (k * 2 ^ lead k)).
  { unfold shl_align. now rewrite Z.sub_diag. }
  rewrite Ha, Hb. cbn [cond_Zopp]. rewrite Em.
  assert (Ev : 2 ^ (24 + lead k) - k * 2 ^ lead k = w * 2 ^ lead k).
  { rewrite Hwdef, Z.pow_add_r by lia. ring. }
  rewrite Ev.
  assert (Hp : 0 < 2 ^ lead k) by (apply Z.pow_pos_nonneg; lia).
  assert (Hpos : 0 < w * 2 ^ lead k) by (apply Z.mul_pos_pos; lia).
  destruct (w * 2 ^ lead k) as [| v | v] eqn:Ewv; try lia.
  unfold binary_normalize, dyadic24.
  apply binary_round_exact; [| exact Edw | lia].
  rewrite Emw. unfold E.
  destruct (Z_le_gt_dec (lead k) (lead w)) as [Hc | Hc].
  - left. split; [lia |]. rewrite <- Ewv.
    replace (-24 - lead k - (-24 - lead w)) with (lead w - lead k) by lia.
    replace (2 ^ lead w) with (2 ^ lead k * 2 ^ (lead w - lead k))
      by (rewrite <- Z.pow_add_r by lia; f_equal; lia).
    ring.
  - right. split; [lia |]. rewrite <- Ewv.
    replace (-24 - lead w - (-24 - lead k)) with (lead k - lead w) by lia.
    replace (2 ^ lead k) with (2 ^ lead w * 2 ^ (lead k - lead w))
      by (rewrite <- Z.pow_add_r by lia; f_equal; lia).
    ring.
Qed.

(** Order and value of these numbers. *)
Lemma dyadic24_positive (n e : Z) : (F32.zero <? dyadic24 n e)%f32 = true.
Proof. reflexivity. Qed.

Lemma dyadic24_below_one (n : Z) :
  0 < n < 2 ^ 24 -> (dyadic24 n (-24) <? F32.one)%f32 = true.
Proof.
  intros Hn. destruct (lead_spec n Hn) as [Hl _].
  unfold dyadic24, F32.ltb, SFltb, F32.one, SFcompare.
  replace (-24 - lead n ?= -23) with Lt by (symmetry; apply Z.compare_lt_iff; lia).
  reflexivity.
Qed.

Lemma dyadic24_value (n : Z) :
  0 < n < 2 ^ 24 -> (SF2Q (dyadic24 n (-24)) == n # (2 ^ 24))%Q.
Proof.
  intros Hn. destruct (lead_spec n Hn) as [Hl _].
  destruct (dyadic24_mantissa n Hn) as [Em _].
  unfold dyadic24, SF2Q.
  destruct (-24 - lead n) as [| p | p] eqn:Ep; try lia.
  unfold Qeq. cbn [Qnum Qden]. rewrite Em, !Pos2Z.inj_pow.
  replace (Zpos p) with (24 + lead n) by lia.
  rewrite Z.pow_add_r by lia. change (Zpos 2) with 2. change (Zpos 24) with 24. ring.
Qed.

(** ** pcg32 *)

Lemma Z_lor_below_pow2 (a b n : Z) :
  0 <= n -> 0 <= a < 2 ^ n -> 0 <= b < 2 ^ n -> 0 <= Z.lor a b < 2 ^ n.
Proof.
  intros Hn Ha Hb. split; [apply Z.lor_nonneg; lia |].
  destruct (Z.eq_dec (Z.lor a b) 0) as [-> | Hz]; [apply Z.pow_pos_nonneg; lia |].
  assert (Hpos : 0 < Z.lor a b) by (pose proof (proj2 (Z.lor_nonneg a b)); lia).
  apply Z.log2_lt_pow2; [exact Hpos |].
  rewrite Z.log2_lor by lia.
  assert (Hn0 : 0 < n).
  { destruct (Z.eq_dec n 0) as [-> | ]; [| lia].
    replace a with 0 in Hpos by lia. replace b with 0 in Hpos by lia.
    cbn in Hpos. lia. }
  assert (Hlog : forall c, 0 <= c < 2 ^ n -> Z.log2 c < n).
  { intros c Hc. destruct (Z.eq_dec c 0) as [-> | Hc0]; [cbn; lia |].
    apply Z.log2_lt_pow2; lia. }
  apply Z.max_lub_lt; apply Hlog; assumption.
Qed.

Lemma u32_range (n : Z) : 0 <= u32 n < 2 ^ 32.
Proof. unfold u32. apply Z.mod_pos_bound. reflexivity. Qed.

Lemma next_uint_range (g : pcg32.t) : 0 <= fst (pcg32.next_uint g) < 2 ^ 32.
Proof.
  unfold pcg32.next_uint. cbn [fst].
  apply Z_lor_below_pow2; [lia | | apply u32_range].
  set (xs := u32 _). set (rot := u32 (Z.shiftr _ 59)).
  pose proof (u32_range (Z.shiftr (Z.lxor (Z.shiftr (pcg32.state g) 18) (pcg32.state g)) 27)) as Hx.
  pose proof (u32_range (Z.shiftr (pcg32.state g) 59)) as Hr.
  fold xs in Hx. fold rot in Hr.
  rewrite Z.shiftr_div_pow2 by lia.
  assert (Hp : 0 < 2 ^ rot) by (apply Z.pow_pos_nonneg; lia).
  split; [apply Z.div_pos; lia |].
  apply Z.le_lt_trans with xs; [| lia].
  apply Z.div_le_upper_bound; nia.
Qed.

(** What [next_float] returns: zero, or [k * 2^-24] for the top 24 bits
    [k] of the next 32-bit output. *)
Lemma next_float_dyadic (g : pcg32.t) :
  let k := Z.shiftr (fst (pcg32.next_uint g)) 8 in
  0 <= k < 2 ^ 24 /\
  fst (pcg32.next_float g) = (if k =? 0 then F32.zero else dyadic24 k (-24)) /\
  snd (pcg32.next_float g) = snd (pcg32.next_uint g).
Proof.
  pose proof (next_uint_range g) as Hr.
  unfold pcg32.next_float.
  destruct (pcg32.next_uint g) as [r g']. cbn [fst snd] in *.
  remember (Z.shiftr r 8) as k eqn:Ek. cbv zeta.
  assert (Hk : 0 <= k < 2 ^ 24).
  { rewrite Ek, Z.shiftr_div_pow2 by lia. split.
    - apply Z.div_pos; lia.
    - apply Z.div_lt_upper_bound; lia. }
  split; [exact Hk |]. split; [| reflexivity]. rewrite inv_2_24.
  destruct (Z.eqb_spec k 0) as [-> | Hk0]; [reflexivity |].
  rewrite of_Z_dyadic24 by lia. apply dyadic24_scale. lia.
Qed.

(** ** Signs *)

(** Values that compare greater than zero, and values that are finite
    and compare at most zero. *)
Lemma positive_cases (x : F32.float) :
  (F32.zero <? x)%f32 = true ->
  (exists m e, x = S754_finite false m e) \/ x = S754_infinity false.
Proof.
  destruct x as [s | [|] | | [|] m e]; cbn; try discriminate; eauto.
Qed.

Lemma nonpositive_finite_cases (x : F32.float) :
  SFis_finite x = true -> (x <=? F32.zero)%f32 = true ->
  (exists s, x = S754_zero s) \/ (exists m e, x = S754_finite true m e).
Proof.
  destruct x as [s | s | | [|] m e]; cbn; try discriminate; eauto.
Qed.

Lemma shr_1_nonneg (mrs : shr_record) : 0 <= shr_m mrs -> 0 <= shr_m (shr_1 mrs).
Proof.
  destruct mrs as [m r s]. cbn [shr_m]. intros Hm.
  destruct m as [| [p | p |] | p]; cbn; lia.
Qed.

Lemma shr_nonneg (mrs : shr_record) (e n : Z) :
  0 <= shr_m mrs -> 0 <= shr_m (fst (shr mrs e n)).
Proof.
  intros Hm. destruct n as [| p | p]; cbn [shr fst]; try exact Hm.
  rewrite iter_pos_iter. apply Pos.iter_invariant; [| exact Hm].
  intros x Hx. now apply shr_1_nonneg.
Qed.

Lemma shr_fexp_nonneg (prec emax m e : Z) (l : location) :
  0 <= m -> 0 <= shr_m (fst (shr_fexp prec emax m e l)).
Proof.
  intros Hm. unfold shr_fexp. apply shr_nonneg.
  destruct l as [| [| |]]; exact Hm.
Qed.

Lemma round_nearest_even_nonneg (m : Z) (l : location) :
  0 <= m -> 0 <= round_nearest_even m l.
Proof.
  intros Hm. destruct l as [| [| |]]; cbn; try lia. destruct (Z.even m); lia.
Qed.

(** Rounding a non-negative mantissa yields a zero, a finite value or an
    infinity of the sign given. *)
Lemma binary_round_aux_sign (prec emax : Z) (s : bool) (m e : Z) (l : location) :
  0 <= m ->
  (binary_round_aux prec emax s m e l = S754_zero s) \/
  (exists m' e', binary_round_aux prec emax s m e l = S754_finite s m' e') \/
  (binary_round_aux prec emax s m e l = S754_infinity s).
Proof.
  intros Hm. unfold binary_round_aux.
  pose proof (shr_fexp_nonneg prec emax m e l Hm) as H1.
  destruct (shr_fexp prec emax m e l) as [mrs' e']. cbn [fst] in H1.
  pose proof (shr_fexp_nonneg prec emax _ e' loc_Exact
                (round_nearest_even_nonneg _ (loc_of_shr_record mrs') H1)) as H2.
  destruct (shr_fexp prec emax _ e' loc_Exact) as [mrs'' e'']. cbn [fst] in H2.
  destruct (shr_m mrs'') as [| p | p]; [auto | | lia].
  destruct (e'' <=? emax - prec); eauto.
Qed.

Lemma SFdiv_core_binary_nonneg (prec emax : Z) (m1 m2 : positive) (e1 e2 : Z) :
  0 <= fst (fst (SFdiv_core_binary prec emax (Zpos m1) e1 (Zpos m2) e2)).
Proof.
  unfold SFdiv_core_binary.
  set (s := _ - _ - Z.min _ _).
  set (m' := match s with Z0 => Zpos m1 | Zpos _ => Z.shiftl (Zpos m1) s | Zneg _ => 0 end).
  assert (Hm' : 0 <= m').
  { unfold m'. destruct s; try lia. apply Z.shiftl_nonneg. lia. }
  pose proof (Z.div_pos m' (Zpos m2) Hm' ltac:(lia)) as Hq.
  unfold Z.div in Hq. destruct (Z.div_eucl m' (Zpos m2)) as [q r]. exact Hq.
Qed.

(** A finite non-positive value divided by a positive one is a zero, a
    negative finite value or minus infinity. *)
Lemma div_nonpositive_by_positive (l maj : F32.float) :
  SFis_finite l = true -> (l <=? F32.zero)%f32 = true ->
  (F32.zero <? maj)%f32 = true ->
  (exists s, (l / maj)%f32 = S754_zero s) \/
  (exists m e, (l / maj)%f32 = S754_finite true m e) \/
  (l / maj)%f32 = S754_infinity true.
Proof.
  intros Hf Hl Hmaj.
  destruct (nonpositive_finite_cases l Hf Hl) as [[s ->] | (m & e & ->)];
    destruct (positive_cases maj Hmaj) as [(mm & em & ->) | ->];
    try (left; eexists; reflexivity).
  unfold F32.div, SFdiv.
  pose proof (SFdiv_core_binary_nonneg F32.prec F32.emax m mm e em) as Hq.
  destruct (SFdiv_core_binary F32.prec F32.emax (Zpos m) e (Zpos mm) em)
    as [[mz ez] lz]. cbn [fst] in Hq. cbn [xorb].
  destruct (binary_round_aux_sign F32.prec F32.emax true mz ez lz Hq)
    as [-> | [(m' & e' & ->) | ->]]; eauto.
Qed.

(** Subtracting such a quotient from zero gives a value that compares
    at least zero. *)
Lemma zero_minus_nonpositive (q : F32.float) (b : bool) :
  (exists s, q = S754_zero s) \/
  (exists m e, q = S754_finite true m e) \/
  q = S754_infinity true ->
  (F32.zero - q >=? S754_zero b)%f32 = true.
Proof.
  intros [[s ->] | [(m & e & ->) | ->]]; [destruct s | |]; reflexivity.
Qed.

(** A zero extinction is never accepted: a sample that compares at
    least zero is not below [fmaxf(0, 0 / majorant)]. *)
Lemma zero_extinction_rejected (u ext maj : F32.float) :
  (F32.zero <=? u)%f32 = true -> (ext ==? F32.zero)%f32 = true ->
  (F32.zero <? maj)%f32 = true ->
  (u <? F32.fmaxf F32.zero (ext / maj))%f32 = false.
Proof.
  intros Hu Hext Hmaj.
  assert (Hq : exists s, (ext / maj)%f32 = S754_zero s).
  { destruct ext as [s | [|] | | [|] m e]; try discriminate.
    destruct (positive_cases maj Hmaj) as [(mm & em & ->) | ->]; eexists; reflexivity. }
  destruct Hq as [s ->].
  replace (F32.fmaxf F32.zero (S754_zero s)) with F32.zero by (destruct s; reflexivity).
  destruct u as [su | [|] | | [|] m e]; try discriminate; reflexivity.
Qed.

(** What the tracking loops use of a sample [u]. *)
Lemma next_1d_unit_interval (s : Sampler) :
  let u := fst (Sampler.next_1d s) in
  (F32.zero <=? u)%f32 = true /\
  (F32.zero <? F32.one - u)%f32 = true /\
  (F32.one - u <=? F32.one)%f32 = true.
Proof.
  cbv beta zeta delta [Sampler.next_1d Sampler.t Sampler].
  destruct (next_float_dyadic s) as (Hk & -> & _).
  set (k := Z.shiftr _ 8) in *. cbv zeta.
  destruct (Z.eqb_spec k 0) as [_ | Hk0]; [repeat split; reflexivity |].
  rewrite one_minus_dyadic24 by lia.
  split; [reflexivity |]. split; [reflexivity |].
  pose proof (dyadic24_below_one (2 ^ 24 - k) ltac:(lia)) as Hlt.
  unfold F32.leb, F32.ltb, SFleb, SFltb in *.
  destruct (SFcompare _ _) as [[| |] |]; try discriminate; reflexivity.
Qed.

(** C10.  From every generator state, [next_float] returns the finite
    value [k / 2^24] where [k] is the top 24 bits of the next 32-bit
    output, so 0 <= k < 2^24; the value is at least 0, below 1 and not
    equal to 1, and [1.0f - next_float()] is finite and strictly
    positive, so that a [logf] that is finite on finite positive
    arguments is finite on it (the step length of the tracking loops). *)
Theorem next_float_unit_interval (g : pcg32.t) :
  let u := fst (pcg32.next_float g) in
  let k := Z.shiftr (fst (pcg32.next_uint g)) 8 in
  0 <= k < 2 ^ 24 /\
  SFis_finite u = true /\
  (SF2Q u == k # (2 ^ 24))%Q /\
  (F32.zero <=? u)%f32 = true /\
  (u <? F32.one)%f32 = true /\
  (u ==? F32.one)%f32 = false /\
  SFis_finite (F32.one - u)%f32 = true /\
  (F32.zero <? F32.one - u)%f32 = true /\
  (forall libm : Libm,
     (forall x, SFis_finite x = true -> (F32.zero <? x)%f32 = true ->
                SFis_finite (logf libm x) = true) ->
     SFis_finite (logf libm (F32.one - u)%f32) = true).
Proof.
  cbv zeta.
  assert (Hlog : forall x : F32.float,
            SFis_finite x = true /\ (F32.zero <? x)%f32 = true ->
            SFis_finite x = true /\ (F32.zero <? x)%f32 = true /\
            (forall libm : Libm,
               (forall y, SFis_finite y = true -> (F32.zero <? y)%f32 = true ->
                          SFis_finite (logf libm y) = true) ->
               SFis_finite (logf libm x) = true)).
  { intros x [Hf Hp]. repeat split; try assumption. intros libm H. now apply H. }
  destruct (next_float_dyadic g) as (Hk & -> & _).
  set (k := Z.shiftr _ 8) in *. cbv zeta.
  split; [exact Hk |].
  destruct (Z.eqb_spec k 0) as [-> | Hk0].
  { do 6 (split; [reflexivity |]). apply Hlog. split; reflexivity. }
  assert (Hlt : (dyadic24 k (-24) <? F32.one)%f32 = true)
    by (apply dyadic24_below_one; lia).
  split; [reflexivity |]. split; [apply dyadic24_value; lia |].
  split; [reflexivity |]. split; [exact Hlt |]. split.
  - unfold F32.eqb, F32.ltb, SFeqb, SFltb in *.
    destruct (SFcompare _ _) as [[| |] |]; try discriminate; reflexivity.
  - apply Hlog. rewrite one_minus_dyadic24 by lia. split; reflexivity.
Qed.

(** ** Shifting with a remainder *)

Lemma shr_1_m (mrs : shr_record) : 0 <= shr_m mrs -> shr_m (shr_1 mrs) = shr_m mrs / 2.
Proof.
  destruct mrs as [m r s]. cbn [shr_m]. intros Hm.
  destruct m as [| [p | p |] | p]; try lia; cbn [shr_1 shr_m].
  - reflexivity.
  - apply (Z.div_unique _ 2 _ 1); lia.
  - apply (Z.div_unique _ 2 _ 0); lia.
  - reflexivity.
Qed.

Lemma shr_1_r (mrs : shr_record) : 0 <= shr_m mrs -> shr_r (shr_1 mrs) = Z.odd (shr_m mrs).
Proof.
  destruct mrs as [m r s]. cbn [shr_m]. intros Hm.
  destruct m as [| [p | p |] | p]; try lia; reflexivity.
Qed.

(** After [n] shifts of an exact record: the quotient by [2^n], and the
    last bit shifted out. *)
Lemma shr_iter_m_r (S : Z) (n : positive) :
  0 <= S ->
  let mrs := iter_pos shr_1 n (Build_shr_record S false false) in
  shr_m mrs = S / 2 ^ Zpos n /\ shr_r mrs = Z.testbit S (Zpos n - 1).
Proof.
  intros HS. cbv zeta. rewrite iter_pos_iter.
  induction n as [| n IH] using Pos.peano_ind.
  - cbn [Pos.iter]. rewrite shr_1_m, shr_1_r by exact HS. cbn [shr_m].
    split; [reflexivity |]. symmetry. apply Z.bit0_odd.
  - rewrite Pos.iter_succ. destruct IH as [IHm IHr].
    assert (Hm : 0 <= shr_m (Pos.iter shr_1 (Build_shr_record S false false) n)).
    { rewrite IHm. apply Z.div_pos; [exact HS | apply Z.pow_pos_nonneg; lia]. }
    rewrite shr_1_m, shr_1_r by exact Hm. rewrite IHm. split.
    + rewrite Z.div_div by (try apply Z.pow_pos_nonneg; lia).
      f_equal. rewrite Pos2Z.inj_succ, Z.pow_succ_r by lia. lia.
    + rewrite Pos2Z.inj_succ. replace (Z.succ (Zpos n) - 1) with (Zpos n) by lia.
      rewrite Z.testbit_odd, Z.shiftr_div_pow2 by lia. reflexivity.
Qed.

Lemma round_nearest_even_range (m : Z) (l : location) :
  m <= round_nearest_even m l <= m + 1.
Proof. destruct l as [| [| |]]; cbn; try lia. destruct (Z.even m); lia. Qed.

Lemma round_nearest_even_down (mrs : shr_record) :
  shr_r mrs = false ->
  round_nearest_even (shr_m mrs) (loc_of_shr_record mrs) = shr_m mrs.
Proof. destruct mrs as [m [|] [|]]; cbn; intros; try discriminate; reflexivity. Qed.

(** ** Rounding stays below a representable bound (binary32) *)

Lemma binary_round_aux_kept (s : bool) (m : positive) (e : Z) :
  fexp 24 128 (Zpos (digits2_pos m) + e) = e -> e <= 104 ->
  binary_round_aux 24 128 s (Zpos m) e loc_Exact = S754_finite s m e.
Proof.
  intros Hf He. unfold binary_round_aux, shr_fexp. cbn [Zdigits2].
  rewrite Hf, Z.sub_diag.
  cbn [shr shr_record_of_loc shr_m loc_of_shr_record round_nearest_even Zdigits2].
  rewrite Hf, Z.sub_diag. cbn [shr shr_m].
  replace (e <=? 128 - 24) with true by (symmetry; apply Z.leb_le; lia).
  reflexivity.
Qed.

Lemma digits2_pos_bounds (p : positive) :
  2 ^ (Zpos (digits2_pos p) - 1) <= Zpos p < 2 ^ Zpos (digits2_pos p).
Proof.
  rewrite digits2_pos_log2.
  replace (Z.log2 (Zpos p) + 1 - 1) with (Z.log2 (Zpos p)) by lia.
  replace (Z.log2 (Zpos p) + 1) with (Z.succ (Z.log2 (Zpos p))) by lia.
  apply Z.log2_spec. lia.
Qed.

Lemma digits2_pos_unique (p : positive) (d : Z) :
  2 ^ (d - 1) <= Zpos p < 2 ^ d -> Zpos (digits2_pos p) = d.
Proof.
  intros H. rewrite digits2_pos_log2.
  assert (0 < d).
  { destruct (Z_lt_le_dec 0 d) as [? | Hd]; [assumption |].
    exfalso. destruct (Z.eq_dec d 0) as [-> | ?].
    - cbn in H. lia.
    - rewrite (Z.pow_neg_r 2 d) in H by lia. lia. }
  rewrite (Z.log2_unique (Zpos p) (d - 1)); [lia | lia |].
  replace (Z.succ (d - 1)) with d by lia. exact H.
Qed.

Lemma binary_round_at_most_2_32 (S : positive) (ez : Z) :
  -149 <= ez <= -16 ->
  Zpos S <= 2 ^ (32 - ez) + 2 ^ (7 - ez) ->
  at_most_2_32 (binary_round 24 128 false S ez) = true.
Proof.
  intros Hez HS.
  pose proof (digits2_pos_bounds S) as HdS.
  unfold binary_round. rewrite fexp32.
  remember (Zpos (digits2_pos S)) as dS eqn:EdS.
  assert (HdS0 : 0 < dS) by (subst dS; lia).
  remember (Z.max (dS + ez - 24) (-149)) as f eqn:Ef.
  destruct (Z_le_gt_dec dS 24) as [Hsmall | Hbig].
  - assert (Hf : f <= ez) by lia.
    unfold shl_align. destruct (f - ez) as [| d | d] eqn:Ed; try lia.
    + assert (f = ez) by lia.
      rewrite binary_round_aux_kept; [| rewrite fexp32, <- EdS; lia | lia].
      cbn [at_most_2_32]. rewrite <- EdS.
      repeat (apply andb_true_intro; split); try (apply Z.leb_le; lia).
      apply orb_true_intro. left. apply Z.leb_le. lia.
    + assert (Hmz : Zpos (Pos.iter xO S d) = Zpos S * 2 ^ Zpos d) by apply Zpos_iter_xO.
      assert (Hdz : Zpos (digits2_pos (Pos.iter xO S d)) = dS + Zpos d).
      { rewrite digits2_pos_log2, Hmz, Z.log2_mul_pow2 by lia.
        rewrite EdS, digits2_pos_log2. lia. }
      rewrite binary_round_aux_kept; [| rewrite fexp32, Hdz; lia | lia].
      cbn [at_most_2_32]. rewrite Hdz.
      repeat (apply andb_true_intro; split); try (apply Z.leb_le; lia).
      apply orb_true_intro. left. apply Z.leb_le. lia.
  - assert (Hf : f = dS + ez - 24) by lia.
    unfold shl_align. destruct (f - ez) as [| n | n] eqn:En; try lia.
    assert (Hn : Zpos n = dS - 24) by lia.
    unfold binary_round_aux, shr_fexp. cbn [Zdigits2].
    rewrite <- EdS, fexp32, <- Ef, En. cbn [shr shr_record_of_loc].
    destruct (shr_iter_m_r (Zpos S) n ltac:(lia)) as [Hm Hr].
    remember (iter_pos shr_1 n (Build_shr_record (Zpos S) false false)) as mrs eqn:Emrs.
    assert (Hpow : 2 ^ (dS - 1) = 2 ^ 23 * 2 ^ Zpos n /\ 2 ^ dS = 2 ^ 24 * 2 ^ Zpos n).
    { rewrite <- !Z.pow_add_r by lia. split; f_equal; lia. }
    destruct Hpow as [Hp1 Hp2].
    assert (Hpn : 0 < 2 ^ Zpos n) by (apply Z.pow_pos_nonneg; lia).
    assert (Hm' : 2 ^ 23 <= shr_m mrs < 2 ^ 24).
    { rewrite Hm. split.
      - apply Z.div_le_lower_bound; [exact Hpn |]. rewrite Z.mul_comm, <- Hp1. lia.
      - apply Z.div_lt_upper_bound; [exact Hpn |]. rewrite Z.mul_comm, <- Hp2. lia. }
    pose proof (round_nearest_even_range (shr_m mrs) (loc_of_shr_record mrs)) as Hrnd.
    assert (Hf9 : f <= 9).
    { assert (Zpos S < 2 ^ (33 - ez)).
      { replace (33 - ez) with (Z.succ (32 - ez)) by lia. rewrite Z.pow_succ_r by lia.
        assert (2 ^ (7 - ez) < 2 ^ (32 - ez)) by (apply Z.pow_lt_mono_r; lia). lia. }
      assert (dS - 1 < 33 - ez).
      { apply (Z.pow_lt_mono_r_iff 2); lia. }
      lia. }
    assert (Hdown : f = 9 ->
              round_nearest_even (shr_m mrs) (loc_of_shr_record mrs) = 2 ^ 23).
    { intros E9.
      assert (En9 : Zpos n = 9 - ez) by lia.
      assert (Hlow : 2 ^ (32 - ez) <= Zpos S).
      { replace (32 - ez) with (dS - 1) by lia. lia. }
      assert (Hq : Zpos S / 2 ^ (8 - ez) = 2 ^ 24).
      { assert (2 ^ (32 - ez) = 2 ^ 24 * 2 ^ (8 - ez)).
        { rewrite <- Z.pow_add_r by lia. f_equal. lia. }
        assert (2 ^ (7 - ez) < 2 ^ (8 - ez)) by (apply Z.pow_lt_mono_r; lia).
        assert (0 < 2 ^ (8 - ez)) by (apply Z.pow_pos_nonneg; lia).
        symmetry. apply (Z.div_unique_pos _ _ _ (Zpos S - 2 ^ 24 * 2 ^ (8 - ez))); lia. }
      assert (Hrf : shr_r mrs = false).
      { rewrite Hr, En9. replace (9 - ez - 1) with (8 - ez) by lia.
        rewrite Z.testbit_odd, Z.shiftr_div_pow2, Hq by lia. reflexivity. }
      rewrite (round_nearest_even_down mrs Hrf), Hm, En9.
      assert (2 ^ (32 - ez) = 2 ^ 23 * 2 ^ (9 - ez)).
      { rewrite <- Z.pow_add_r by lia. f_equal. lia. }
      assert (2 ^ (7 - ez) < 2 ^ (9 - ez)) by (apply Z.pow_lt_mono_r; lia).
      assert (0 < 2 ^ (9 - ez)) by (apply Z.pow_pos_nonneg; lia).
      symmetry. apply (Z.div_unique_pos _ _ _ (Zpos S - 2 ^ 23 * 2 ^ (9 - ez))); lia. }
    remember (round_nearest_even (shr_m mrs) (loc_of_shr_record mrs)) as m2 eqn:Em2.
    replace (ez + Zpos n) with f by lia.
    destruct (Z.eq_dec m2 (2 ^ 24)) as [E24 | N24].
    + rewrite E24.
      assert (f <= 8).
      { destruct (Z.eq_dec f 9) as [E9 | ?]; [| lia].
        specialize (Hdown E9). rewrite Hdown in E24. discriminate. }
      change (Zdigits2 (2 ^ 24)) with 25. rewrite fexp32.
      replace (Z.max (25 + f - 24) (-149) - f) with 1 by lia.
      cbn [shr shr_record_of_loc iter_pos]. cbn [shr_1 Z.pow Z.pow_pos Pos.iter Z.mul Pos.mul shr_m].
      replace (f + 1 <=? 128 - 24) with true by (symmetry; apply Z.leb_le; lia).
      cbn [at_most_2_32].
      repeat (apply andb_true_intro; split); try (apply Z.leb_le; try reflexivity; lia).
      apply orb_true_intro.
      destruct (Z.eq_dec f 8) as [-> | ?]; [right; reflexivity | left; apply Z.leb_le; lia].
    + assert (Hm2 : 2 ^ 23 <= m2 < 2 ^ 24) by lia.
      destruct m2 as [| p | p]; try lia.
      assert (Hdp : Zpos (digits2_pos p) = 24) by (apply digits2_pos_unique; exact Hm2).
      cbn [Zdigits2]. rewrite Hdp, fexp32.
      replace (Z.max (24 + f - 24) (-149) - f) with 0 by lia.
      cbn [shr shr_record_of_loc shr_m].
      replace (f <=? 128 - 24) with true by (symmetry; apply Z.leb_le; lia).
      cbn [at_most_2_32]. rewrite Hdp.
      repeat (apply andb_true_intro; split); try (apply Z.leb_le; lia).
      apply orb_true_intro.
      destruct (Z.eq_dec f 9) as [E9 | ?]; [right | left; apply Z.leb_le; lia].
      apply andb_true_intro. split; [apply Z.eqb_eq; exact E9 |].
      apply Z.eqb_eq. exact (Hdown E9).
Qed.

Lemma shl_align_value (m : positive) (e ez : Z) :
  ez <= e -> Zpos (fst (shl_align m e ez)) = Zpos m * 2 ^ (e - ez).
Proof.
  intros Hle. unfold shl_align.
  destruct (ez - e) as [| d | d] eqn:Ed; try lia; cbn [fst].
  - replace (e - ez) with 0 by lia. lia.
  - rewrite Zpos_iter_xO. f_equal. f_equal. lia.
Qed.

(** A mantissa of at most 24 bits at exponent [e], when the value is at
    most 2^(23+k), written at the exponent [ez]. *)
Lemma scaled_bound (m : positive) (e k ez : Z) :
  Zpos (digits2_pos m) <= 24 ->
  e <= k - 1 \/ (e = k /\ Zpos m = 2 ^ 23) ->
  ez <= e ->
  Zpos m * 2 ^ (e - ez) <= 2 ^ (23 + k - ez).
Proof.
  intros Hd Hk Hle.
  assert (Hp : 0 < 2 ^ (e - ez)) by (apply Z.pow_pos_nonneg; lia).
  destruct Hk as [Hk | [-> ->]].
  - pose proof (digits2_pos_bounds m) as [_ Hm].
    assert (2 ^ Zpos (digits2_pos m) <= 2 ^ 24) by (apply Z.pow_le_mono_r; lia).
    assert (2 ^ 24 * 2 ^ (e - ez) <= 2 ^ (23 + k - ez)).
    { rewrite <- Z.pow_add_r by lia. apply Z.pow_le_mono_r; lia. }
    nia.
  - rewrite <- Z.pow_add_r by lia. apply Z.pow_le_mono_r; lia.
Qed.

Lemma at_most_2_32_cases (t : F32.float) :
  at_most_2_32 t = true ->
  (exists s, t = S754_zero s) \/
  (exists m e, t = S754_finite false m e /\ Zpos (digits2_pos m) <= 24 /\ -149 <= e /\
               (e <= 9 - 1 \/ (e = 9 /\ Zpos m = 2 ^ 23))).
Proof.
  destruct t as [s | | | [|] m e]; try discriminate; intros H.
  - left. now exists s.
  - right. exists m, e. cbn [at_most_2_32] in H.
    apply andb_prop in H as [H H3]. apply andb_prop in H as [H1 H2].
    apply Z.leb_le in H1, H2. repeat split; try assumption.
    apply orb_prop in H3 as [H3 | H3].
    + apply Z.leb_le in H3. left. lia.
    + apply andb_prop in H3 as [H3 H4]. apply Z.eqb_eq in H3, H4. right. now split.
Qed.

Lemma step_at_most_128_cases (q : F32.float) :
  step_at_most_128 q = true ->
  (exists s, q = S754_zero s) \/
  (exists m e, q = S754_finite true m e /\ Zpos (digits2_pos m) <= 24 /\ -149 <= e /\
               (e <= -16 - 1 \/ (e = -16 /\ Zpos m = 2 ^ 23))).
Proof.
  destruct q as [s | | | [|] m e]; try discriminate; intros H.
  - left. now exists s.
  - right. exists m, e. cbn [step_at_most_128] in H.
    apply andb_prop in H as [H H3]. apply andb_prop in H as [H1 H2].
    apply Z.leb_le in H1, H2. repeat split; try assumption.
    apply orb_prop in H3 as [H3 | H3].
    + apply Z.leb_le in H3. left. lia.
    + apply andb_prop in H3 as [H3 H4]. apply Z.eqb_eq in H3, H4. right. now split.
Qed.

(** A distance of at most 2^32 stays at most 2^32 when a step of at most
    2^7 is added: the sum is below the midpoint of 2^32 and its
    successor 2^32 + 2^9. *)
Lemma sub_step_at_most_2_32 (t q : F32.float) :
  at_most_2_32 t = true -> step_at_most_128 q = true ->
  at_most_2_32 (t - q)%f32 = true.
Proof.
  intros Ht Hq.
  destruct (at_most_2_32_cases t Ht) as [[s ->] | (mt & et & -> & Hdt & Het & Hvt)];
    destruct (step_at_most_128_cases q Hq) as [[s' ->] | (mq & eq & -> & Hdq & Heq & Hvq)].
  - destruct s, s'; reflexivity.
  - cbn [F32.sub SFsub negb at_most_2_32]. unfold F32.sub. cbn [SFsub negb at_most_2_32].
    repeat (apply andb_true_intro; split); try (apply Z.leb_le; lia).
    apply orb_true_intro. left. apply Z.leb_le. lia.
  - exact Ht.
  - unfold F32.sub. cbn [SFsub cond_Zopp Z.sub Z.opp Z.add binary_normalize].
    apply binary_round_at_most_2_32; [lia |].
    rewrite Pos2Z.inj_add, !shl_align_value by lia.
    pose proof (scaled_bound mt et 9 (Z.min et eq) Hdt Hvt ltac:(lia)) as Hx.
    pose proof (scaled_bound mq eq (-16) (Z.min et eq) Hdq Hvq ltac:(lia)) as Hy.
    replace (23 + 9 - Z.min et eq) with (32 - Z.min et eq) in Hx by lia.
    replace (23 + -16 - Z.min et eq) with (7 - Z.min et eq) in Hy by lia.
    lia.
Qed.

Lemma at_most_2_32_not_reached (t : F32.float) :
  at_most_2_32 t = true -> (t >=? S754_finite false 8388608 10)%f32 = false.
Proof.
  intros Ht.
  destruct (at_most_2_32_cases t Ht) as [[s ->] | (m & e & -> & _ & _ & He)].
  - reflexivity.
  - unfold F32.geb, F32.leb, SFleb. cbn [SFcompare].
    replace (10 ?= e) with Gt by (symmetry; apply Z.compare_gt_iff; lia).
    reflexivity.
Qed.

(** ** Tracking loops *)

(** The first step from [t = 0] reaches any [t_max] that is zero. *)
Lemma first_step_reaches_zero (libm : Libm) (s : Sampler) (maj : F32.float) (b : bool) :
  logf_nonpositive_on_unit_interval libm ->
  (F32.zero <? maj)%f32 = true ->
  (F32.zero - logf libm (F32.one - fst (Sampler.next_1d s)) / maj >=? S754_zero b)%f32
  = true.
Proof.
  intros Hlog Hmaj.
  destruct (next_1d_unit_interval s) as (_ & Hpos & Hle1).
  destruct (Hlog _ Hpos Hle1) as [Hfin Hneg].
  apply zero_minus_nonpositive. now apply div_nonpositive_by_positive.
Qed.

(** C7.  Ratio tracking over a segment of length zero ([t_max] is +0 or
    -0) returns exactly 1.0 from every sampler state, when the majorant
    is strictly positive: one iteration suffices and the running product
    is never multiplied.  The C library's [logf] is assumed finite and
    at most zero on (0, 1]. *)
Theorem transmittance_zero_length
    (libm : Libm) (atm : Atmosphere) (fuel : nat) (sampler : Sampler)
    (cache : max_extinction_cache) (ray : Ray) (wl : F32.float) (b : bool) :
  logf_nonpositive_on_unit_interval libm ->
  (F32.zero <? fst (get_max_extinction atm wl cache))%f32 = true ->
  fst (transmittance libm atm (S fuel) sampler cache ray (S754_zero b) wl)
  = Some (F32.one, snd (Sampler.next_1d sampler)).
Proof.
  intros Hlog Hmaj. unfold transmittance.
  destruct (get_max_extinction atm wl cache) as [maj cache']. cbn [fst] in *.
  cbn [transmittance_loop].
  pose proof (first_step_reaches_zero libm sampler maj b Hlog Hmaj) as Hstep.
  destruct (Sampler.next_1d sampler) as [u s']. cbn [fst snd] in *.
  now rewrite Hstep.
Qed.

Lemma logf_coarse_nonpositive : logf_nonpositive_on_unit_interval libm_coarse.
Proof.
  intros x Hpos Hle. cbn [logf libm_coarse].
  destruct x as [s | [|] | | [|] m e]; try discriminate.
  unfold logf_coarse. unfold F32.leb, SFleb in Hle.
  destruct (SFcompare (S754_finite false m e) F32.one) as [[| |] |];
    try discriminate; split; reflexivity.
Qed.

Section ZeroExtinction.
Variable libm : Libm.
Variable atm : Atmosphere.
Variable ray : Ray.
Variables t_max wl majorant : F32.float.
Hypothesis extinction_zero :
  forall h, (get_extinction atm h wl ==? F32.zero)%f32 = true.
Hypothesis majorant_positive : (F32.zero <? majorant)%f32 = true.

Let loop := sample_interaction_loop libm atm ray t_max wl majorant.
Let reached (t : F32.float) (s : Sampler) (n : nat) : bool :=
  (fst (free_flight libm majorant n t s) >=? t_max)%f32.

Lemma loop_step (fuel : nat) (t : F32.float) (p : vec3) (s : Sampler) :
  loop (S fuel) t p s =
  let '(t1, s1) := tracking_step libm majorant t s in
  if (t1 >=? t_max)%f32 then Some ((- F32.one)%f32, p, s1)
  else loop fuel t1 (ray_at ray t1) (snd (Sampler.next_1d s1)).
Proof.
  unfold loop, tracking_step. cbn [sample_interaction_loop].
  destruct (Sampler.next_1d s) as [u s1].
  destruct (_ >=? t_max)%f32; [reflexivity |].
  destruct (next_1d_unit_interval s1) as (Hu & _).
  destruct (Sampler.next_1d s1) as [u' s2]. cbn [fst snd] in *.
  unfold AtmosphereBase.get_extinction_at.
  rewrite zero_extinction_rejected by auto. reflexivity.
Qed.

Lemma loop_never_accepts (fuel : nat) : forall t p s r,
  loop fuel t p s = Some r -> fst (fst r) = (- F32.one)%f32.
Proof.
  induction fuel as [| fuel IH]; intros t p s r; [discriminate |].
  rewrite loop_step. destruct (tracking_step libm majorant t s) as [t1 s1].
  destruct (t1 >=? t_max)%f32.
  - intros [= <-]. reflexivity.
  - apply IH.
Qed.

Lemma loop_returns (n : nat) : forall t p s,
  (exists m, (m <= n)%nat /\ reached t s m = true) ->
  exists r, loop (S n) t p s = Some r /\ fst (fst r) = (- F32.one)%f32.
Proof.
  induction n as [| n IH]; intros t p s (m & Hm & Hr); rewrite loop_step;
    unfold reached in Hr;
    (destruct m as [| m]; [| try lia]); cbn [free_flight] in Hr;
    destruct (tracking_step libm majorant t s) as [t1 s1]; cbn [fst] in Hr.
  - rewrite Hr. eexists; split; reflexivity.
  - rewrite Hr. eexists; split; reflexivity.
  - destruct (t1 >=? t_max)%f32; [eexists; split; reflexivity |].
    apply IH. exists m. split; [lia | exact Hr].
Qed.

Lemma loop_runs_on (fuel : nat) : forall t p s,
  (forall m, (m < fuel)%nat -> reached t s m = false) ->
  loop fuel t p s = None.
Proof.
  induction fuel as [| fuel IH]; intros t p s H; [reflexivity |].
  rewrite loop_step. pose proof (H 0%nat ltac:(lia)) as H0.
  unfold reached in H0. cbn [free_flight] in H0.
  assert (Hrest : forall m, (m < fuel)%nat ->
            reached (fst (tracking_step libm majorant t s))
                    (snd (Sampler.next_1d (snd (tracking_step libm majorant t s)))) m
            = false).
  { intros m Hm. pose proof (H (S m) ltac:(lia)) as HS.
    unfold reached in HS |- *. cbn [free_flight] in HS.
    destruct (tracking_step libm majorant t s) as [t1 s1]. exact HS. }
  destruct (tracking_step libm majorant t s) as [t1 s1]. cbn [fst snd] in *.
  rewrite H0. apply IH. exact Hrest.
Qed.
End ZeroExtinction.

(** C6 (as amended).  In a medium whose extinction is zero at every
    height, with a strictly positive majorant, delta tracking never
    accepts an interaction: a call that returns, returns -1.  It returns
    (with fuel [n + 1]) as soon as the free flight reaches [t_max] after
    [n + 1] steps, and it never returns when the free flight never
    reaches [t_max]. *)
Theorem sample_interaction_zero_extinction
    (libm : Libm) (atm : Atmosphere) (sampler : Sampler)
    (cache : max_extinction_cache) (ray : Ray) (t_max wl : F32.float) (p : vec3) :
  (forall h, (get_extinction atm h wl ==? F32.zero)%f32 = true) ->
  (F32.zero <? fst (get_max_extinction atm wl cache))%f32 = true ->
  let majorant := fst (get_max_extinction atm wl cache) in
  let run fuel := fst (sample_interaction libm atm fuel sampler cache ray t_max wl p) in
  let reached n :=
    (fst (free_flight libm majorant n F32.zero sampler) >=? t_max)%f32 in
  (forall fuel r, run fuel = Some r -> fst (fst r) = (- F32.one)%f32) /\
  (forall n, reached n = true ->
     exists r, run (S n) = Some r /\ fst (fst r) = (- F32.one)%f32) /\
  ((forall n, reached n = false) -> forall fuel, run fuel = None).
Proof.
  intros Hzero Hmaj. cbv zeta. unfold sample_interaction.
  destruct (get_max_extinction atm wl cache) as [maj cache']. cbn [fst] in *.
  split; [| split].
  - intros fuel r. now apply loop_never_accepts.
  - intros n Hn. apply loop_returns; auto. exists n. split; [lia | exact Hn].
  - intros Hn fuel. apply loop_runs_on; auto.
Qed.

(** ** Instances *)

(** With an infinite majorant the walk stays at zero. *)
Lemma tracking_step_infinite_majorant (libm : Libm) (s : Sampler) :
  logf_nonpositive_on_unit_interval libm ->
  fst (tracking_step libm (S754_infinity false) F32.zero s) = F32.zero.
Proof.
  intros Hlog. unfold tracking_step.
  destruct (next_1d_unit_interval s) as (_ & Hpos & Hle1).
  destruct (Sampler.next_1d s) as [u s1]. cbn [fst] in *.
  destruct (Hlog _ Hpos Hle1) as [Hfin _].
  destruct (logf libm (F32.one - u)%f32) as [[|] | | | [|] m e];
    try discriminate; reflexivity.
Qed.

Lemma free_flight_infinite_majorant (libm : Libm) (n : nat) : forall s : Sampler,
  logf_nonpositive_on_unit_interval libm ->
  fst (free_flight libm (S754_infinity false) n F32.zero s) = F32.zero.
Proof.
  induction n as [| n IH]; intros s Hlog; cbn [free_flight].
  - now apply tracking_step_infinite_majorant.
  - pose proof (tracking_step_infinite_majorant libm s Hlog) as H0.
    destruct (tracking_step libm (S754_infinity false) F32.zero s) as [t1 s1].
    cbn [fst] in H0. subst t1. now apply IH.
Qed.

(** A medium without extinction whose majorant is +infinity, and
    [t_max] = 1: the majorant is strictly positive and [t_max] is
    finite, but every step has length zero and the call never returns,
    whatever the fuel. *)
Lemma sample_interaction_infinite_majorant_diverges :
  let atm := vacuum (S754_infinity false) in
  let wl := F32.lit 550 in
  (forall h, (get_extinction atm h wl ==? F32.zero)%f32 = true) /\
  (F32.zero <? fst (get_max_extinction atm wl cache_init))%f32 = true /\
  SFis_finite F32.one = true /\
  (forall fuel,
     fst (sample_interaction libm_coarse atm fuel (Sampler.new 0 1) cache_init
            ray_zenith F32.one wl EARTH_CENTER) = None).
Proof.
  cbv zeta. split; [reflexivity |]. split; [reflexivity |]. split; [reflexivity |].
  intros fuel. unfold sample_interaction. cbn [get_max_extinction vacuum fst].
  apply loop_runs_on; [reflexivity | reflexivity |].
  intros m _. rewrite free_flight_infinite_majorant by apply logf_coarse_nonpositive.
  reflexivity.
Qed.

(** With majorant 1 and steps of at most 128 the walk from zero stays at
    most 2^32. *)
Lemma tracking_step_at_most_2_32 (libm : Libm) (majorant t : F32.float) (s : Sampler) :
  steps_at_most_128 libm majorant -> at_most_2_32 t = true ->
  at_most_2_32 (fst (tracking_step libm majorant t s)) = true.
Proof.
  intros Hsteps Ht. unfold tracking_step.
  destruct (next_1d_unit_interval s) as (_ & Hpos & Hle1).
  destruct (Sampler.next_1d s) as [u s1]. cbn [fst] in *.
  apply sub_step_at_most_2_32; [exact Ht |]. now apply Hsteps.
Qed.

Lemma free_flight_at_most_2_32 (libm : Libm) (majorant : F32.float) (n : nat) :
  steps_at_most_128 libm majorant ->
  forall t s, at_most_2_32 t = true ->
  at_most_2_32 (fst (free_flight libm majorant n t s)) = true.
Proof.
  intros Hsteps. induction n as [| n IH]; intros t s Ht; cbn [free_flight].
  - now apply tracking_step_at_most_2_32.
  - pose proof (tracking_step_at_most_2_32 libm majorant t s Hsteps Ht) as H1.
    destruct (tracking_step libm majorant t s) as [t1 s1]. cbn [fst] in H1.
    now apply IH.
Qed.

Lemma libm_coarse_steps : steps_at_most_128 libm_coarse F32.one.
Proof.
  intros x Hpos Hle. cbn [logf libm_coarse].
  destruct x as [s | [|] | | [|] m e]; try discriminate.
  unfold logf_coarse. unfold F32.leb, SFleb in Hle.
  destruct (SFcompare (S754_finite false m e) F32.one) as [[| |] |];
    try discriminate; reflexivity.
Qed.

(** C6 (counterexample to the claim as stated).  A medium without
    extinction whose majorant is 1, and [t_max] = 2^33: the majorant is
    strictly positive and [t_max] is finite, but the distance stops
    growing before 2^32, where a step of at most 128 is less than half
    the spacing 512 of the floats, and the call never returns: for every
    state of the sampler, every fuel and every logf with steps of at most
    128 (the coarse one is an instance). *)
Lemma sample_interaction_unit_majorant_stalls :
  let atm := vacuum F32.one in
  let wl := F32.lit 550 in
  (forall h, (get_extinction atm h wl ==? F32.zero)%f32 = true) /\
  (F32.zero <? fst (get_max_extinction atm wl cache_init))%f32 = true /\
  SFis_finite two_pow_33 = true /\
  steps_at_most_128 libm_coarse F32.one /\
  (forall libm, steps_at_most_128 libm F32.one ->
   forall sampler fuel,
     fst (sample_interaction libm atm fuel sampler cache_init
            ray_zenith two_pow_33 wl EARTH_CENTER) = None).
Proof.
  cbv zeta. split; [reflexivity |]. split; [reflexivity |]. split; [reflexivity |].
  split; [exact libm_coarse_steps |].
  intros libm Hsteps sampler fuel. unfold sample_interaction.
  cbn [get_max_extinction vacuum fst].
  apply loop_runs_on; [reflexivity | reflexivity |].
  intros m _. apply at_most_2_32_not_reached.
  now apply free_flight_at_most_2_32.
Qed.

(** C6 (witness): a medium without extinction and majorant 1, a segment
    of length 3, the generator seeded with (0, 1).  The steps have
    length 1: the points at distances 1 and 2 go through the acceptance
    test and are rejected (after two iterations the loop is still
    running), and the third step reaches the end of the segment. *)
Lemma sample_interaction_zero_extinction_witness :
  (forall h, (get_extinction (vacuum F32.one) h (F32.lit 550) ==? F32.zero)%f32 = true) /\
  (F32.zero <? fst (get_max_extinction (vacuum F32.one) (F32.lit 550) cache_init))%f32
  = true /\
  fst (free_flight libm_coarse F32.one 1 F32.zero (Sampler.new 0 1)) = F32.lit 2 /\
  fst (sample_interaction libm_coarse (vacuum F32.one) 2 (Sampler.new 0 1) cache_init
         ray_zenith (F32.lit 3) (F32.lit 550) EARTH_CENTER) = None /\
  exists r,
    fst (sample_interaction libm_coarse (vacuum F32.one) 3 (Sampler.new 0 1) cache_init
           ray_zenith (F32.lit 3) (F32.lit 550) EARTH_CENTER) = Some r /\
    fst (fst r) = (- F32.one)%f32.
Proof.
  split; [reflexivity |]. split; [reflexivity |].
  split; [vm_compute; reflexivity |]. split; [vm_compute; reflexivity |].
  destruct (sample_interaction_zero_extinction libm_coarse (vacuum F32.one)
              (Sampler.new 0 1) cache_init ray_zenith (F32.lit 3) (F32.lit 550)
              EARTH_CENTER (fun _ => eq_refl) eq_refl) as (_ & Hreturns & _).
  apply (Hreturns 2%nat). vm_compute. reflexivity.
Defined.

(** C7 (witness): the molecular atmosphere at 550 nm, from the ground. *)
Lemma transmittance_zero_length_witness :
  logf_nonpositive_on_unit_interval libm_coarse /\
  (F32.zero <? fst (get_max_extinction (GuimeraAtmosphere_vtable atmosphere_molecular)
                      (F32.lit 550) cache_init))%f32 = true /\
  fst (transmittance libm_coarse (GuimeraAtmosphere_vtable atmosphere_molecular) 1
         (Sampler.new 0 1) cache_init ray_zenith F32.zero (F32.lit 550))
  = Some (F32.one, snd (Sampler.next_1d (Sampler.new 0 1))).
Proof.
  split; [exact logf_coarse_nonpositive |]. split; [vm_compute; reflexivity |].
  apply (transmittance_zero_length libm_coarse
           (GuimeraAtmosphere_vtable atmosphere_molecular) 0 (Sampler.new 0 1)
           cache_init ray_zenith (F32.lit 550) false logf_coarse_nonpositive).
  vm_compute. reflexivity.
Defined.

(** C9 (counterexample to the claim as stated).  For a one-row image of
    the largest [int] width and tiles two pixels wide, all four
    dimensions positive, [width + tile_width] overflows and no tile list
    is defined. *)
Lemma prepare_tiles_overflow :
  (0 < 2147483647 /\ 2147483647 <= Int.max /\ 0 < 1 /\ 0 < 2) /\
  prepare_tiles 2147483647 1 2 1 = None.
Proof. split; [repeat split; discriminate | reflexivity]. Qed.

(** C9 (witness): a 5 x 3 image in tiles of 2 x 2. *)
Lemma prepare_tiles_partition_witness :
  (0 < 5 /\ 0 < 3 /\ 0 < 2 /\ 0 < 2 /\ 5 + 2 <= Int.max /\ 3 + 2 <= Int.max) /\
  exists tiles,
    prepare_tiles 5 3 2 2 = Some tiles /\ List.length tiles = 6%nat /\
    (forall x y, 0 <= x < 5 -> 0 <= y < 3 ->
       List.length (filter (fun t => Tile_contains t x y) tiles) = 1%nat).
Proof.
  split; [repeat split; discriminate |].
  destruct (prepare_tiles_partition 5 3 2 2) as (tiles & Ht & Hlen & _ & Hone);
    try reflexivity; try discriminate.
  exists tiles. split; [exact Ht |]. split; [exact Hlen |].
  exact Hone.
Defined.

(** C8 (witness): an unknown aerosol type and month 12. *)
Lemma GuimeraAtmosphere_new_recovers_witness :
  let built :=
    GuimeraAtmosphere_new libm_coarse aerosol_sources_example 12 F32.one "smog" in
  (~ In "smog"%string recognized_aerosol_types /\ (12 < 0 \/ 11 < 12)) /\
  _aerosol (fst built) = None /\ _month (fst built) = 0 /\
  snd built = [InvalidMonth 12; UnknownAerosolType "smog"].
Proof.
  cbv zeta.
  assert (Hn : ~ In "smog"%string recognized_aerosol_types).
  { cbn. intros H. repeat (destruct H as [H | H]; [discriminate H |]). exact H. }
  assert (Hm : 12 < 0 \/ 11 < 12) by (right; reflexivity).
  split; [split; assumption |].
  destruct (GuimeraAtmosphere_new_recovers libm_coarse aerosol_sources_example 12
              F32.one "smog") as [Ha Hb].
  split; [exact (proj1 (Ha Hn)) |]. split; [exact (proj1 (Hb Hm)) | reflexivity].
Defined.

(** C5 (witness): the urban atmosphere at the observer, sample 0 (the
    molecular lobe) and sample 0.5 (the aerosol lobe). *)
Lemma phase_eval_selects_lobe_witness :
  let p := Vec3 F32.zero F32.zero F32.zero in
  let wo := Vec3 F32.zero F32.zero F32.one in
  let wi := Vec3 F32.one F32.zero F32.zero in
  let wl := F32.lit 550 in
  Guimera.phase_eval atmosphere_urban p F32.zero wo wi wl
  = PhaseFunction_p ChandrasekharPhase wo wi wl /\
  Guimera.phase_eval atmosphere_urban p (F32.lit 0.5) wo wi wl
  = PhaseFunction_p (HenyeyGreenstein_new (F64.to_float (F64.lit 0.8))) wo wi wl.
Proof.
  cbv zeta. split.
  - pose proof (phase_eval_selects_lobe atmosphere_urban
                  (Vec3 F32.zero F32.zero F32.zero) F32.zero
                  (Vec3 F32.zero F32.zero F32.one) (Vec3 F32.one F32.zero F32.zero)
                  (F32.lit 550)) as H.
    change (_aerosol atmosphere_urban)
      with (Some (Aerosol_new libm_coarse aerosol_sources_example UrbanAerosol F32.one))
      in H.
    cbv zeta in H. apply (proj1 H). vm_compute. reflexivity.
  - pose proof (phase_eval_selects_lobe atmosphere_urban
                  (Vec3 F32.zero F32.zero F32.zero) (F32.lit 0.5)
                  (Vec3 F32.zero F32.zero F32.one) (Vec3 F32.one F32.zero F32.zero)
                  (F32.lit 550)) as H.
    change (_aerosol atmosphere_urban)
      with (Some (Aerosol_new libm_coarse aerosol_sources_example UrbanAerosol F32.one))
      in H.
    cbv zeta in H. apply (proj2 H). vm_compute. reflexivity.
Defined.

(* ================================================================== *)
(** * Further properties of the code *)

(** ** Order of the floating-point comparison *)

Lemma SFltb_trans (a b c : spec_float) :
  SFltb a b = true -> SFltb b c = true -> SFltb a c = true.
Proof.
  unfold SFltb.
  destruct a as [sa | sa | | sa ma ea], b as [sb | sb | | sb mb eb],
           c as [sc | sc | | sc mc ec]; cbn [SFcompare];
    try discriminate; try reflexivity;
    try (destruct sa; discriminate); try (destruct sb; discriminate);
    try (destruct sc; discriminate);
    try (destruct sa, sb; discriminate); try (destruct sb, sc; discriminate);
    try (destruct sa, sc; try discriminate; reflexivity);
    try (destruct sa, sb, sc; try discriminate; reflexivity).
  destruct sa, sb, sc; try discriminate; try reflexivity;
    change (Pos.compare_cont Eq ma mb) with (Pos.compare ma mb);
    change (Pos.compare_cont Eq mb mc) with (Pos.compare mb mc);
    change (Pos.compare_cont Eq ma mc) with (Pos.compare ma mc);
    destruct (Z.compare_spec ea eb), (Z.compare_spec eb ec), (Z.compare_spec ea ec);
    try lia; try discriminate; try reflexivity;
    subst;
    destruct (Pos.compare_spec ma mb), (Pos.compare_spec mb mc),
             (Pos.compare_spec ma mc);
    try lia; try discriminate; try reflexivity.
Qed.

(** ** src/src/lut.cxx: the search and the interpolation *)

(** The bisection of [std::lower_bound] returns the partition point of
    a range that is partitioned by "element < value". *)
Lemma lower_bound_loop_partition (table : LookupTable) (val : F32.float * F32.float)
    (fuel : nat) : forall first len : nat,
  (len < fuel)%nat ->
  (forall i j, (first <= i)%nat -> (i <= j)%nat -> (j < first + len)%nat ->
     pair_lt (lut_nth table j) val = true -> pair_lt (lut_nth table i) val = true) ->
  (first <= lower_bound_loop fuel table val first len <= first + len)%nat /\
  (forall i, (first <= i < lower_bound_loop fuel table val first len)%nat ->
     pair_lt (lut_nth table i) val = true) /\
  (forall i, (lower_bound_loop fuel table val first len <= i < first + len)%nat ->
     pair_lt (lut_nth table i) val = false).
Proof.
  induction fuel as [| fuel IH]; intros first len Hfuel Hmono; [lia |].
  cbn [lower_bound_loop]. destruct len as [| len'].
  - repeat split; intros; lia.
  - remember (S len') as len eqn:Elen.
    pose proof (Nat.div2_odd len) as Hdiv.
    assert (Hhalf : (Nat.div2 len < len)%nat).
    { destruct (Nat.odd len); cbn [Nat.b2n] in Hdiv; lia. }
    clear Hdiv. remember (Nat.div2 len) as half eqn:Ehalf. clear Ehalf.
    destruct (pair_lt (lut_nth table (first + half)) val) eqn:Emid.
    + assert (Hf1 : (len - half - 1 < fuel)%nat) by lia.
      destruct (IH (S (first + half)) (len - half - 1)%nat Hf1)
        as (Hr & Hlow & Hhigh).
      { intros i j Hi Hij Hj. apply Hmono; lia. }
      split; [lia |]. split.
      * intros i Hi.
        destruct (Nat.le_gt_cases i (first + half)) as [Hle | Hgt].
        -- apply (Hmono i (first + half)%nat); try lia. exact Emid.
        -- apply Hlow. lia.
      * intros i Hi. apply Hhigh. lia.
    + assert (Hf2 : (half < fuel)%nat) by lia.
      destruct (IH first (half) Hf2) as (Hr & Hlow & Hhigh).
      { intros i j Hi Hij Hj. apply Hmono; lia. }
      split; [lia |]. split; [exact Hlow |].
      intros i Hi.
      destruct (Nat.lt_ge_cases i (first + half)) as [Hlt | Hge].
      * apply Hhigh. lia.
      * destruct (pair_lt (lut_nth table i) val) eqn:Ei; [| reflexivity].
        assert (Hm : pair_lt (lut_nth table (first + half)) val = true)
          by (apply (Hmono _ i); try lia; exact Ei).
        congruence.
Qed.

Lemma keys_increasing_nth (table : LookupTable) :
  keys_increasing table = true ->
  forall i j, (i < j)%nat -> (j < List.length table)%nat ->
  (fst (lut_nth table i) <? fst (lut_nth table j))%f32 = true.
Proof.
  induction table as [| a rest IH]; intros Hs i j Hij Hj; [cbn in Hj; lia |].
  assert (Hrest : keys_increasing rest = true).
  { cbn [keys_increasing] in Hs. destruct rest; [reflexivity |].
    now apply andb_prop in Hs. }
  assert (Hhead : forall j', (j' < List.length rest)%nat ->
            (fst a <? fst (lut_nth rest j'))%f32 = true).
  { intros j'. induction j' as [| j' IHj]; intros Hj'.
    - destruct rest as [| b rest']; [cbn in Hj'; lia |].
      cbn [keys_increasing] in Hs. apply andb_prop in Hs. apply Hs.
    - apply (SFltb_trans _ (fst (lut_nth rest j'))).
      + apply IHj. lia.
      + apply IH; [exact Hrest | lia | lia]. }
  unfold lut_nth in *. cbn [List.length] in Hj.
  destruct j as [| j]; [lia |]. destruct i as [| i]; cbn [nth].
  - apply Hhead. lia.
  - apply IH; [exact Hrest | lia | lia].
Qed.

Lemma values_not_below_nth (table : LookupTable) (i : nat) :
  values_not_below_FLT_MIN table = true -> (i < List.length table)%nat ->
  (snd (lut_nth table i) <? FLT_MIN)%f32 = false.
Proof.
  unfold values_not_below_FLT_MIN. rewrite forallb_forall. intros H Hi.
  apply negb_true_iff. apply H. unfold lut_nth. now apply nth_In.
Qed.

(** With no value below [FLT_MIN], an entry is "less than" the pair
    searched for exactly when its key is less than [x]. *)
Lemma pair_lt_key (table : LookupTable) (x : F32.float) (i : nat) :
  values_not_below_FLT_MIN table = true -> (i < List.length table)%nat ->
  pair_lt (lut_nth table i) (x, FLT_MIN) = (fst (lut_nth table i) <? x)%f32.
Proof.
  intros Hv Hi. unfold pair_lt. cbn [fst snd].
  rewrite (values_not_below_nth table i Hv Hi), andb_false_r, orb_false_r.
  reflexivity.
Qed.

Lemma lower_bound_keys (table : LookupTable) (x : F32.float) :
  keys_increasing table = true ->
  values_not_below_FLT_MIN table = true ->
  let it := lower_bound table (x, FLT_MIN) in
  (it <= List.length table)%nat /\
  (forall i, (i < it)%nat -> (fst (lut_nth table i) <? x)%f32 = true) /\
  (forall i, (it <= i < List.length table)%nat ->
     (fst (lut_nth table i) <? x)%f32 = false).
Proof.
  intros Hs Hv. cbv zeta. unfold lower_bound.
  destruct (lower_bound_loop_partition table (x, FLT_MIN) (S (List.length table))
              0%nat (List.length table) ltac:(lia)) as (Hr & Hlow & Hhigh).
  { intros i j _ Hij Hj. cbn [Nat.add] in Hj.
    rewrite !pair_lt_key by (try assumption; lia). intros Hjx.
    destruct (Nat.eq_dec i j) as [-> | Hne]; [exact Hjx |].
    apply (SFltb_trans _ (fst (lut_nth table j))); [| exact Hjx].
    apply keys_increasing_nth; [exact Hs | lia | lia]. }
  cbn [Nat.add] in *. split; [lia |]. split.
  - intros i Hi. rewrite <- pair_lt_key by (try assumption; lia). apply Hlow. lia.
  - intros i Hi. rewrite <- pair_lt_key by (try assumption; lia). apply Hhigh. lia.
Qed.

Lemma lut_lerp_between (table : LookupTable) (x : F32.float) :
  keys_increasing table = true ->
  values_not_below_FLT_MIN table = true ->
  table <> [] ->
  (x >? fst (lut_nth table (List.length table - 1)))%f32 = false ->
  (x <? fst (lut_nth table 0))%f32 = false ->
  exists i : nat,
    lower_bound table (x, FLT_MIN) = i /\
    (i < List.length table)%nat /\
    (forall j, (j < i)%nat -> (fst (lut_nth table j) <? x)%f32 = true) /\
    (fst (lut_nth table i) <? x)%f32 = false /\
    lut_lerp table x =
      match i with
      | O => snd (lut_nth table 0)
      | S i2 =>
          let e := lut_nth table i in
          let e2 := lut_nth table i2 in
          (snd e2 + (snd e - snd e2) * (x - fst e2) / (fst e - fst e2))%f32
      end.
Proof.
  intros Hs Hv Hne Hback Hfront.
  destruct (lower_bound_keys table x Hs Hv) as (Hle & Hlow & Hhigh).
  assert (Hlen : (0 < List.length table)%nat).
  { destruct table; [congruence | cbn; lia]. }
  exists (lower_bound table (x, FLT_MIN)). split; [reflexivity |].
  assert (Hlt : (lower_bound table (x, FLT_MIN) < List.length table)%nat).
  { destruct (Nat.eq_dec (lower_bound table (x, FLT_MIN)) (List.length table))
      as [E | ?]; [| lia].
    unfold F32.gtb in Hback. unfold F32.ltb in Hlow.
    rewrite (Hlow (List.length table - 1)%nat) in Hback by lia. discriminate. }
  split; [exact Hlt |]. split; [exact Hlow |]. split; [apply Hhigh; lia |].
  unfold lut_lerp. rewrite Hback, Hfront. cbv zeta.
  destruct (lower_bound table (x, FLT_MIN)); reflexivity.
Qed.

(** A NaN key passes both saturation tests and every comparison of the
    search, which stops at the first entry. *)
Lemma lut_lerp_nan_first (table : LookupTable) :
  values_not_below_FLT_MIN table = true ->
  lut_lerp table S754_nan = snd (lut_nth table 0).
Proof.
  intros Hv.
  assert (Hnan : forall k : F32.float, (k <? S754_nan)%f32 = false)
    by (intros [| | |]; reflexivity).
  assert (Hnan' : forall k : F32.float, (S754_nan <? k)%f32 = false)
    by (intros k; reflexivity).
  assert (Hit : lower_bound table (@pair F32.float F32.float S754_nan FLT_MIN) = 0%nat).
  { unfold lower_bound.
    destruct (lower_bound_loop_partition table (@pair F32.float F32.float S754_nan FLT_MIN)
                (S (List.length table)) 0%nat (List.length table) ltac:(lia))
      as (Hr & Hlow & _).
    { intros i j _ Hij Hj. cbn [Nat.add] in Hj.
      rewrite (pair_lt_key table _ j) by (try assumption; lia).
      rewrite Hnan. discriminate. }
    destruct (lower_bound_loop _ _ _ _ _) as [| r]; [reflexivity |].
    specialize (Hlow 0%nat ltac:(lia)). cbn [Nat.add] in Hr.
    rewrite pair_lt_key, Hnan in Hlow by (try assumption; lia). discriminate. }
  unfold lut_lerp. cbv zeta. rewrite Hit. unfold F32.gtb. rewrite Hnan, Hnan'.
  reflexivity.
Qed.

(** ** src/src/random.hxx: the generator state *)

Lemma u64_range (n : Z) : 0 <= u64 n < 2 ^ 64.
Proof. unfold u64. apply Z.mod_pos_bound. reflexivity. Qed.

(** [next_uint] keeps the increment and leaves a 64-bit state. *)
Lemma next_uint_wf (g : pcg32.t) :
  pcg32_wf g -> pcg32_wf (snd (pcg32.next_uint g)).
Proof.
  intros (_ & Hi & Ho). unfold pcg32.next_uint. cbn [snd pcg32.state pcg32.inc].
  repeat split; try apply u64_range; try tauto; lia.
Qed.

Lemma seed_wf (initstate initseq : Z) : pcg32_wf (pcg32.seed initstate initseq).
Proof.
  unfold pcg32.seed. apply next_uint_wf.
  unfold pcg32.next_uint. cbn [snd pcg32.state pcg32.inc]. unfold pcg32_wf.
  cbn [pcg32.state pcg32.inc].
  split; [apply u64_range |]. split; [apply u64_range |].
  rewrite <- Z.bit0_odd. unfold u64 at 1.
  rewrite Z.mod_pow2_bits_low by lia.
  rewrite Z.lor_spec. cbn. apply orb_true_r.
Qed.

(** The multiplier of the state transition is odd, hence invertible
    modulo 2^64. *)
Lemma pcg32_multiplier_inverse :
  6364136223846793005 * 13877824140714322085 = 1 + 4787856489426250814 * 2 ^ 64.
Proof. reflexivity. Qed.

Lemma next_uint_state_injective (g1 g2 : pcg32.t) :
  0 <= pcg32.state g1 < 2 ^ 64 -> 0 <= pcg32.state g2 < 2 ^ 64 ->
  pcg32.inc g1 = pcg32.inc g2 ->
  snd (pcg32.next_uint g1) = snd (pcg32.next_uint g2) -> g1 = g2.
Proof.
  destruct g1 as [s1 i1], g2 as [s2 i2]. cbn [pcg32.state pcg32.inc].
  intros H1 H2 <-. unfold pcg32.next_uint. cbn [snd pcg32.state pcg32.inc].
  intros [= E]. f_equal. unfold u64 in E.
  set (M := 6364136223846793005) in *.
  pose proof (Z.div_mod (s1 * M + i1) (2 ^ 64) ltac:(lia)) as D1.
  pose proof (Z.div_mod (s2 * M + i1) (2 ^ 64) ltac:(lia)) as D2.
  rewrite E in D1.
  set (q1 := (s1 * M + i1) / 2 ^ 64) in *. set (q2 := (s2 * M + i1) / 2 ^ 64) in *.
  assert (Hd : (s1 - s2) * M = 2 ^ 64 * (q1 - q2)) by lia.
  pose proof pcg32_multiplier_inverse as Hinv. fold M in Hinv.
  assert (Hs : s1 - s2
               = 2 ^ 64 * ((q1 - q2) * 13877824140714322085
                           - (s1 - s2) * 4787856489426250814)).
  { transitivity ((s1 - s2) * (M * 13877824140714322085)
                  - (s1 - s2) * (4787856489426250814 * 2 ^ 64)).
    - rewrite Hinv. ring.
    - rewrite Z.mul_assoc, Hd. ring. }
  remember ((q1 - q2) * 13877824140714322085 - (s1 - s2) * 4787856489426250814) as k.
  assert (k = 0) by lia. lia.
Qed.

(** ** sampler.hxx: samples *)

Lemma next_float_unit (g : pcg32.t) :
  (F32.zero <=? fst (pcg32.next_float g))%f32 = true /\
  (fst (pcg32.next_float g) <? F32.one)%f32 = true.
Proof.
  destruct (next_float_dyadic g) as (Hk & -> & _).
  destruct (Z.eqb_spec (Z.shiftr (fst (pcg32.next_uint g)) 8) 0) as [_ | Hk0].
  - split; reflexivity.
  - split; [reflexivity |]. apply dyadic24_below_one. lia.
Qed.

Lemma next_2d_unit_square (x_first : bool) (s : Sampler) :
  let uv := fst (next_2d x_first s) in
  (F32.zero <=? vec2.x uv)%f32 = true /\ (vec2.x uv <? F32.one)%f32 = true /\
  (F32.zero <=? vec2.y uv)%f32 = true /\ (vec2.y uv <? F32.one)%f32 = true /\
  snd (next_2d x_first s) = snd (pcg32.next_float (snd (pcg32.next_float s))).
Proof.
  cbv zeta. unfold next_2d.
  pose proof (next_float_unit s) as [Ha0 Ha1].
  pose proof (next_float_unit (snd (pcg32.next_float s))) as [Hb0 Hb1].
  destruct (pcg32.next_float s) as [a s1]. cbn [fst snd] in *.
  destruct (pcg32.next_float s1) as [b s2]. cbn [fst snd] in *.
  destruct x_first; cbn [vec2.x vec2.y]; auto.
Qed.

(** ** Conversion of an integer to [float] *)

(** A non-zero [int] converts to a finite non-zero [float] of its sign. *)
Lemma binary_round_int_finite (s : bool) (n : positive) :
  Zpos n < 2 ^ 31 + 1 ->
  exists m e, binary_round 24 128 s n 0 = S754_finite s m e.
Proof.
  intros Hn.
  pose proof (digits2_pos_bounds n) as Hd.
  unfold binary_round. rewrite fexp32.
  remember (Zpos (digits2_pos n)) as d eqn:Ed.
  assert (Hd0 : 0 < d) by (subst d; lia).
  assert (Hd32 : d <= 32).
  { destruct (Z_le_gt_dec d 32) as [? | Hgt]; [assumption |].
    assert (2 ^ 32 <= 2 ^ (d - 1)) by (apply Z.pow_le_mono_r; lia). lia. }
  rewrite Z.add_0_r.
  replace (Z.max (d - 24) (-149)) with (d - 24) by lia.
  destruct (Z_le_gt_dec d 24) as [Hsmall | Hbig].
  - unfold shl_align. destruct (d - 24 - 0) as [| k | k] eqn:Ek; try lia.
    + eexists _, _. apply binary_round_aux_kept; [rewrite fexp32, <- Ed; lia | lia].
    + assert (Hmz : Zpos (Pos.iter xO n k) = Zpos n * 2 ^ Zpos k) by apply Zpos_iter_xO.
      assert (Hdz : Zpos (digits2_pos (Pos.iter xO n k)) = d + Zpos k).
      { rewrite digits2_pos_log2, Hmz, Z.log2_mul_pow2 by lia.
        rewrite Ed, digits2_pos_log2. lia. }
      eexists _, _. apply binary_round_aux_kept; [rewrite fexp32, Hdz; lia | lia].
  - unfold shl_align. destruct (d - 24 - 0) as [| k | k] eqn:Ek; try lia.
    unfold binary_round_aux, shr_fexp. cbn [Zdigits2].
    rewrite <- Ed, fexp32, Z.add_0_r.
    replace (Z.max (d - 24) (-149) - 0) with (Zpos k) by lia.
    cbn [shr shr_record_of_loc].
    destruct (shr_iter_m_r (Zpos n) k ltac:(lia)) as [Hm _].
    remember (iter_pos shr_1 k (Build_shr_record (Zpos n) false false)) as mrs.
    assert (Hpow : 2 ^ (d - 1) = 2 ^ 23 * 2 ^ Zpos k /\ 2 ^ d = 2 ^ 24 * 2 ^ Zpos k).
    { rewrite <- !Z.pow_add_r by lia. split; f_equal; lia. }
    destruct Hpow as [Hp1 Hp2].
    assert (Hpk : 0 < 2 ^ Zpos k) by (apply Z.pow_pos_nonneg; lia).
    assert (Hm' : 2 ^ 23 <= shr_m mrs < 2 ^ 24).
    { rewrite Hm. split.
      - apply Z.div_le_lower_bound; [exact Hpk |]. rewrite Z.mul_comm, <- Hp1. lia.
      - apply Z.div_lt_upper_bound; [exact Hpk |]. rewrite Z.mul_comm, <- Hp2. lia. }
    pose proof (round_nearest_even_range (shr_m mrs) (loc_of_shr_record mrs)) as Hrnd.
    remember (round_nearest_even (shr_m mrs) (loc_of_shr_record mrs)) as m2.
    destruct (Z.eq_dec m2 (2 ^ 24)) as [E24 | N24].
    + rewrite E24. change (Zdigits2 (2 ^ 24)) with 25. rewrite fexp32.
      replace (Z.max (25 + (0 + Zpos k) - 24) (-149) - (0 + Zpos k)) with 1 by lia.
      cbn [shr shr_record_of_loc iter_pos].
      cbn [shr_1 Z.pow Z.pow_pos Pos.iter Z.mul Pos.mul shr_m].
      replace (0 + Zpos k + 1 <=? 128 - 24) with true
        by (symmetry; apply Z.leb_le; lia).
      eexists _, _. reflexivity.
    + assert (Hm2 : 2 ^ 23 <= m2 < 2 ^ 24) by lia.
      destruct m2 as [| p | p]; try lia.
      assert (Hdp : Zpos (digits2_pos p) = 24) by (apply digits2_pos_unique; exact Hm2).
      cbn [Zdigits2]. rewrite Hdp, fexp32.
      replace (Z.max (24 + (0 + Zpos k) - 24) (-149) - (0 + Zpos k)) with 0 by lia.
      cbn [shr shr_record_of_loc shr_m].
      replace (0 + Zpos k <=? 128 - 24) with true by (symmetry; apply Z.leb_le; lia).
      eexists _, _. reflexivity.
Qed.

Lemma of_Z_positive (n : Z) :
  0 < n <= Int.max -> exists m e, F32.of_Z n = S754_finite false m e.
Proof.
  intros Hn. pose proof Int_max_value. destruct n as [| p | p]; try lia.
  apply binary_round_int_finite. lia.
Qed.

Lemma of_Z_negative (n : Z) :
  Int.min <= n < 0 -> exists m e, F32.of_Z n = S754_finite true m e.
Proof.
  intros Hn. pose proof Int_min_value. destruct n as [| p | p]; try lia.
  apply binary_round_int_finite. lia.
Qed.

(** ** Phase functions *)

Lemma SFmul_comm (prec emax : Z) (x y : spec_float) :
  SFmul prec emax x y = SFmul prec emax y x.
Proof.
  destruct x as [sx | sx | | sx mx ex], y as [sy | sy | | sy my ey];
    cbn [SFmul]; try reflexivity; try (now rewrite xorb_comm).
  now rewrite xorb_comm, Pos.mul_comm, Z.add_comm.
Qed.

Lemma SFmul_opp_opp (prec emax : Z) (x y : spec_float) :
  SFmul prec emax (SFopp x) (SFopp y) = SFmul prec emax x y.
Proof.
  destruct x as [sx | sx | | sx mx ex], y as [sy | sy | | sy my ey];
    cbn [SFmul SFopp]; try reflexivity; destruct sx, sy; reflexivity.
Qed.

Lemma dot_comm (a b : vec3) : glm.dot a b = glm.dot b a.
Proof.
  unfold glm.dot, F32.mul.
  now rewrite (SFmul_comm _ _ (glm.x a)), (SFmul_comm _ _ (glm.y a)),
              (SFmul_comm _ _ (glm.z a)).
Qed.

Lemma dot_vneg_vneg (a b : vec3) : glm.dot (glm.vneg a) (glm.vneg b) = glm.dot a b.
Proof.
  unfold glm.dot, glm.vneg, F32.mul, F32.neg. cbn [glm.x glm.y glm.z].
  now rewrite !SFmul_opp_opp.
Qed.

Lemma PhaseFunction_p_dot (ph : PhaseFunction) (wo wi wo' wi' : vec3) (wl : F32.float) :
  glm.dot wo wi = glm.dot wo' wi' ->
  PhaseFunction_p ph wo wi wl = PhaseFunction_p ph wo' wi' wl.
Proof. intros E. destruct ph; cbn [PhaseFunction_p]; now rewrite ?E. Qed.

Lemma HenyeyGreenstein_zero (s : bool) (wo wi : vec3) (wl : F32.float) :
  SFis_finite (glm.dot wo wi) = true ->
  PhaseFunction_p (HenyeyGreenstein_new (S754_zero s)) wo wi wl = M_INV_4PI.
Proof.
  intros Hf. unfold HenyeyGreenstein_new. cbn [PhaseFunction_p].
  destruct (glm.dot wo wi) as [sc | sc | | sc mc ec]; try discriminate;
    destruct s, sc; reflexivity.
Qed.

(** ** The majorant cache *)

Lemma SFeqb_refl (x : spec_float) : SFis_nan x = false -> SFeqb x x = true.
Proof.
  destruct x as [s | s | | s m e]; try discriminate; intros _; unfold SFeqb;
    cbn [SFcompare]; try (destruct s; reflexivity).
  destruct s; rewrite Z.compare_refl;
    change (Pos.compare_cont Eq m m) with (Pos.compare m m);
    now rewrite Pos.compare_refl.
Qed.

Lemma get_max_extinction_second_call
    (ext1 ext2 : F32.float -> F32.float -> F32.float)
    (wl : F32.float) (c : max_extinction_cache) :
  SFis_nan wl = false ->
  AtmosphereBase.get_max_extinction ext2 wl
    (snd (AtmosphereBase.get_max_extinction ext1 wl c))
  = (fst (AtmosphereBase.get_max_extinction ext1 wl c),
     snd (AtmosphereBase.get_max_extinction ext1 wl c)).
Proof.
  intros Hn. unfold AtmosphereBase.get_max_extinction.
  destruct (prev_wl c ==? wl)%f32 eqn:E; cbn [fst snd].
  - now rewrite E.
  - cbn [prev_wl prev_max_extinction]. unfold F32.eqb. now rewrite SFeqb_refl.
Qed.

Lemma get_max_extinction_nan (ext : F32.float -> F32.float -> F32.float)
    (c : max_extinction_cache) :
  AtmosphereBase.get_max_extinction ext S754_nan c
  = (ext (F32.lit 0.0) S754_nan, mkCache S754_nan (ext (F32.lit 0.0) S754_nan)).
Proof.
  unfold AtmosphereBase.get_max_extinction.
  replace (prev_wl c ==? S754_nan)%f32 with false; [reflexivity |].
  destruct (prev_wl c) as [| | |]; reflexivity.
Qed.

Lemma get_max_extinction_fresh_zero (ext : F32.float -> F32.float -> F32.float)
    (s : bool) :
  AtmosphereBase.get_max_extinction ext (S754_zero s) cache_init
  = (F32.zero, cache_init).
Proof. destruct s; reflexivity. Qed.

(** ** scene_intersect *)

Lemma scene_intersect_flag (ray : Ray) :
  snd (scene_intersect ray) = true ->
  (fst (scene_intersect ray) <? F32.zero)%f32 = false /\
  fst (scene_intersect ray) = ray_sphere_intersection ray EARTH_RADIUS.
Proof.
  unfold scene_intersect. cbv zeta.
  destruct (glm.z (Ray.o ray) >=? ATMOSPHERE_THICKNESS)%f32.
  - destruct (ray_sphere_intersection ray ATMOSPHERE_RADIUS <? F32.zero)%f32;
      [discriminate |].
    destruct (ray_sphere_intersection ray EARTH_RADIUS <? F32.zero)%f32 eqn:E;
      [discriminate |]. cbn [fst snd]. auto.
  - destruct (ray_sphere_intersection ray EARTH_RADIUS <? F32.zero)%f32 eqn:E;
      [discriminate |]. cbn [fst snd]. auto.
Qed.

Lemma scene_intersect_no_flag (ray : Ray) :
  snd (scene_intersect ray) = false ->
  fst (scene_intersect ray) = (- F32.one)%f32 \/
  fst (scene_intersect ray) = ray_sphere_intersection ray ATMOSPHERE_RADIUS.
Proof.
  unfold scene_intersect. cbv zeta.
  destruct (glm.z (Ray.o ray) >=? ATMOSPHERE_THICKNESS)%f32.
  - destruct (ray_sphere_intersection ray ATMOSPHERE_RADIUS <? F32.zero)%f32;
      [auto |].
    destruct (ray_sphere_intersection ray EARTH_RADIUS <? F32.zero)%f32 eqn:E;
      [auto | discriminate].
  - destruct (ray_sphere_intersection ray EARTH_RADIUS <? F32.zero)%f32 eqn:E;
      [auto | discriminate].
Qed.

(** ** Tracking loops: what a result looks like *)

(** A sample that is at least zero is below [fmaxf(0, r)] only for a
    ratio [r] above zero. *)
Lemma accepted_ratio_positive (u r : F32.float) :
  (F32.zero <=? u)%f32 = true ->
  (u <? F32.fmaxf F32.zero r)%f32 = true ->
  (F32.zero <? r)%f32 = true.
Proof.
  intros Hu. unfold F32.fmaxf.
  destruct r as [s | [|] | | [|] m e]; cbn;
    try (destruct u as [su | [|] | | [|] mu eu]; discriminate);
    try reflexivity.
Qed.

Section TrackingResult.
Variable libm : Libm.
Variable atm : Atmosphere.
Variable ray : Ray.
Variables t_max wl majorant : F32.float.

Lemma sample_interaction_loop_result (fuel : nat) : forall t p s t' p' s',
  sample_interaction_loop libm atm ray t_max wl majorant fuel t p s
  = Some (t', p', s') ->
  t' = (- F32.one)%f32 \/
  ((t' >=? t_max)%f32 = false /\ p' = ray_at ray t' /\
   (F32.zero <? AtmosphereBase.get_extinction_at atm p' wl / majorant)%f32 = true).
Proof.
  induction fuel as [| fuel IH]; intros t p s t' p' s'; [discriminate |].
  cbn [sample_interaction_loop].
  destruct (Sampler.next_1d s) as [u s1].
  destruct (_ >=? t_max)%f32 eqn:Ereach.
  - intros [= <- <- <-]. now left.
  - pose proof (next_1d_unit_interval s1) as (Hu & _).
    destruct (Sampler.next_1d s1) as [u' s2]. cbn [fst] in Hu.
    destruct (u' <? _)%f32 eqn:Eacc.
    + intros [= <- <- <-]. right. split; [exact Ereach |]. split; [reflexivity |].
      now apply (accepted_ratio_positive u').
    + apply IH.
Qed.
End TrackingResult.

(** ** Ratio tracking without extinction *)

Section TransmittanceVacuum.
Variable libm : Libm.
Variable atm : Atmosphere.
Variable ray : Ray.
Variables t_max wl majorant : F32.float.
Hypothesis extinction_zero :
  forall h, (get_extinction atm h wl ==? F32.zero)%f32 = true.
Hypothesis majorant_positive : (F32.zero <? majorant)%f32 = true.

Lemma unattenuated_factor (p : vec3) :
  (F32.one * (F32.one - F32.fmaxf F32.zero
                          (AtmosphereBase.get_extinction_at atm p wl / majorant)))%f32
  = F32.one.
Proof.
  unfold AtmosphereBase.get_extinction_at.
  specialize (extinction_zero (height_at_point p)).
  destruct (get_extinction atm (height_at_point p) wl) as [s | [|] | | [|] m e];
    try discriminate.
  destruct (positive_cases majorant majorant_positive) as [(mm & em & ->) | ->];
    destruct s; reflexivity.
Qed.

Lemma transmittance_loop_step (fuel : nat) (t : F32.float) (s : Sampler) :
  transmittance_loop libm atm ray t_max wl majorant (S fuel) F32.one t s =
  let '(t1, s1) := tracking_step libm majorant t s in
  if (t1 >=? t_max)%f32 then Some (F32.one, s1)
  else transmittance_loop libm atm ray t_max wl majorant fuel F32.one t1 s1.
Proof.
  unfold tracking_step. cbn [transmittance_loop].
  destruct (Sampler.next_1d s) as [u s1].
  destruct (_ >=? t_max)%f32; [reflexivity |].
  now rewrite unattenuated_factor.
Qed.

Lemma transmittance_loop_one (fuel : nat) : forall t s r,
  transmittance_loop libm atm ray t_max wl majorant fuel F32.one t s = Some r ->
  fst r = F32.one.
Proof.
  induction fuel as [| fuel IH]; intros t s r; [discriminate |].
  rewrite transmittance_loop_step.
  destruct (tracking_step libm majorant t s) as [t1 s1].
  destruct (t1 >=? t_max)%f32.
  - intros [= <-]. reflexivity.
  - apply IH.
Qed.

Lemma transmittance_loop_returns (n : nat) : forall t s,
  (fst (ratio_flight libm majorant n t s) >=? t_max)%f32 = true ->
  exists s', transmittance_loop libm atm ray t_max wl majorant (S n) F32.one t s
             = Some (F32.one, s').
Proof.
  induction n as [| n IH]; intros t s Hr; rewrite transmittance_loop_step;
    cbn [ratio_flight] in Hr;
    destruct (tracking_step libm majorant t s) as [t1 s1]; cbn [fst] in Hr.
  - rewrite Hr. eexists; reflexivity.
  - destruct (t1 >=? t_max)%f32; [eexists; reflexivity |]. now apply IH.
Qed.
End TransmittanceVacuum.

(** ** src/src/renderer.cxx: the buffer *)

Lemma pixel_index_value (w h x y : Z) :
  0 < w -> 0 < h -> w * h <= Int.max -> 0 <= x < w -> 0 <= y < h ->
  pixel_index w x y = Some (y * w + x) /\ 0 <= y * w + x < w * h.
Proof.
  intros Hw Hh Hwh Hx Hy. pose proof Int_max_value. pose proof Int_min_value.
  assert (Hyw : 0 <= y * w <= (h - 1) * w) by nia.
  assert (Hb : 0 <= y * w + x < w * h) by nia.
  unfold pixel_index, Int.mul, Int.add.
  rewrite (Int_checked_in_range (y * w)) by nia. cbn [bind].
  rewrite (Int_checked_in_range (y * w + x)) by lia. cbn [bind].
  unfold u64. rewrite Z.mod_small by lia. split; [reflexivity | exact Hb].
Qed.

Lemma pixel_index_injective (w x y x' y' : Z) :
  0 <= x < w -> 0 <= x' < w -> y * w + x = y' * w + x' -> x = x' /\ y = y'.
Proof.
  intros Hx Hx' E.
  assert (y = y') by nia. subst y'. split; [lia | reflexivity].
Qed.

Lemma pixel_index_onto (w h k : Z) :
  0 < w -> 0 <= k < w * h ->
  0 <= k mod w < w /\ 0 <= k / w < h /\ k / w * w + k mod w = k.
Proof.
  intros Hw Hk.
  pose proof (Z.mod_pos_bound k w Hw). pose proof (Z.div_mod k w ltac:(lia)) as E.
  split; [assumption |]. split; [| lia].
  split; [apply Z.div_pos; lia |]. apply Z.div_lt_upper_bound; lia.
Qed.

Lemma assign_length {A : Type} (l : list A) : forall i v,
  List.length (assign l i v) = List.length l.
Proof.
  induction l as [| a l IH]; intros i v; [reflexivity |].
  destruct i; cbn; [reflexivity | now rewrite IH].
Qed.

Lemma assign_nth_same {A : Type} (l : list A) : forall i v d,
  (i < List.length l)%nat -> nth i (assign l i v) d = v.
Proof.
  induction l as [| a l IH]; intros i v d Hi; [cbn in Hi; lia |].
  destruct i; cbn; [reflexivity |]. apply IH. cbn in Hi. lia.
Qed.

Lemma assign_nth_other {A : Type} (l : list A) : forall i j v d,
  i <> j -> nth j (assign l i v) d = nth j l d.
Proof.
  induction l as [| a l IH]; intros i j v d Hij; [reflexivity |].
  destruct i, j; cbn; try reflexivity; try lia. apply IH. lia.
Qed.

Lemma place_pixel_effect (w h x y : Z) (buffer : list F32.float) (value : F32.float) :
  0 < w -> 0 < h -> w * h <= Int.max ->
  Z.of_nat (List.length buffer) = w * h ->
  0 <= x < w -> 0 <= y < h ->
  exists buffer',
    place_pixel w buffer x y value = Some buffer' /\
    List.length buffer' = List.length buffer /\
    nth (Z.to_nat (y * w + x)) buffer' F32.zero = value /\
    (forall x' y', 0 <= x' < w -> 0 <= y' < h -> (x', y') <> (x, y) ->
       nth (Z.to_nat (y' * w + x')) buffer' F32.zero
       = nth (Z.to_nat (y' * w + x')) buffer F32.zero).
Proof.
  intros Hw Hh Hwh Hlen Hx Hy.
  destruct (pixel_index_value w h x y Hw Hh Hwh Hx Hy) as [Ei Hi].
  unfold place_pixel. rewrite Ei. cbn [bind].
  replace (y * w + x <? Z.of_nat (List.length buffer)) with true
    by (symmetry; apply Z.ltb_lt; lia).
  eexists. split; [reflexivity |]. split; [apply assign_length |]. split.
  - apply assign_nth_same. lia.
  - intros x' y' Hx' Hy' Hne. apply assign_nth_other.
    intros E. apply Hne.
    assert (E' : y * w + x = y' * w + x') by nia.
    destruct (pixel_index_injective w x y x' y' Hx Hx' E') as [-> ->]. reflexivity.
Qed.

Lemma place_pixel_outside (w : Z) (buffer : list F32.float) (x y : Z)
    (value : F32.float) :
  0 <= y * w + x <= Int.max -> 0 <= y * w <= Int.max ->
  Z.of_nat (List.length buffer) <= y * w + x ->
  place_pixel w buffer x y value = None.
Proof.
  intros Hi Hyw Hlen. pose proof Int_max_value. pose proof Int_min_value.
  unfold place_pixel, pixel_index, Int.mul, Int.add.
  rewrite (Int_checked_in_range (y * w)) by lia. cbn [bind].
  rewrite (Int_checked_in_range (y * w + x)) by lia. cbn [bind].
  unfold u64. rewrite Z.mod_small by lia.
  replace (y * w + x <? Z.of_nat (List.length buffer)) with false
    by (symmetry; apply Z.ltb_ge; lia).
  reflexivity.
Qed.

(** ** src/src/renderer.cxx: one pixel *)

Lemma render_pixel_no_samples (x_first : bool) (r : Renderer) (st : Drawn)
    (x y : Z) (wl : F32.float) :
  _samples_per_pixel r = 0 ->
  render_pixel x_first r st x y wl = Some (S754_nan, st).
Proof. intros E. unfold render_pixel. rewrite E. reflexivity. Qed.

Lemma render_pixel_negative_samples (x_first : bool) (r : Renderer) (st : Drawn)
    (x y : Z) (wl : F32.float) :
  Int.min <= _samples_per_pixel r < 0 ->
  render_pixel x_first r st x y wl = Some (S754_zero true, st).
Proof.
  intros H. unfold render_pixel.
  destruct (of_Z_negative _ H) as (m & e & ->).
  destruct (_samples_per_pixel r) as [| p | p]; try lia. reflexivity.
Qed.

(** The sampler after [n] calls of [next_2d]. *)
Lemma render_pixel_loop_rejected (x_first : bool) (r : Renderer)
    (pixel_coord : vec2.t) (wl : F32.float) (n : nat) :
  (forall uv, sample_ray (camera (_scene r)) uv = None) ->
  forall accum st,
  render_pixel_loop x_first r pixel_coord wl n accum st
  = Some (accum, (Nat.iter n (fun s => snd (next_2d x_first s)) (fst st), snd st)).
Proof.
  intros Hcam. induction n as [| n IH]; intros accum st.
  - cbn. now destruct st.
  - cbn [render_pixel_loop].
    destruct (next_2d x_first (fst st)) as [xi sampler] eqn:E.
    rewrite Hcam, IH. cbn [fst snd]. f_equal. f_equal. f_equal.
    rewrite Nat.iter_succ_r, E. reflexivity.
Qed.

Lemma render_pixel_rejected (x_first : bool) (r : Renderer) (st : Drawn)
    (x y : Z) (wl : F32.float) :
  (forall uv, sample_ray (camera (_scene r)) uv = None) ->
  0 < _samples_per_pixel r <= Int.max ->
  render_pixel x_first r st x y wl
  = Some (F32.zero,
          (Nat.iter (Z.to_nat (_samples_per_pixel r))
                    (fun s => snd (next_2d x_first s)) (fst st), snd st)).
Proof.
  intros Hcam Hn. unfold render_pixel.
  rewrite render_pixel_loop_rejected by exact Hcam.
  destruct (of_Z_positive _ Hn) as (m & e & ->). reflexivity.
Qed.

(** ** integrator.cxx: the integrators *)

Lemma TransmittanceIntegrator_Li_miss (pf : Platform) (scene : Scene) (st : Drawn)
    (ray : Ray) (wl : F32.float) :
  (fst (scene_intersect ray) <? F32.zero)%f32 = true ->
  TransmittanceIntegrator_Li pf scene st ray wl = Some (F32.zero, st).
Proof.
  intros H. unfold TransmittanceIntegrator_Li.
  destruct (scene_intersect ray) as [t_max flag]. cbn [fst] in H. now rewrite H.
Qed.

Lemma run_transmittance_vacuum (pf : Platform) (atm : Atmosphere) (st : Drawn)
    (ray : Ray) (t_max wl : F32.float) (r : F32.float * Drawn) :
  (forall h, (get_extinction atm h wl ==? F32.zero)%f32 = true) ->
  (F32.zero <? fst (get_max_extinction atm wl (snd st)))%f32 = true ->
  run_transmittance pf atm st ray t_max wl = Some r -> fst r = F32.one.
Proof.
  intros Hext Hmaj. unfold run_transmittance, transmittance.
  destruct (get_max_extinction atm wl (snd st)) as [maj cache]. cbn [fst] in Hmaj.
  destruct (transmittance_loop _ _ _ _ _ _ _ _ _ _) as [[Tr s] |] eqn:E;
    [| discriminate].
  intros [= <-]. cbn [fst].
  exact (transmittance_loop_one (libm_of pf) atm ray t_max wl maj Hext Hmaj
           _ _ _ _ E).
Qed.

Lemma path_loop_no_order (pf : Platform) (scene : Scene) (_max_order : Z)
    (_only_ms : bool) (p : vec3) (wl : F32.float) (n : nat) (order : Z)
    (ray : Ray) (L throughput : F32.float) (st : Drawn) :
  _max_order < order ->
  path_loop pf scene _max_order _only_ms p wl n order ray L throughput st
  = Some (L, st).
Proof.
  intros H. destruct n; cbn [path_loop];
    replace (order <=? _max_order) with false by (symmetry; apply Z.leb_gt; lia);
    reflexivity.
Qed.

Lemma path_step_miss (pf : Platform) (scene : Scene) (_only_ms : bool) (p : vec3)
    (order : Z) (ray : Ray) (wl L throughput : F32.float) (st : Drawn) :
  (fst (scene_intersect ray) <? F32.zero)%f32 = true ->
  path_step pf scene _only_ms p order ray wl L throughput st
  = Some (Break (L + F32.zero)%f32 st).
Proof.
  intros H. unfold path_step.
  destruct (scene_intersect ray) as [t_max flag]. cbn [fst] in H. now rewrite H.
Qed.


Lemma path_roulette_L (order : Z) (ray : Ray) (L throughput : F32.float) (st : Drawn) :
  Path_L (path_roulette order ray L throughput st) = L.
Proof.
  unfold path_roulette.
  destruct (order >? 5).
  - destruct (Sampler.next_1d (fst st)) as [u sampler].
    destruct (u <? _)%f32; [reflexivity |].
    destruct (_ <=? F32.zero)%f32; reflexivity.
  - destruct (_ <=? F32.zero)%f32; reflexivity.
Qed.

(** With [_only_ms] the first order leaves [L] as it is. *)
Lemma path_step_only_ms (pf : Platform) (scene : Scene) (p : vec3)
    (ray : Ray) (wl throughput : F32.float) (st : Drawn) :
  match path_step pf scene true p 1 ray wl F32.zero throughput st with
  | Some r => Path_L r = F32.zero
  | None => True
  end.
Proof.
  unfold path_step.
  destruct (scene_intersect ray) as [t_max flag].
  destruct (t_max <? F32.zero)%f32; [reflexivity |].
  destruct (run_sample_interaction pf (atmosphere scene) st ray t_max wl p)
    as [[[t p'] st1] |]; [| exact I].
  destruct (t <? F32.zero)%f32.
  - destruct flag; cbn [negb]; [| reflexivity].
    unfold surface_interaction.
    destruct (sample_sun pf scene st1 _ wl) as [[[[dir Tr] sun_L] st2] |]; [| exact I].
    destruct (next_2d (x_first_of pf) (fst st2)) as [uv sampler].
    apply path_roulette_L.
  - unfold medium_interaction.
    destruct (Sampler.next_1d (fst st1)) as [u sampler].
    destruct (u <? _)%f32; [| reflexivity].
    destruct (sample_sun pf scene (sampler, snd st1) p' wl)
      as [[[[dir Tr] sun_L] st2] |]; [| exact I].
    destruct (Sampler.next_1d (fst st2)) as [sample sampler'].
    destruct (next_2d (x_first_of pf) sampler') as [uv sampler''].
    apply path_roulette_L.
Qed.

Lemma PathTracingIntegrator_Li_first_order_only_ms (pf : Platform) (p : vec3)
    (scene : Scene) (st : Drawn) (ray : Ray) (wl : F32.float) :
  match PathTracingIntegrator_Li pf 1 true p scene st ray wl with
  | Some r => fst r = F32.zero
  | None => True
  end.
Proof.
  unfold PathTracingIntegrator_Li.
  change (Z.to_nat 1) with 1%nat. cbn [path_loop Z.leb Z.compare Pos.compare Pos.compare_cont].
  pose proof (path_step_only_ms pf scene p ray wl F32.one st) as H.
  change (F32.lit 0.0) with F32.zero.
  destruct (path_step pf scene true p 1 ray wl F32.zero F32.one st) as [[L st' | ray' L thr st'] |];
    cbn [Path_L] in H; [exact H | | exact I].
  change (Int.add 1 1) with (Some 2). cbn [bind]. exact H.
Qed.

(** ** src/src/args.cxx *)

Lemma parse_loop_missing_argument (cv : Conversions) (arg0 : string)
    (a : CommandLineArguments) (fg : bool) (opt name : string) :
  In (opt, name) options_with_argument ->
  parse_loop cv arg0 [opt] a fg = RuntimeError (name ++ " needs an argument").
Proof.
  unfold options_with_argument. cbn [In].
  intros H.
  repeat (destruct H as [[= <- <-] | H]; [reflexivity |]).
  destruct H.
Qed.

(** Parsing a list that was parsed to the end, followed by more
    arguments, continues from where the first part ended. *)
Lemma parse_loop_app (cv : Conversions) (arg0 : string) (n : nat) :
  forall (l1 l2 : list string) (a : CommandLineArguments) (fg : bool)
         (a' : CommandLineArguments) (fg' : bool),
  (List.length l1 <= n)%nat ->
  parse_loop cv arg0 l1 a fg = Parsed a' fg' ->
  parse_loop cv arg0 (l1 ++ l2) a fg = parse_loop cv arg0 l2 a' fg'.
Proof.
  induction n as [| n IH]; intros l1 l2 a fg a' fg' Hlen;
    destruct l1 as [| arg rest]; cbn [List.length] in Hlen; try lia;
    try (cbn [parse_loop app]; intros [= <- <-]; reflexivity).
  cbn [parse_loop app]. cbv zeta.
  assert (IH' : forall rest' a0 fg0,
            (List.length rest' <= n)%nat ->
            parse_loop cv arg0 rest' a0 fg0 = Parsed a' fg' ->
            parse_loop cv arg0 (rest' ++ l2) a0 fg0 = parse_loop cv arg0 l2 a' fg')
    by (intros; now apply IH).
  clear IH.
  repeat
    match goal with
    | |- (if ?c then _ else _) = _ -> _ =>
        destruct c;
        [ try discriminate;
          try (apply IH'; lia);
          try (unfold int_argument, float_argument, string_argument;
               destruct rest as [| value rest']; [discriminate |];
               cbn [app List.length] in *;
               try (destruct (stoi cv value); [| discriminate]);
               try (destruct (stof cv value) as [x |]; [| discriminate];
                    try (destruct (float_to_int x); [| discriminate]));
               apply IH'; lia)
        | ]
    end.
  all: try discriminate.
  apply IH'. lia.
Qed.

Lemma parse_loop_append (cv : Conversions) (arg0 : string) (l1 l2 : list string)
    (a : CommandLineArguments) (fg : bool) (a' : CommandLineArguments) (fg' : bool) :
  parse_loop cv arg0 l1 a fg = Parsed a' fg' ->
  parse_loop cv arg0 (l1 ++ l2) a fg = parse_loop cv arg0 l2 a' fg'.
Proof. apply (parse_loop_app cv arg0 (List.length l1)). lia. Qed.

(** An argument that does not begin with '-' is none of the options. *)
Lemma parse_loop_positional (cv : Conversions) (arg0 : string) (arg : string)
    (rest : list string) (a : CommandLineArguments) (fg : bool) :
  not_an_option arg = true ->
  parse_loop cv arg0 (arg :: rest) a fg
  = if fg then RuntimeError "Only one output filename allowed"
    else parse_loop cv arg0 rest (set_filename arg a) true.
Proof.
  intros H. cbn [parse_loop]. cbv zeta. rewrite H.
  destruct arg as [| c s]; [reflexivity |].
  cbn [not_an_option] in H. apply negb_true_iff in H.
  cbn [String.eqb]. rewrite H. reflexivity.
Qed.

Lemma parse_loop_unknown_option (cv : Conversions) (arg0 : string) (arg : string)
    (rest : list string) (a : CommandLineArguments) (fg : bool) :
  not_an_option arg = false -> ~ In arg known_options ->
  parse_loop cv arg0 (arg :: rest) a fg
  = RuntimeError ("Unknown option '" ++ arg
                  ++ "'. Use --help to see all available options").
Proof.
  intros Hdash Hn. cbn [parse_loop]. cbv zeta. rewrite Hdash.
  unfold known_options, options_without_argument, options_with_argument in Hn.
  cbn [In map fst app] in Hn.
  assert (Hne : forall s : string, (s = arg -> False) -> String.eqb arg s = false).
  { intros s Hs. apply String.eqb_neq. intros E. apply Hs. symmetry. exact E. }
  rewrite !Hne by (intros E; apply Hn; tauto). reflexivity.
Qed.

Lemma SFsame_eq (a b : spec_float) : SFsame a b = true -> a = b.
Proof.
  destruct a as [s | s | | s m e], b as [s' | s' | | s' m' e']; cbn; try discriminate;
    try reflexivity.
  - intros H. apply Bool.eqb_prop in H. now subst.
  - intros H. apply Bool.eqb_prop in H. now subst.
  - intros H. apply andb_prop in H as [H He]. apply andb_prop in H as [Hs Hm].
    apply Bool.eqb_prop in Hs. apply Pos.eqb_eq in Hm. apply Z.eqb_eq in He.
    now subst.
Qed.

Lemma source_tables_well_formed :
  forall table, In table source_tables ->
    table <> [] /\ keys_increasing table = true /\
    values_not_below_FLT_MIN table = true.
Proof.
  intros table H. unfold source_tables in H. cbn [In] in H.
  repeat (destruct H as [<- | H];
          [split; [discriminate | split; vm_compute; reflexivity] |]).
  destruct H.
Qed.

Lemma source_tables_reproduce (table : LookupTable) (key value : F32.float) :
  In table [gamma_lut; rayleigh_volume_scattering_lut;
            standard_atmosphere_temperature_lut; standard_atmosphere_pressure_lut] ->
  In (key, value) table -> lut_lerp table key = value.
Proof.
  intros Ht He.
  assert (Hall : lut_lerp_reproduces table = true).
  { cbn [In] in Ht.
    repeat (destruct Ht as [<- | Ht]; [vm_compute; reflexivity |]). destruct Ht. }
  unfold lut_lerp_reproduces in Hall. rewrite forallb_forall in Hall.
  apply SFsame_eq. exact (Hall (key, value) He).
Qed.

(** ** Lookup tables (src/src/lut.cxx) *)

(** X1.  In a table whose keys increase strictly and whose values are
    not below [FLT_MIN], a key [x] that neither saturation test catches
    is interpolated between two neighbours: [std::lower_bound] stops at
    an entry [i] of the table (never at its end), every key before [i]
    is below [x], the key at [i] is not, and the result is the value of
    the first entry when [i] is 0 and the linear interpolation between
    the entries [i - 1] and [i] otherwise. *)
Theorem lut_lerp_interpolates (table : LookupTable) (x : F32.float) :
  keys_increasing table = true ->
  values_not_below_FLT_MIN table = true ->
  table <> [] ->
  (x >? fst (lut_nth table (List.length table - 1)))%f32 = false ->
  (x <? fst (lut_nth table 0))%f32 = false ->
  exists i : nat,
    lower_bound table (x, FLT_MIN) = i /\
    (i < List.length table)%nat /\
    (forall j, (j < i)%nat -> (fst (lut_nth table j) <? x)%f32 = true) /\
    (fst (lut_nth table i) <? x)%f32 = false /\
    lut_lerp table x =
      match i with
      | O => snd (lut_nth table 0)
      | S i2 =>
          let e := lut_nth table i in
          let e2 := lut_nth table i2 in
          (snd e2 + (snd e - snd e2) * (x - fst e2) / (fst e - fst e2))%f32
      end.
Proof. exact (lut_lerp_between table x). Qed.

(** X1 (witness): the gamma table at 425 nm, between its entries for
    400 nm (index 21) and 450 nm (index 22). *)
Lemma lut_lerp_interpolates_witness :
  exists i : nat,
    lower_bound gamma_lut (F32.lit 425, FLT_MIN) = i /\ i = 22%nat /\
    lut_lerp gamma_lut (F32.lit 425)
    = (F32.lit 0.01499
       + (F32.lit 0.01471 - F32.lit 0.01499) * (F32.lit 425 - F32.lit 400)
         / (F32.lit 450 - F32.lit 400))%f32.
Proof.
  destruct (lut_lerp_interpolates gamma_lut (F32.lit 425))
    as (i & Hi & _ & _ & _ & E); try (vm_compute; reflexivity); [discriminate |].
  exists i. split; [exact Hi |].
  assert (E22 : i = 22%nat) by (rewrite <- Hi; vm_compute; reflexivity).
  split; [exact E22 |]. rewrite E, E22. vm_compute. reflexivity.
Defined.

(** X2.  A NaN key passes both saturation tests and compares below no
    key, so the search stops at the first entry: [lut_lerp] returns the
    first value of the table, not a NaN. *)
Theorem lut_lerp_nan_key (table : LookupTable) :
  table <> [] -> values_not_below_FLT_MIN table = true ->
  lut_lerp table S754_nan = snd (lut_nth table 0).
Proof. intros _. apply lut_lerp_nan_first. Qed.

(** X2 (witness): a NaN wavelength is given the Rayleigh coefficient of
    200 nm. *)
Lemma lut_lerp_nan_key_witness :
  lut_lerp rayleigh_volume_scattering_lut S754_nan = F32.lit 9.202e-1.
Proof.
  rewrite (lut_lerp_nan_key rayleigh_volume_scattering_lut);
    [vm_compute; reflexivity | discriminate | vm_compute; reflexivity].
Defined.

(** X3.  The five tables of the sources meet what [lut_lerp] expects:
    none is empty, the keys of each increase strictly, and no value is
    below [FLT_MIN]. *)
Theorem source_tables_sorted :
  Forall (fun table =>
            table <> [] /\ keys_increasing table = true /\
            values_not_below_FLT_MIN table = true)
         source_tables.
Proof. apply Forall_forall. exact source_tables_well_formed. Qed.

(** X4.  Looked up at one of its own keys, the gamma, Rayleigh,
    temperature and pressure tables return the tabulated value exactly.
    The ozone table does so at 25 of its 32 keys; at the other 7 the
    interpolation formula rounds to another float. *)
Theorem lut_lerp_at_keys :
  Forall (fun table =>
            forall key value, In (key, value) table -> lut_lerp table key = value)
         [gamma_lut; rayleigh_volume_scattering_lut;
          standard_atmosphere_temperature_lut; standard_atmosphere_pressure_lut] /\
  List.length ozone_cross_section_lut = 32%nat /\
  List.length (filter (fun e => SFsame (lut_lerp ozone_cross_section_lut (fst e)) (snd e))
                      ozone_cross_section_lut) = 25%nat.
Proof.
  split; [| split; vm_compute; reflexivity].
  apply Forall_forall. intros table Ht key value. now apply source_tables_reproduce.
Qed.

(** ** The majorant cache (atmosphere.hxx, src/unnamed/part_002) *)

(** X5.  The cache of [get_max_extinction] is one entry shared by all
    atmospheres and keyed by the wavelength alone: after a call at a
    wavelength that is not a NaN, the next call at that wavelength
    returns the value of the first call and leaves the cache as it is,
    whatever atmosphere it is made on. *)
Theorem get_max_extinction_cache_shared
    (ext1 ext2 : F32.float -> F32.float -> F32.float)
    (wl : F32.float) (c : max_extinction_cache) :
  SFis_nan wl = false ->
  AtmosphereBase.get_max_extinction ext2 wl
    (snd (AtmosphereBase.get_max_extinction ext1 wl c))
  = (fst (AtmosphereBase.get_max_extinction ext1 wl c),
     snd (AtmosphereBase.get_max_extinction ext1 wl c)).
Proof. apply get_max_extinction_second_call. Qed.

(** X5 (witness): after a call on the molecular atmosphere at 550 nm,
    the urban atmosphere is given the molecular majorant, which is below
    its own extinction at ground level. *)
Lemma get_max_extinction_cache_shared_witness :
  let after :=
    snd (get_max_extinction (GuimeraAtmosphere_vtable atmosphere_molecular)
           (F32.lit 550) cache_init) in
  fst (get_max_extinction (GuimeraAtmosphere_vtable atmosphere_urban) (F32.lit 550) after)
  = Guimera.get_extinction atmosphere_molecular (F32.lit 0) (F32.lit 550) /\
  (Guimera.get_extinction atmosphere_molecular (F32.lit 0) (F32.lit 550)
   <? Guimera.get_extinction atmosphere_urban (F32.lit 0) (F32.lit 550))%f32 = true.
Proof.
  cbv zeta. split; [| vm_compute; reflexivity].
  cbn [get_max_extinction GuimeraAtmosphere_vtable].
  rewrite (get_max_extinction_cache_shared
             (Guimera.get_extinction atmosphere_molecular)
             (Guimera.get_extinction atmosphere_urban) (F32.lit 550) cache_init
             eq_refl).
  vm_compute. reflexivity.
Defined.

(** ** The generator (src/src/random.hxx, sampler.hxx) *)

(** X6.  Every way of seeding leaves a generator whose state and
    increment are 64-bit values and whose increment is odd; [next_uint]
    keeps that, does not change the increment, and returns a 32-bit
    value. *)
Theorem pcg32_generator_invariant :
  (forall initstate initseq, pcg32_wf (pcg32.seed initstate initseq)) /\
  (forall initstate initseq, pcg32_wf (pcg32_new initstate initseq)) /\
  pcg32_wf pcg32_default /\
  (forall begin_ end_, pcg32_wf (Sampler.new begin_ end_)) /\
  (forall g, pcg32_wf g ->
     pcg32_wf (snd (pcg32.next_uint g)) /\
     pcg32.inc (snd (pcg32.next_uint g)) = pcg32.inc g /\
     0 <= fst (pcg32.next_uint g) < 2 ^ 32).
Proof.
  split; [exact seed_wf |]. split; [intros; apply seed_wf |].
  split; [apply seed_wf |]. split; [intros; apply seed_wf |].
  intros g Hg. split; [now apply next_uint_wf |]. split; [reflexivity |].
  apply next_uint_range.
Qed.

(** X7.  The state transition of [next_uint] is injective on 64-bit
    states: two generators with the same increment that are in the same
    state after a call were in the same state before it. *)
Theorem next_uint_injective (g1 g2 : pcg32.t) :
  0 <= pcg32.state g1 < 2 ^ 64 -> 0 <= pcg32.state g2 < 2 ^ 64 ->
  pcg32.inc g1 = pcg32.inc g2 ->
  snd (pcg32.next_uint g1) = snd (pcg32.next_uint g2) -> g1 = g2.
Proof. apply next_uint_state_injective. Qed.

(** X7 (witness): a generator in the state 2^64 - 1 against itself;
    and, by contraposition, the states 0 and 2^63 (increment 1) lead to
    different states. *)
Lemma next_uint_injective_witness :
  pcg32.mk (2 ^ 64 - 1) 1 = pcg32.mk (2 ^ 64 - 1) 1 /\
  snd (pcg32.next_uint (pcg32.mk 0 1)) <> snd (pcg32.next_uint (pcg32.mk (2 ^ 63) 1)).
Proof.
  split.
  - apply (next_uint_injective (pcg32.mk (2 ^ 64 - 1) 1) (pcg32.mk (2 ^ 64 - 1) 1));
      cbn [pcg32.state pcg32.inc]; try lia; reflexivity.
  - intros E.
    assert (H : pcg32.mk 0 1 = pcg32.mk (2 ^ 63) 1).
    { apply next_uint_injective; cbn [pcg32.state pcg32.inc]; try lia;
        try reflexivity; exact E. }
    discriminate H.
Defined.

(** X8.  Both components of [next_2d] are at least 0 and below 1, and
    the generator has advanced by two calls of [next_float], whichever
    of the two draws becomes [x]. *)
Theorem next_2d_in_unit_square (x_first : bool) (s : Sampler) :
  let uv := fst (next_2d x_first s) in
  (F32.zero <=? vec2.x uv)%f32 = true /\ (vec2.x uv <? F32.one)%f32 = true /\
  (F32.zero <=? vec2.y uv)%f32 = true /\ (vec2.y uv <? F32.one)%f32 = true /\
  snd (next_2d x_first s) = snd (pcg32.next_float (snd (pcg32.next_float s))).
Proof. apply next_2d_unit_square. Qed.

(** ** The image buffer (src/src/renderer.cxx) *)

(** X9.  For an image whose number of pixels fits in an [int], the index
    [place_pixel] computes is [y * width + x], without overflow, and it
    is a one-to-one correspondence between the pixels of the image and
    the positions of a buffer of [width * height] elements. *)
Theorem pixel_index_bijective (w h : Z) :
  0 < w -> 0 < h -> w * h <= Int.max ->
  (forall x y, 0 <= x < w -> 0 <= y < h ->
     pixel_index w x y = Some (y * w + x) /\ 0 <= y * w + x < w * h) /\
  (forall x y x' y', 0 <= x < w -> 0 <= x' < w ->
     y * w + x = y' * w + x' -> x = x' /\ y = y') /\
  (forall k, 0 <= k < w * h ->
     0 <= k mod w < w /\ 0 <= k / w < h /\ pixel_index w (k mod w) (k / w) = Some k).
Proof.
  intros Hw Hh Hwh. split; [| split].
  - intros x y Hx Hy. now apply pixel_index_value.
  - intros x y x' y'. apply pixel_index_injective.
  - intros k Hk. destruct (pixel_index_onto w h k Hw Hk) as (Hx & Hy & E).
    split; [exact Hx |]. split; [exact Hy |].
    destruct (pixel_index_value w h (k mod w) (k / w) Hw Hh Hwh Hx Hy) as [Ei _].
    rewrite Ei, E. reflexivity.
Qed.

(** X9 (witness): 65535 x 32767 pixels, the last pixel.  (For 65536 x
    65536 pixels the product [y * width] leaves the range of [int] from
    row 32768 on.) *)
Lemma pixel_index_bijective_witness :
  pixel_index 65535 65534 32766 = Some (65535 * 32767 - 1) /\
  pixel_index 65536 0 32768 = None.
Proof.
  split; [| reflexivity].
  destruct (pixel_index_bijective 65535 32767 eq_refl eq_refl) as (Hv & _ & _);
    [vm_compute; discriminate |].
  exact (proj1 (Hv 65534 32766 ltac:(lia) ltac:(lia))).
Defined.

(** X10.  On a buffer of [width * height] elements, [place_pixel] at a
    pixel of the image is defined, keeps the length of the buffer, puts
    the value at position [y * width + x] and leaves the position of
    every other pixel as it was. *)
Theorem place_pixel_assigns (w h x y : Z) (buffer : list F32.float) (value : F32.float) :
  0 < w -> 0 < h -> w * h <= Int.max ->
  Z.of_nat (List.length buffer) = w * h ->
  0 <= x < w -> 0 <= y < h ->
  exists buffer',
    place_pixel w buffer x y value = Some buffer' /\
    List.length buffer' = List.length buffer /\
    nth (Z.to_nat (y * w + x)) buffer' F32.zero = value /\
    (forall x' y', 0 <= x' < w -> 0 <= y' < h -> (x', y') <> (x, y) ->
       nth (Z.to_nat (y' * w + x')) buffer' F32.zero
       = nth (Z.to_nat (y' * w + x')) buffer F32.zero).
Proof. apply place_pixel_effect. Qed.

(** X10 (witness): a 3 x 2 image, pixel (1, 1). *)
Lemma place_pixel_assigns_witness :
  place_pixel 3 (repeat F32.zero 6) 1 1 F32.one
  = Some [F32.zero; F32.zero; F32.zero; F32.zero; F32.one; F32.zero].
Proof.
  destruct (place_pixel_assigns 3 2 1 1 (repeat F32.zero 6) F32.one
              eq_refl eq_refl ltac:(vm_compute; discriminate) eq_refl
              ltac:(lia) ltac:(lia)) as (b & E & _).
  rewrite E. vm_compute in E. injection E as <-. reflexivity.
Defined.

(** ** One pixel (src/src/renderer.cxx) *)

(** X11.  With no samples per pixel, [render_pixel] draws nothing and
    divides zero by zero: every pixel is a NaN.  With a negative number
    of samples it draws nothing either and returns minus zero. *)
Theorem render_pixel_without_samples (x_first : bool) (r : Renderer) (st : Drawn)
    (x y : Z) (wl : F32.float) :
  Int.min <= _samples_per_pixel r <= 0 ->
  render_pixel x_first r st x y wl
  = Some (if _samples_per_pixel r =? 0 then S754_nan else S754_zero true, st).
Proof.
  intros H. destruct (Z.eqb_spec (_samples_per_pixel r) 0) as [E | E].
  - now apply render_pixel_no_samples.
  - apply render_pixel_negative_samples. lia.
Qed.

(** X11 (witness): no samples. *)
Lemma render_pixel_without_samples_witness :
  render_pixel true
    (renderer_example 0 camera_zenith (TransmittanceIntegrator_Li platform_example))
    drawn_example 1 2 (F32.lit 550)
  = Some (S754_nan, drawn_example).
Proof.
  apply (render_pixel_without_samples true
           (renderer_example 0 camera_zenith
              (TransmittanceIntegrator_Li platform_example))).
  split; [vm_compute; discriminate | vm_compute; discriminate].
Defined.

(** X12.  Where the camera rejects every sample (the pixels outside the
    disc of the fisheye camera), [render_pixel] returns exactly zero
    without calling the integrator; the sampler has advanced by one
    [next_2d] per sample. *)
Theorem render_pixel_all_rejected (x_first : bool) (r : Renderer) (st : Drawn)
    (x y : Z) (wl : F32.float) :
  (forall uv, sample_ray (camera (_scene r)) uv = None) ->
  0 < _samples_per_pixel r <= Int.max ->
  render_pixel x_first r st x y wl
  = Some (F32.zero,
          (Nat.iter (Z.to_nat (_samples_per_pixel r))
                    (fun s => snd (next_2d x_first s)) (fst st), snd st)).
Proof. apply render_pixel_rejected. Qed.

(** X12 (witness): three samples, none accepted, an integrator that
    would not return. *)
Lemma render_pixel_all_rejected_witness :
  let r := renderer_example 3 camera_blind (fun _ _ _ _ => None) in
  render_pixel true r drawn_example 1 2 (F32.lit 550)
  = Some (F32.zero,
          (Nat.iter (Z.to_nat (_samples_per_pixel r))
                    (fun s => snd (next_2d true s)) (fst drawn_example),
           snd drawn_example)).
Proof.
  intros r.
  assert (H : 0 < _samples_per_pixel r <= Int.max)
    by (split; [reflexivity | vm_compute; discriminate]).
  exact (render_pixel_all_rejected true r drawn_example 1 2 (F32.lit 550)
           (fun _ => eq_refl) H).
Defined.

(** ** The tracking loops (integrator.cxx, src/unnamed/part_001) *)

(** X13.  What [sample_interaction] returns is either -1 or the
    distance [t] of an accepted point: then [t] is not at or beyond
    [t_max], the point written to [p] is [ray.o + ray.d * t], and the
    ratio of the extinction at that point to the majorant is above
    zero. *)
Theorem sample_interaction_result
    (libm : Libm) (atm : Atmosphere) (fuel : nat) (sampler : Sampler)
    (cache : max_extinction_cache) (ray : Ray) (t_max wl : F32.float) (p : vec3)
    (t : F32.float) (p' : vec3) (sampler' : Sampler) :
  fst (sample_interaction libm atm fuel sampler cache ray t_max wl p)
  = Some (t, p', sampler') ->
  t = (- F32.one)%f32 \/
  ((t >=? t_max)%f32 = false /\ p' = ray_at ray t /\
   (F32.zero <? AtmosphereBase.get_extinction_at atm p' wl
                / fst (get_max_extinction atm wl cache))%f32 = true).
Proof.
  unfold sample_interaction.
  destruct (get_max_extinction atm wl cache) as [majorant cache']. cbn [fst].
  apply sample_interaction_loop_result.
Qed.

(** X13 (witness): a medium of extinction 1 with majorant 1, a segment
    of length 3 from the ground to the zenith: the first point, at
    distance 1, is accepted. *)
Lemma sample_interaction_result_witness :
  exists sampler',
    fst (sample_interaction libm_coarse (uniform_medium F32.one F32.one) 5
           (Sampler.new 0 1) cache_init ray_zenith (F32.lit 3) (F32.lit 550)
           EARTH_CENTER)
    = Some (F32.one, Vec3 F32.zero F32.zero F32.one, sampler') /\
    (F32.one >=? F32.lit 3)%f32 = false /\
    Vec3 F32.zero F32.zero F32.one = ray_at ray_zenith F32.one.
Proof.
  eexists. split; [vm_compute; reflexivity |].
  destruct (sample_interaction_result libm_coarse (uniform_medium F32.one F32.one) 5
              (Sampler.new 0 1) cache_init ray_zenith (F32.lit 3) (F32.lit 550)
              EARTH_CENTER F32.one (Vec3 F32.zero F32.zero F32.one) _
              ltac:(vm_compute; reflexivity)) as [E | (H1 & H2 & _)];
    [discriminate E | split; assumption].
Defined.

(** X14.  In a medium whose extinction is zero everywhere, with a
    majorant above zero, ratio tracking never attenuates: whatever
    [transmittance] returns is exactly 1, and it returns as soon as the
    accumulated steps reach [t_max]. *)
Theorem transmittance_without_extinction
    (libm : Libm) (atm : Atmosphere) (sampler : Sampler)
    (cache : max_extinction_cache) (ray : Ray) (t_max wl : F32.float) :
  (forall h, (get_extinction atm h wl ==? F32.zero)%f32 = true) ->
  (F32.zero <? fst (get_max_extinction atm wl cache))%f32 = true ->
  let majorant := fst (get_max_extinction atm wl cache) in
  let run fuel := fst (transmittance libm atm fuel sampler cache ray t_max wl) in
  (forall fuel r, run fuel = Some r -> fst r = F32.one) /\
  (forall n, (fst (ratio_flight libm majorant n F32.zero sampler) >=? t_max)%f32 = true ->
     exists sampler', run (S n) = Some (F32.one, sampler')).
Proof.
  intros Hext Hmaj. cbv zeta. unfold transmittance.
  destruct (get_max_extinction atm wl cache) as [majorant cache']. cbn [fst] in *.
  split.
  - intros fuel r. now apply transmittance_loop_one.
  - intros n. now apply transmittance_loop_returns.
Qed.

(** X14 (witness): no extinction, majorant 1, a segment of length 3:
    two steps do not reach its end, the third does. *)
Lemma transmittance_without_extinction_witness :
  fst (transmittance libm_coarse (vacuum F32.one) 2 (Sampler.new 0 1) cache_init
         ray_zenith (F32.lit 3) (F32.lit 550)) = None /\
  exists sampler',
    fst (transmittance libm_coarse (vacuum F32.one) 3 (Sampler.new 0 1) cache_init
           ray_zenith (F32.lit 3) (F32.lit 550)) = Some (F32.one, sampler').
Proof.
  split; [vm_compute; reflexivity |].
  destruct (transmittance_without_extinction libm_coarse (vacuum F32.one)
              (Sampler.new 0 1) cache_init ray_zenith (F32.lit 3) (F32.lit 550)
              (fun _ => eq_refl) eq_refl) as [_ Hreturns].
  apply (Hreturns 2%nat). vm_compute. reflexivity.
Defined.

(** X15.  [scene_intersect] sets the ground flag only together with the
    distance to the ground sphere, and only when that distance is not
    negative; without the flag the distance is -1 or the one to the
    atmosphere sphere. *)
Theorem scene_intersect_ground_flag (ray : Ray) :
  (snd (scene_intersect ray) = true ->
   fst (scene_intersect ray) = ray_sphere_intersection ray EARTH_RADIUS /\
   (fst (scene_intersect ray) <? F32.zero)%f32 = false) /\
  (snd (scene_intersect ray) = false ->
   fst (scene_intersect ray) = (- F32.one)%f32 \/
   fst (scene_intersect ray) = ray_sphere_intersection ray ATMOSPHERE_RADIUS).
Proof.
  split.
  - intros H. destruct (scene_intersect_flag ray H). now split.
  - apply scene_intersect_no_flag.
Qed.

(** ** Phase functions (phase.hxx, phase.cxx in src/src/lightsource.hxx) *)

(** X16.  Every phase function is symmetric in its two directions, and
    unchanged when both are reversed. *)
Theorem PhaseFunction_p_symmetric (ph : PhaseFunction) (wo wi : vec3) (wl : F32.float) :
  PhaseFunction_p ph wo wi wl = PhaseFunction_p ph wi wo wl /\
  PhaseFunction_p ph (glm.vneg wo) (glm.vneg wi) wl = PhaseFunction_p ph wo wi wl.
Proof.
  split; apply PhaseFunction_p_dot; [apply dot_comm | apply dot_vneg_vneg].
Qed.

(** X17.  The Henyey-Greenstein phase function of asymmetry zero is the
    isotropic one, exactly, for directions of finite dot product. *)
Theorem HenyeyGreenstein_zero_isotropic (s : bool) (wo wi : vec3) (wl : F32.float) :
  SFis_finite (glm.dot wo wi) = true ->
  PhaseFunction_p (HenyeyGreenstein_new (S754_zero s)) wo wi wl
  = PhaseFunction_p Isotropic wo wi wl.
Proof. apply HenyeyGreenstein_zero. Qed.

(** X17 (witness): the directions of the grazing ray and of the zenith;
    for the asymmetry 0.8 of the atmosphere the value is another one. *)
Lemma HenyeyGreenstein_zero_isotropic_witness :
  PhaseFunction_p (HenyeyGreenstein_new F32.zero) (Ray.d ray_grazing) (Ray.d ray_zenith)
                  (F32.lit 550) = M_INV_4PI /\
  PhaseFunction_p (HenyeyGreenstein_new (F32.lit 0.8)) (Ray.d ray_grazing)
                  (Ray.d ray_zenith) (F32.lit 550) <> M_INV_4PI.
Proof.
  split.
  - apply (HenyeyGreenstein_zero_isotropic false). vm_compute. reflexivity.
  - vm_compute. discriminate.
Defined.

(** ** The integrators (integrator.cxx, src/unnamed/part_001) *)

(** X18.  [TransmittanceIntegrator::Li] returns zero without drawing a
    sample for a ray on which [scene_intersect] is negative; over a
    medium without extinction whatever it returns is zero, for such a
    ray, or exactly one. *)
Theorem TransmittanceIntegrator_Li_values (pf : Platform) (scene : Scene) (st : Drawn)
    (ray : Ray) (wl : F32.float) :
  ((fst (scene_intersect ray) <? F32.zero)%f32 = true ->
   TransmittanceIntegrator_Li pf scene st ray wl = Some (F32.zero, st)) /\
  ((forall h, (get_extinction (atmosphere scene) h wl ==? F32.zero)%f32 = true) ->
   (F32.zero <? fst (get_max_extinction (atmosphere scene) wl (snd st)))%f32 = true ->
   forall r, TransmittanceIntegrator_Li pf scene st ray wl = Some r ->
     fst r = if (fst (scene_intersect ray) <? F32.zero)%f32 then F32.zero else F32.one).
Proof.
  split; [apply TransmittanceIntegrator_Li_miss |].
  intros Hext Hmaj r. unfold TransmittanceIntegrator_Li.
  destruct (scene_intersect ray) as [t_max flag]. cbn [fst].
  destruct (t_max <? F32.zero)%f32.
  - intros [= <-]. reflexivity.
  - now apply run_transmittance_vacuum.
Qed.

(** X18 (witness): from the ground to the zenith through a medium
    without extinction the transmittance is 1; looking up from above
    the atmosphere it is 0. *)
Lemma TransmittanceIntegrator_Li_values_witness :
  let scene := mkScene (vacuum (F32.lit 1e-5)) camera_zenith light_zenith (F32.lit 0.3) in
  let ray_space :=
    Ray.mk (Vec3 F32.zero F32.zero (F32.lit 200000)) (Vec3 F32.zero F32.zero F32.one) in
  (exists r,
     TransmittanceIntegrator_Li platform_example scene drawn_example ray_zenith (F32.lit 550)
     = Some r /\ fst r = F32.one) /\
  TransmittanceIntegrator_Li platform_example scene drawn_example ray_space (F32.lit 550)
  = Some (F32.zero, drawn_example).
Proof.
  intros scene ray_space.
  destruct (TransmittanceIntegrator_Li_values platform_example scene drawn_example
              ray_zenith (F32.lit 550)) as [_ Hone].
  destruct (TransmittanceIntegrator_Li_values platform_example scene drawn_example
              ray_space (F32.lit 550)) as [Hmiss _].
  split; [| exact (Hmiss eq_refl)].
  destruct (TransmittanceIntegrator_Li platform_example scene drawn_example ray_zenith
              (F32.lit 550)) as [r |] eqn:E.
  - exists r. split; [reflexivity |].
    exact (Hone (fun _ => eq_refl) eq_refl r eq_refl).
  - vm_compute in E. discriminate E.
Defined.

(** X19.  [PathTracingIntegrator::Li] returns exactly zero, without
    drawing a sample, when the maximum order is below 1 and when
    [scene_intersect] is negative on the camera ray; and with [_only_ms]
    and a maximum order of 1 whatever it returns is zero: the first
    order contributes nothing. *)
Theorem PathTracingIntegrator_Li_zero (pf : Platform) (_max_order : Z) (p : vec3)
    (scene : Scene) (st : Drawn) (ray : Ray) (wl : F32.float) :
  (_max_order < 1 ->
   forall _only_ms,
     PathTracingIntegrator_Li pf _max_order _only_ms p scene st ray wl
     = Some (F32.zero, st)) /\
  (1 <= _max_order -> (fst (scene_intersect ray) <? F32.zero)%f32 = true ->
   forall _only_ms,
     PathTracingIntegrator_Li pf _max_order _only_ms p scene st ray wl
     = Some (F32.zero, st)) /\
  (forall r, PathTracingIntegrator_Li pf 1 true p scene st ray wl = Some r ->
     fst r = F32.zero).
Proof.
  split; [| split].
  - intros H _only_ms. unfold PathTracingIntegrator_Li.
    now rewrite path_loop_no_order by lia.
  - intros H Hmiss _only_ms. unfold PathTracingIntegrator_Li.
    destruct (Z.to_nat _max_order) as [| n] eqn:En; [lia |].
    cbn [path_loop].
    replace (1 <=? _max_order) with true by (symmetry; apply Z.leb_le; lia).
    rewrite path_step_miss by exact Hmiss. reflexivity.
  - intros r Hr.
    pose proof (PathTracingIntegrator_Li_first_order_only_ms pf p scene st ray wl) as H.
    rewrite Hr in H. exact H.
Qed.

(** X19 (witness): from the ground to the zenith through a scattering
    medium lit from the zenith.  With [_only_ms] and a maximum order of
    1 the radiance is zero; without [_only_ms] it is not, and neither is
    it with [_only_ms] and a maximum order of 3. *)
Lemma PathTracingIntegrator_Li_zero_witness :
  let Li _max_order _only_ms :=
    PathTracingIntegrator_Li platform_example _max_order _only_ms EARTH_CENTER
      scene_example drawn_example ray_zenith (F32.lit 550) in
  (exists r, Li 1 true = Some r /\ fst r = F32.zero) /\
  option_map fst (Li 1 false) = Some (S754_finite false 10680707 (-45)) /\
  option_map fst (Li 3 true) = Some (S754_finite false 10680707 (-44)).
Proof.
  intros Li. split; [| split; vm_compute; reflexivity].
  destruct (PathTracingIntegrator_Li_zero platform_example 1 EARTH_CENTER scene_example
              drawn_example ray_zenith (F32.lit 550)) as (_ & _ & Hzero).
  subst Li. cbv beta.
  destruct (PathTracingIntegrator_Li platform_example 1 true EARTH_CENTER scene_example
              drawn_example ray_zenith (F32.lit 550)) as [r |] eqn:E.
  - exists r. split; [reflexivity | exact (Hzero r eq_refl)].
  - vm_compute in E. discriminate E.
Defined.

(** ** Command-line arguments (src/src/args.cxx) *)

(** X20.  Arguments that were parsed to their end can be followed by
    more: parsing the longer list continues, with the object as the
    first part left it, at the first added argument. *)
Theorem parse_args_resumes (cv : Conversions) (a : CommandLineArguments)
    (arg0 : string) (l1 l2 : list string) (a' : CommandLineArguments) (fg' : bool) :
  parse_args cv a (arg0 :: l1) = Parsed a' fg' ->
  parse_args cv a (arg0 :: l1 ++ l2) = parse_loop cv arg0 l2 a' fg'.
Proof. unfold parse_args. cbn [hd tl]. apply parse_loop_append. Qed.

(** X20 (witness): a width given twice; the second one is kept. *)
Lemma parse_args_resumes_witness :
  parse_args conversions_example default_arguments ["skytracer"; "-w"; "64"]%string
  = Parsed (set_width 64 default_arguments) false /\
  parse_args conversions_example default_arguments
    ("skytracer"%string :: ["-w"; "64"]%string ++ ["--width"; "128"; "sky.exr"]%string)%list
  = Parsed (set_filename "sky.exr" (set_width 128 (set_width 64 default_arguments))) true.
Proof.
  split; [reflexivity |].
  rewrite (parse_args_resumes conversions_example default_arguments "skytracer"
             ["-w"; "64"]%string ["--width"; "128"; "sky.exr"]%string
             (set_width 64 default_arguments) false eq_refl).
  reflexivity.
Defined.

(** X21.  An option that takes an argument, as the last word of the
    command line after arguments that were parsed to their end, makes
    [parse_args] throw the runtime error "<option> needs an argument",
    with the long name of the option. *)
Theorem parse_args_missing_argument (cv : Conversions) (a : CommandLineArguments)
    (arg0 : string) (l : list string) (a' : CommandLineArguments) (fg' : bool)
    (opt name : string) :
  parse_args cv a (arg0 :: l) = Parsed a' fg' ->
  In (opt, name) options_with_argument ->
  parse_args cv a (arg0 :: l ++ [opt]) = RuntimeError (name ++ " needs an argument").
Proof.
  unfold parse_args. cbn [hd tl]. intros Hl Hopt.
  rewrite (parse_loop_append cv arg0 l [opt] a false a' fg' Hl).
  now apply parse_loop_missing_argument.
Qed.

(** X21 (witness): "-tw" at the end. *)
Lemma parse_args_missing_argument_witness :
  parse_args conversions_example default_arguments
    ("skytracer"%string :: ["-w"; "64"]%string ++ ["-tw"]%string)%list
  = RuntimeError "--tile-width needs an argument".
Proof.
  apply (parse_args_missing_argument conversions_example default_arguments "skytracer"
           ["-w"; "64"]%string (set_width 64 default_arguments) false
           "-tw" "--tile-width" eq_refl).
  unfold options_with_argument. cbn [In]. tauto.
Defined.

(** X22.  A word that is no option, after arguments that were parsed to
    their end: if it does not begin with '-' (the empty word included)
    it becomes the output filename, unless one was given before, in
    which case [parse_args] throws "Only one output filename allowed";
    if it begins with '-' it throws "Unknown option". *)
Theorem parse_args_other_word (cv : Conversions) (a : CommandLineArguments)
    (arg0 : string) (l : list string) (a' : CommandLineArguments) (fg' : bool)
    (word : string) :
  parse_args cv a (arg0 :: l) = Parsed a' fg' ->
  ~ In word known_options ->
  parse_args cv a (arg0 :: l ++ [word])
  = if not_an_option word then
      if fg' then RuntimeError "Only one output filename allowed"
      else Parsed (set_filename word a') true
    else RuntimeError ("Unknown option '" ++ word
                       ++ "'. Use --help to see all available options").
Proof.
  unfold parse_args. cbn [hd tl]. intros Hl Hn.
  rewrite (parse_loop_append cv arg0 l [word] a false a' fg' Hl).
  destruct (not_an_option word) eqn:E.
  - rewrite parse_loop_positional by exact E. reflexivity.
  - now apply parse_loop_unknown_option.
Qed.

(** X22 (witness): a second filename. *)
Lemma parse_args_other_word_witness :
  parse_args conversions_example default_arguments
    ("skytracer"%string :: ["sky.exr"; "-w"; "64"]%string ++ ["sky2.exr"]%string)%list
  = RuntimeError "Only one output filename allowed".
Proof.
  apply (parse_args_other_word conversions_example default_arguments "skytracer"
           ["sky.exr"; "-w"; "64"]%string
           (set_width 64 (set_filename "sky.exr" default_arguments)) true
           "sky2.exr" eq_refl).
  unfold known_options, options_without_argument, options_with_argument.
  cbn [In map fst app]. intros H.
  repeat (destruct H as [H | H]; [discriminate H |]). exact H.
Defined.
